(** * podcast-monitor-service: a shallow embedding of [index.js]

    The service polls podcast RSS feeds, inserts the new episodes into a
    hosted database, runs each through a transcription / summary /
    topic-flagging pipeline and mails a daily digest.  The embedding keeps
    the shape of the JavaScript: every [async function] is a computation in
    a small state-and-exception monad that also records what the function
    did (console output and calls to the external collaborators), [await]
    is sequencing, [try]/[catch] is [try_catch].

    The external collaborators (feed parser, database faults, HTTP
    downloads, speech-to-text, chat completion, SMTP, the clock) are
    oracles indexed by the number of interactions performed so far: every
    deterministic schedule of outcomes is one choice of oracles, and the
    theorems quantify over all of them. *)

From Stdlib Require Import List String Ascii ZArith Lia Bool Arith.
From Stdlib Require Import Permutation Sorted.
From Stdlib Require Import PrimFloat DecimalString.
From Stdlib Require Uint63 FloatOps SpecFloat.
Import ListNotations.

Set Implicit Arguments.
Local Set Warnings "-register-all".

Local Open Scope string_scope.
Local Open Scope list_scope.

(** ** JavaScript values used by the service *)

(** A JavaScript number is an IEEE-754 double. *)
Definition number := float.

Definition is_NaN (x : number) : bool := negb (PrimFloat.eqb x x).

(** [ToBoolean] on a number: [0], [-0] and [NaN] are falsy. *)
Definition number_truthy (x : number) : bool :=
  negb (PrimFloat.eqb x 0%float) && negb (is_NaN x).

(** [ToBoolean] on a string: only the empty string is falsy. *)
Definition string_truthy (s : string) : bool :=
  match s with EmptyString => false | String _ _ => true end.

(** A value that may be [null]/[undefined]. *)
Definition opt_truthy (o : option string) : bool :=
  match o with Some s => string_truthy s | None => false end.

(** [a || b] on possibly absent strings. *)
Definition or_else (a b : option string) : option string :=
  if opt_truthy a then a else b.

(** The result of [JSON.parse]. *)
Inductive json : Type :=
| JNull
| JBool (b : bool)
| JNum (x : number)
| JStr (s : string)
| JArr (l : list json)
| JObj (fields : list (string * json)).

(** What the JavaScript runtime supplies and the repository only calls. *)
Class Runtime : Type := {
  (** [Number(s)], the string-to-number conversion (NaN when [s] is not a
      numeric literal). *)
  Number : string -> number;
  (** [new Date(s).getTime()]; [None] is the Invalid Date. *)
  Date_parse : string -> option Z;
  (** [String.prototype.toLowerCase]. *)
  toLowerCase : string -> string;
  (** [JSON.parse]; [None] is a thrown [SyntaxError]. *)
  JSON_parse : string -> option json;
  (** [JSON.stringify]. *)
  JSON_stringify : json -> string;
  (** The text ['{}'] is the empty object. *)
  JSON_parse_empty_object : JSON_parse "{}" = Some (JObj [])
}.

(** Thrown values ([Error] objects) are identified by their message. *)
Definition error := string.

Inductive outcome (A : Type) : Type :=
| Ok (a : A)
| Throw (e : error).
Arguments Ok {A} a.
Arguments Throw {A} e.

(** ** Records of the data model *)

(** A row of the [podcasts] table.  [last_checked] is a nullable timestamp
    column: the instant is kept as milliseconds since the epoch, which is
    what [new Date(podcast.last_checked)] makes of the ISO text that the
    database returns for it. *)
Module Podcast.
Record t : Type := mk {
  id : Z;
  name : string;
  rss_url : string;
  is_active : bool;
  last_checked : option Z
}.
End Podcast.

(** An item of a parsed RSS feed, as rss-parser delivers it.
    [enclosure_url] is [item.enclosure?.url] and [itunes_duration] is
    [item.itunes?.duration]. *)
Module Item.
Record t : Type := mk {
  title : option string;
  contentSnippet : option string;
  content : option string;
  enclosure_url : option string;
  link : option string;
  pubDate : option string;
  isoDate : option string;
  itunes_duration : option string
}.
End Item.

(** The object [episodeData] that [processNewEpisode] inserts. *)
Module EpisodeData.
Record t : Type := mk {
  podcast_id : Z;
  title : option string;
  description : option string;
  audio_url : option string;
  published_at : Z;
  duration_seconds : option number;
  processed : bool
}.
End EpisodeData.

(** A row of the [episodes] table. *)
Module Episode.
Record t : Type := mk {
  id : Z;
  podcast_id : Z;
  title : option string;
  description : option string;
  audio_url : option string;
  published_at : Z;
  duration_seconds : option number;
  processed : bool;
  transcript : option string;
  ai_summary : option string
}.
End Episode.

(** A row of the [interest_topics] table. *)
Module Topic.
Record t : Type := mk {
  id : Z;
  topic : string;
  is_active : bool
}.
End Topic.

(** A row of the [topic_flags] table, in the shape [flagInterestTopics]
    pushes it; the values copied from the model's answer are whatever JSON
    stood there ([None] when the property was missing). *)
Module Flag.
Record t : Type := mk {
  episode_id : Z;
  topic_id : Z;
  timestamp_start : option json;
  timestamp_end : option json;
  snippet : option json;
  analysis : option json;
  relevance_score : option json
}.
End Flag.

(** A row of [user_settings], restricted to the selected column. *)
Module Settings.
Record t : Type := mk {
  email : option string
}.
End Settings.

(** An episode as the digest query returns it: the row together with the
    embedded [podcasts(name)] and [topic_flags( *, interest_topics(topic))]. *)
Module Digest.
Record t : Type := mk {
  episode : Episode.t;
  podcasts : option string;
  topic_flags : list (Flag.t * option string)
}.
End Digest.

(** The database behind the hosted data store, and the count of
    interactions with the outside world performed so far. *)
Record World : Type := mkWorld {
  tick : nat;
  next_id : Z;
  podcasts : list Podcast.t;
  episodes : list Episode.t;
  interest_topics : list Topic.t;
  topic_flags : list Flag.t;
  user_settings : list Settings.t
}.

(** The external collaborators.  Each answers the interaction number [n]
    of a run; the database either performs the requested operation or
    reports a fault and leaves the tables alone. *)
Record Services : Type := mkServices {
  (** [Date.now()] *)
  clock : nat -> Z;
  (** the hosted database: a fault for this request, if any *)
  db_fault : nat -> option error;
  (** [parser.parseURL(url)] *)
  rss : nat -> string -> outcome (list Item.t);
  (** the audio download and its copy to a temporary file *)
  http_get : nat -> string -> option error;
  (** the speech-to-text request; the answer is [response.data.text] *)
  whisper : nat -> outcome (option string);
  (** [fs.unlinkSync] of the temporary file *)
  fs_unlink : nat -> option error;
  (** a chat-completion request; the answer is
      [response.data.content[0].text] *)
  llm : nat -> outcome string;
  (** [emailTransporter.sendMail] *)
  smtp : nat -> option error
}.

(** ** What a run does: console lines and calls to the collaborators *)

Inductive message : Type :=
| MCronFeeds
| MCronDigest
| MChecking (n : nat)
| MProcessing (name : string)
| MFound (n : nat) (name : string)
| MCheckDone
| EFeeds (e : error)
| EProcessing (name : string) (e : error)
| MSaved (title : option string)
| ENewEpisode (e : error)
| MStartAI (title : option string)
| MNoTranscript
| MAIDone (title : option string)
| EAI (e : error)
| MTranscribing
| ETranscription (e : error)
| ESummary (e : error)
| ETopic (e : error)
| MNoEmail
| MNoEpisodes
| MDigestSent (email : string)
| EDigest (e : error).

Inductive call : Type :=
| SelectActivePodcasts
| ParseURL (url : string)
| UpdateLastChecked (id : Z) (now : Z)
| InsertEpisode (d : EpisodeData.t)
| DownloadAudio (url : string)
| Transcription
| UnlinkTemp
| SummaryCompletion (episode_id : Z)
| SelectActiveTopics
| FlagCompletion (episode_id : Z)
| UpdateAiSummary (id : Z) (ai_summary : string)
| UpdateEpisodeAI (id : Z) (transcript ai_summary : string)
| InsertTopicFlags (flags : list Flag.t)
| Sleep (ms : Z)
| SelectUserEmail
| SelectDigestEpisodes (since : Z)
| SendMail (to : string) (html : string).

Inductive event : Type :=
| Console (m : message)
| Call (c : call).

(** ** The monad of [async] functions *)

Record Run (A : Type) : Type := mkRun {
  result : outcome A;
  final : World;
  emitted : list event
}.

Definition M (A : Type) : Type := World -> Run A.

Definition ret {A} (a : A) : M A := fun w => mkRun (Ok a) w [].

Definition throw {A} (e : error) : M A := fun w => mkRun (Throw e) w [].

Definition bind {A B} (m : M A) (f : A -> M B) : M B := fun w =>
  match m w with
  | mkRun (Ok a) w1 out1 =>
      match f a w1 with
      | mkRun r w2 out2 => mkRun r w2 (out1 ++ out2)
      end
  | mkRun (Throw e) w1 out1 => mkRun (Throw e) w1 out1
  end.

(** [try { m } catch (e) { h e }] *)
Definition try_catch {A} (m : M A) (h : error -> M A) : M A := fun w =>
  match m w with
  | mkRun (Ok a) w1 out1 => mkRun (Ok a) w1 out1
  | mkRun (Throw e) w1 out1 =>
      match h e w1 with
      | mkRun r w2 out2 => mkRun r w2 (out1 ++ out2)
      end
  end.

(** [console.log] and [console.error] *)
Definition console (m : message) : M unit := fun w => mkRun (Ok tt) w [Console m].

(** Lifting a pure step that may throw. *)
Definition lift {A} (o : outcome A) : M A := fun w => mkRun o w [].

Notation "x <- m ;; k" := (bind m (fun x => k))
  (at level 61, m at next level, right associativity).
Notation "m ;;; k" := (bind m (fun _ => k))
  (at level 61, right associativity).

(** The [{ data, error }] object every database request resolves to. *)
Module Reply.
Record t (A : Type) : Type := mk {
  data : option A;
  error : option error
}.
End Reply.

(** The JSON body of an HTTP response of the control surface. *)
Record Response : Type := mkResponse {
  status : Z;
  success : bool;
  text : string
}.

(** An element of a JavaScript array of objects: the object and where it
    lives.  [Array.prototype.includes] compares the addresses. *)
Record obj (A : Type) : Type := mkObj {
  addr : nat;
  val : A
}.

(** The digest page, piece by piece, in the order [html +=] appends them. *)
Inductive fragment : Type :=
| Header (now : Z)
| Heading (priority : bool)
| Block (ep : obj Digest.t) (isPriority : bool)
| Footer.

(** Text the service formats with the runtime's locale and URL encoding.
    [generateEpisodeHTML] (index.js, the function after
    [generateDigestHTML]) is kept opaque: it is a function of its two
    arguments that returns the block of one episode or throws (a missing
    podcast join, a flag without its topic), and no property below depends
    on the text it produces. *)
Class Templates : Type := {
  digest_header : Z -> string;
  generateEpisodeHTML : Digest.t -> bool -> outcome string
}.

(** ** Pure helpers *)

(** [s.split(sep)] for a one-character separator: never the empty list. *)
Fixpoint split (sep : ascii) (s : string) : list string :=
  match s with
  | EmptyString => [EmptyString]
  | String c rest =>
      if Ascii.eqb c sep then EmptyString :: split sep rest
      else match split sep rest with
           | [] => [String c EmptyString]
           | p :: ps => String c p :: ps
           end
  end.

(** [s.includes(sub)] *)
Fixpoint includes (sub s : string) : bool :=
  String.prefix sub s ||
  match s with
  | EmptyString => false
  | String _ rest => includes sub rest
  end.

Definition colon : ascii := ":"%char.

(** [ToBoolean] on a parsed JSON value. *)
Definition json_truthy (v : json) : bool :=
  match v with
  | JNull => false
  | JBool b => b
  | JNum x => number_truthy x
  | JStr s => string_truthy s
  | JArr _ => true
  | JObj _ => true
  end.

(** [ToBoolean] on the value of a property read, [None] being [undefined]. *)
Definition value_truthy (o : option json) : bool :=
  match o with Some v => json_truthy v | None => false end.

(** The own property [k] of an object; a parsed object lists each key once. *)
Fixpoint lookup (k : string) (fields : list (string * json)) : option json :=
  match fields with
  | [] => None
  | (k', v) :: rest => if String.eqb k k' then Some v else lookup k rest
  end.

(** [v.k] for the property names the service reads ([topic_flags],
    [priority_episode], [priority_topics], [topic], [timestamp_start], ...):
    a [TypeError] on [null], the own property on an object, [undefined] on
    every other value (none of these names is a built-in property). *)
Definition get_prop (v : json) (k : string) : outcome (option json) :=
  match v with
  | JNull => Throw "TypeError: Cannot read properties of null"
  | JObj fields => Ok (lookup k fields)
  | _ => Ok None
  end.

Definition chars (s : string) : list json :=
  map (fun c => JStr (String c EmptyString)) (list_ascii_of_string s).

(** The values a [for ... of] loop visits: the elements of an array, the
    characters of a string, and a [TypeError] on anything else. *)
Definition iterate (v : json) : outcome (list json) :=
  match v with
  | JArr l => Ok l
  | JStr s => Ok (chars s)
  | _ => Throw "TypeError: value is not iterable"
  end.

Definition index_key (n : nat) : string :=
  NilEmpty.string_of_uint (Nat.to_uint n).

Definition indexed (l : list json) : list (string * json) :=
  combine (map index_key (seq 0 (List.length l))) l.

(** The own enumerable properties copied by [{ ...v }]. *)
Definition spread (v : json) : list (string * json) :=
  match v with
  | JObj fields => fields
  | JArr l => indexed l
  | JStr s => indexed (chars s)
  | _ => []
  end.

(** Defining a property of an object literal: an existing key keeps its
    place and takes the new value, a new key is appended. *)
Fixpoint set_field (k : string) (v : json) (fields : list (string * json))
  : list (string * json) :=
  match fields with
  | [] => [(k, v)]
  | (k', v') :: rest =>
      if String.eqb k k' then (k, v) :: rest else (k', v') :: set_field k v rest
  end.

Definition remove_field (k : string) (fields : list (string * json))
  : list (string * json) :=
  filter (fun kv => negb (String.eqb k (fst kv))) fields.

(** [{ ...parsed, priority_episode: true, priority_topics: pt }] as
    [JSON.stringify] sees it: a property whose value is [undefined] is left
    out of the text. *)
Definition priority_marking (parsed : json) (pt : option json) : json :=
  let fields := set_field "priority_episode" (JBool true) (spread parsed) in
  JObj match pt with
       | Some v => set_field "priority_topics" v fields
       | None => remove_field "priority_topics" fields
       end.

(** The object [generateEnhancedSummary] serialises when the request fails. *)
Definition fallback_summary : json :=
  JObj [("guest", JStr "Unknown");
        ("summary_paragraphs",
         JArr [JStr "AI summary generation failed. Manual review required."]);
        ("key_topics", JArr []);
        ("main_arguments", JArr []);
        ("notable_quotes", JArr [])].

(** [a > b] on two [Date]s, the left one possibly invalid (NaN compares
    false). *)
Definition date_gt (a : option Z) (b : Z) : bool :=
  match a with Some t => (b <? t)%Z | None => false end.

(** [date.toISOString()], which throws on the Invalid Date.  The text and
    the instant it denotes are identified. *)
Definition toISOString (d : option Z) : outcome Z :=
  match d with
  | Some t => Ok t
  | None => Throw "RangeError: Invalid time value"
  end.

(** [getAudioUrl(item)] *)
Definition getAudioUrl (item : Item.t) : option string :=
  if opt_truthy (Item.enclosure_url item) then Item.enclosure_url item
  else match Item.link item with
       | Some l => if includes ".mp3" l then Some l else None
       | None => None
       end.

(** ** Tables *)

Definition tock (w : World) : World :=
  mkWorld (S (tick w)) (next_id w) (podcasts w) (episodes w)
          (interest_topics w) (topic_flags w) (user_settings w).

Definition with_podcasts (l : list Podcast.t) (w : World) : World :=
  mkWorld (tick w) (next_id w) l (episodes w)
          (interest_topics w) (topic_flags w) (user_settings w).

Definition with_episodes (l : list Episode.t) (w : World) : World :=
  mkWorld (tick w) (next_id w) (podcasts w) l
          (interest_topics w) (topic_flags w) (user_settings w).

Definition with_topic_flags (l : list Flag.t) (w : World) : World :=
  mkWorld (tick w) (next_id w) (podcasts w) (episodes w)
          (interest_topics w) l (user_settings w).

Definition with_next_id (n : Z) (w : World) : World :=
  mkWorld (tick w) n (podcasts w) (episodes w)
          (interest_topics w) (topic_flags w) (user_settings w).

Definition set_last_checked (id now : Z) (p : Podcast.t) : Podcast.t :=
  if (Podcast.id p =? id)%Z
  then Podcast.mk (Podcast.id p) (Podcast.name p) (Podcast.rss_url p)
                  (Podcast.is_active p) (Some now)
  else p.

Definition new_row (id : Z) (d : EpisodeData.t) : Episode.t :=
  Episode.mk id (EpisodeData.podcast_id d) (EpisodeData.title d)
             (EpisodeData.description d) (EpisodeData.audio_url d)
             (EpisodeData.published_at d) (EpisodeData.duration_seconds d)
             (EpisodeData.processed d) None None.

Definition set_ai_summary (id : Z) (s : string) (e : Episode.t) : Episode.t :=
  if (Episode.id e =? id)%Z
  then Episode.mk (Episode.id e) (Episode.podcast_id e) (Episode.title e)
                  (Episode.description e) (Episode.audio_url e)
                  (Episode.published_at e) (Episode.duration_seconds e)
                  (Episode.processed e) (Episode.transcript e) (Some s)
  else e.

Definition set_analysis (id : Z) (transcript ai_summary : string)
                        (e : Episode.t) : Episode.t :=
  if (Episode.id e =? id)%Z
  then Episode.mk (Episode.id e) (Episode.podcast_id e) (Episode.title e)
                  (Episode.description e) (Episode.audio_url e)
                  (Episode.published_at e) (Episode.duration_seconds e)
                  true (Some transcript) (Some ai_summary)
  else e.

(** [.order('published_at', { ascending: false })] *)
Fixpoint insert_desc (e : Episode.t) (l : list Episode.t) : list Episode.t :=
  match l with
  | [] => [e]
  | x :: rest =>
      if (Episode.published_at x <=? Episode.published_at e)%Z
      then e :: l
      else x :: insert_desc e rest
  end.

Definition order_desc (l : list Episode.t) : list Episode.t :=
  fold_right insert_desc [] l.

(** [.gte('published_at', since).eq('processed', true)] *)
Definition digest_filter (since : Z) (e : Episode.t) : bool :=
  (since <=? Episode.published_at e)%Z && Episode.processed e.

Definition podcast_name (w : World) (e : Episode.t) : option string :=
  match find (fun p => (Podcast.id p =? Episode.podcast_id e)%Z) (podcasts w) with
  | Some p => Some (Podcast.name p)
  | None => None
  end.

Definition topic_name (w : World) (f : Flag.t) : option string :=
  match find (fun t => (Topic.id t =? Flag.topic_id f)%Z) (interest_topics w) with
  | Some t => Some (Topic.topic t)
  | None => None
  end.

Definition joined (w : World) (e : Episode.t) : Digest.t :=
  Digest.mk e (podcast_name w e)
    (map (fun f => (f, topic_name w f))
         (filter (fun f => (Flag.episode_id f =? Episode.id e)%Z) (topic_flags w))).

Definition digest_rows (since : Z) (w : World) : list Digest.t :=
  map (joined w) (order_desc (filter (digest_filter since) (episodes w))).

(** The array a query result is turned into: one fresh object per row. *)
Definition allocate {A} (rows : list A) : list (obj A) :=
  map (fun ir => mkObj (fst ir) (snd ir)) (combine (seq 0 (List.length rows)) rows).

(** [array.includes(x)] on an array of objects *)
Definition array_includes {A} (l : list (obj A)) (x : obj A) : bool :=
  existsb (fun y => Nat.eqb (addr y) (addr x)) l.

(** ** The service *)

Section Service.
Context {RT : Runtime} {TP : Templates}.
Variable sv : Services.

(** [parseDuration(duration)], [None] being [null]. *)
Definition parseDuration (duration : option string) : option number :=
  match duration with
  | None => None
  | Some d =>
      if negb (string_truthy d) then None
      else
        match map Number (split colon d) with
        | [p0; p1; p2] => Some (p0 * 3600 + p1 * 60 + p2)%float
        | [p0; p1] => Some (p0 * 60 + p1)%float
        | _ => None
        end
  end.

(** [new Date(x)] for a string that may be [undefined]. *)
Definition new_Date (x : option string) : option Z :=
  match x with Some s => Date_parse s | None => None end.

(** *** Requests to the collaborators *)

(** A database request: one interaction, which the database either
    refuses with a fault or performs. *)
Definition db {A} (c : call) (op : World -> Reply.t A * World) : M (Reply.t A) :=
  fun w =>
    match db_fault sv (tick w) with
    | Some e => mkRun (Ok (Reply.mk None (Some e))) (tock w) [Call c]
    | None => let (r, w') := op w in mkRun (Ok r) (tock w') [Call c]
    end.

Definition found {A} (a : A) : Reply.t A := Reply.mk (Some a) None.

(** [supabase.from('podcasts').select('*').eq('is_active', true)] *)
Definition select_active_podcasts : M (Reply.t (list Podcast.t)) :=
  db SelectActivePodcasts
     (fun w => (found (filter Podcast.is_active (podcasts w)), w)).

(** [supabase.from('podcasts').update({ last_checked }).eq('id', id)] *)
Definition update_last_checked (id now : Z) : M (Reply.t unit) :=
  db (UpdateLastChecked id now)
     (fun w => (found tt,
                with_podcasts (map (set_last_checked id now) (podcasts w)) w)).

(** [supabase.from('episodes').insert(episodeData).select().single()] *)
Definition insert_episode (d : EpisodeData.t) : M (Reply.t Episode.t) :=
  db (InsertEpisode d)
     (fun w => let row := new_row (next_id w) d in
               (found row,
                with_next_id (next_id w + 1)
                             (with_episodes (episodes w ++ [row]) w))).

(** [supabase.from('interest_topics').select('*').eq('is_active', true)] *)
Definition select_active_topics : M (Reply.t (list Topic.t)) :=
  db SelectActiveTopics
     (fun w => (found (filter Topic.is_active (interest_topics w)), w)).

(** [supabase.from('episodes').update({ ai_summary }).eq('id', id)] *)
Definition update_ai_summary (id : Z) (s : string) : M (Reply.t unit) :=
  db (UpdateAiSummary id s)
     (fun w => (found tt,
                with_episodes (map (set_ai_summary id s) (episodes w)) w)).

(** [supabase.from('episodes')
      .update({ transcript, ai_summary, processed: true }).eq('id', id)] *)
Definition update_episode_ai (id : Z) (transcript ai_summary : string)
  : M (Reply.t unit) :=
  db (UpdateEpisodeAI id transcript ai_summary)
     (fun w => (found tt,
                with_episodes
                  (map (set_analysis id transcript ai_summary) (episodes w)) w)).

(** [supabase.from('topic_flags').insert(topicFlags)] *)
Definition insert_topic_flags (flags : list Flag.t) : M (Reply.t unit) :=
  db (InsertTopicFlags flags)
     (fun w => (found tt, with_topic_flags (topic_flags w ++ flags) w)).

(** [supabase.from('user_settings').select('email').single()]: an error
    unless the table holds exactly one row. *)
Definition select_user_email : M (Reply.t Settings.t) :=
  db SelectUserEmail
     (fun w => match user_settings w with
               | [s] => (found s, w)
               | _ => (Reply.mk None (Some "PGRST116"), w)
               end).

(** The digest query. *)
Definition select_digest_episodes (since : Z) : M (Reply.t (list Digest.t)) :=
  db (SelectDigestEpisodes since) (fun w => (found (digest_rows since w), w)).

(** [parser.parseURL(url)], resolving to [feed.items] *)
Definition parseURL (url : string) : M (list Item.t) := fun w =>
  mkRun (rss sv (tick w) url) (tock w) [Call (ParseURL url)].

(** [new Promise(resolve => setTimeout(resolve, ms))] *)
Definition sleep (ms : Z) : M unit := fun w =>
  mkRun (Ok tt) (tock w) [Call (Sleep ms)].

Definition failing (o : option error) : outcome unit :=
  match o with Some e => Throw e | None => Ok tt end.

(** The [axios] GET of the audio and the write of the temporary file. *)
Definition download (url : string) : M unit := fun w =>
  mkRun (failing (http_get sv (tick w) url)) (tock w) [Call (DownloadAudio url)].

(** The [axios.post] to the transcription endpoint. *)
Definition transcription : M (option string) := fun w =>
  mkRun (whisper sv (tick w)) (tock w) [Call Transcription].

Definition unlink : M unit := fun w =>
  mkRun (failing (fs_unlink sv (tick w))) (tock w) [Call UnlinkTemp].

(** An [axios.post] to the chat-completion endpoint, resolving to the text
    of the first content block. *)
Definition completion (c : call) : M string := fun w =>
  mkRun (llm sv (tick w)) (tock w) [Call c].

Definition sendMail (to html : string) : M unit := fun w =>
  mkRun (failing (smtp sv (tick w))) (tock w) [Call (SendMail to html)].

(** [Date.now()] *)
Definition now : M Z := fun w => mkRun (Ok (clock sv (tick w))) w [].

(** [JSON.parse] as a step that may throw. *)
Definition parse (s : string) : outcome json :=
  match JSON_parse s with
  | Some v => Ok v
  | None => Throw "SyntaxError: Unexpected token in JSON"
  end.

(** [s || '{}'] *)
Definition or_empty_object (s : option string) : string :=
  match s with
  | Some t => if string_truthy t then t else "{}"
  | None => "{}"
  end.

(** *** transcribeAudio *)

Definition transcribeAudio (audioUrl : option string) : M (option string) :=
  try_catch
    (match audioUrl with
     | None => ret None
     | Some url =>
         if negb (string_truthy url) then ret None
         else
           console MTranscribing ;;;
           download url ;;;
           response <- transcription ;;
           unlink ;;;
           ret response
     end)
    (fun e => console (ETranscription e) ;;; ret None).

(** *** generateEnhancedSummary *)

Definition generateEnhancedSummary (episode : Episode.t) (transcript : string)
  : M string :=
  try_catch
    (completion (SummaryCompletion (Episode.id episode)))
    (fun e => console (ESummary e) ;;; ret (JSON_stringify fallback_summary)).

(** *** flagInterestTopics *)

(** [flag.topic.toLowerCase()] *)
Definition flag_topic (flag : json) : outcome string :=
  match get_prop flag "topic" with
  | Throw e => Throw e
  | Ok (Some (JStr s)) => Ok (toLowerCase s)
  | Ok _ => Throw "TypeError: flag.topic.toLowerCase is not a function"
  end.

(** [topics.find(t => t.topic.toLowerCase() === flag.topic.toLowerCase())] *)
Fixpoint find_topic (topics : list Topic.t) (flag : json)
  : outcome (option Topic.t) :=
  match topics with
  | [] => Ok None
  | t :: rest =>
      match flag_topic flag with
      | Throw e => Throw e
      | Ok ft =>
          if String.eqb (toLowerCase (Topic.topic t)) ft then Ok (Some t)
          else find_topic rest flag
      end
  end.

Definition prop_or_undefined (v : json) (k : string) : option json :=
  match get_prop v k with Ok o => o | Throw _ => None end.

Definition flag_row (episode : Episode.t) (topic : Topic.t) (flag : json)
  : Flag.t :=
  Flag.mk (Episode.id episode) (Topic.id topic)
          (prop_or_undefined flag "timestamp_start")
          (prop_or_undefined flag "timestamp_end")
          (prop_or_undefined flag "snippet")
          (prop_or_undefined flag "analysis")
          (prop_or_undefined flag "relevance_score").

(** The loop that converts the model's flags to rows; [flags] is the array
    built so far. *)
Fixpoint collect_flags (episode : Episode.t) (topics : list Topic.t)
         (items : list json) (flags : list Flag.t) : outcome (list Flag.t) :=
  match items with
  | [] => Ok flags
  | flag :: rest =>
      match find_topic topics flag with
      | Throw e => Throw e
      | Ok (Some topic) =>
          collect_flags episode topics rest (flags ++ [flag_row episode topic flag])
      | Ok None => collect_flags episode topics rest flags
      end
  end.

(** [analysis.topic_flags || []] *)
Definition or_empty_array (o : option json) : json :=
  match o with
  | Some v => if json_truthy v then v else JArr []
  | None => JArr []
  end.

Definition flagInterestTopics (episode : Episode.t) (transcript : string)
  : M (list Flag.t) :=
  try_catch
    (r <- select_active_topics ;;
     match Reply.data r with
     | None => ret []
     | Some [] => ret []
     | Some topics =>
         response <- completion (FlagCompletion (Episode.id episode)) ;;
         analysis <- lift (parse response) ;;
         listed <- lift (get_prop analysis "topic_flags") ;;
         items <- lift (iterate (or_empty_array listed)) ;;
         flags <- lift (collect_flags episode topics items []) ;;
         priority_episode <- lift (get_prop analysis "priority_episode") ;;
         (if value_truthy priority_episode then
            parsed <- lift (parse (or_empty_object (Episode.ai_summary episode))) ;;
            priority_topics <- lift (get_prop analysis "priority_topics") ;;
            update_ai_summary (Episode.id episode)
              (JSON_stringify (priority_marking parsed priority_topics)) ;;;
            ret tt
          else ret tt) ;;;
         ret flags
     end)
    (fun e => console (ETopic e) ;;; ret []).

(** *** processEpisodeAI *)

(** The value of [x] when [!x] is false. *)
Definition truthy_string (x : option string) : option string :=
  match x with
  | Some s => if string_truthy s then Some s else None
  | None => None
  end.

Definition processEpisodeAI (episode : Episode.t) : M unit :=
  try_catch
    (console (MStartAI (Episode.title episode)) ;;;
     transcript <- transcribeAudio (Episode.audio_url episode) ;;
     match truthy_string transcript with
     | None => console MNoTranscript
     | Some transcript =>
         aiSummary <- generateEnhancedSummary episode transcript ;;
         topicFlags <- flagInterestTopics episode transcript ;;
         update_episode_ai (Episode.id episode) transcript aiSummary ;;;
         (if (0 <? List.length topicFlags)%nat
          then insert_topic_flags topicFlags ;;; ret tt
          else ret tt) ;;;
         console (MAIDone (Episode.title episode))
     end)
    (fun e => console (EAI e)).

(** *** processNewEpisode *)

(** [new Date(item.pubDate || item.isoDate)] *)
Definition publishDate (item : Item.t) : option Z :=
  new_Date (or_else (Item.pubDate item) (Item.isoDate item)).

Definition episodeData (podcast : Podcast.t) (item : Item.t) (published_at : Z)
  : EpisodeData.t :=
  EpisodeData.mk (Podcast.id podcast)
                 (Item.title item)
                 (or_else (Item.contentSnippet item) (Item.content item))
                 (getAudioUrl item)
                 published_at
                 (parseDuration (Item.itunes_duration item))
                 false.

Definition processNewEpisode (podcast : Podcast.t) (item : Item.t) : M unit :=
  try_catch
    (published_at <- lift (toISOString (publishDate item)) ;;
     r <- insert_episode (episodeData podcast item published_at) ;;
     match Reply.error r with
     | Some e => throw e
     | None =>
         match Reply.data r with
         | None => throw "TypeError: Cannot read properties of null"
         | Some episode =>
             console (MSaved (Episode.title episode)) ;;;
             processEpisodeAI episode
         end
     end)
    (fun e => console (ENewEpisode e)).

(** *** processPodcastFeed *)

(** [podcast.last_checked ? new Date(podcast.last_checked) : new Date(0)] *)
Definition lastChecked (podcast : Podcast.t) : Z :=
  match Podcast.last_checked podcast with
  | Some t => t
  | None => 0%Z
  end.

(** The test of the loop: [publishDate > lastChecked]. *)
Definition is_new (podcast : Podcast.t) (item : Item.t) : bool :=
  date_gt (publishDate item) (lastChecked podcast).

(** The loop over [feed.items]; the result is [newEpisodesCount]. *)
Fixpoint items_loop (podcast : Podcast.t) (items : list Item.t)
         (newEpisodesCount : nat) : M nat :=
  match items with
  | [] => ret newEpisodesCount
  | item :: rest =>
      if is_new podcast item then
        processNewEpisode podcast item ;;;
        items_loop podcast rest (S newEpisodesCount)
      else items_loop podcast rest newEpisodesCount
  end.

Definition processPodcastFeed (podcast : Podcast.t) : M unit :=
  try_catch
    (console (MProcessing (Podcast.name podcast)) ;;;
     items <- parseURL (Podcast.rss_url podcast) ;;
     newEpisodesCount <- items_loop podcast items 0 ;;
     t <- now ;;
     update_last_checked (Podcast.id podcast) t ;;;
     if (0 <? newEpisodesCount)%nat
     then console (MFound newEpisodesCount (Podcast.name podcast))
     else ret tt)
    (fun e => console (EProcessing (Podcast.name podcast) e)).

(** *** checkAllFeeds *)

(** The loop over the podcasts, with its pause after each feed. *)
Fixpoint feeds_loop (podcasts : list Podcast.t) : M unit :=
  match podcasts with
  | [] => ret tt
  | podcast :: rest =>
      processPodcastFeed podcast ;;;
      sleep 2000 ;;;
      feeds_loop rest
  end.

Definition checkAllFeeds : M unit :=
  try_catch
    (r <- select_active_podcasts ;;
     match Reply.error r with
     | Some e => throw e
     | None =>
         match Reply.data r with
         | None => throw "TypeError: Cannot read properties of null"
         | Some podcasts =>
             console (MChecking (List.length podcasts)) ;;;
             feeds_loop podcasts ;;;
             console MCheckDone
         end
     end)
    (fun e => console (EFeeds e)).

(** *** The daily digest *)

(** The callback of [priorityEpisodes = episodes.filter(...)]. *)
Definition is_priority (ep : Digest.t) : bool :=
  match parse (or_empty_object (Episode.ai_summary (Digest.episode ep))) with
  | Throw _ => false
  | Ok summary =>
      match get_prop summary "priority_episode" with
      | Throw _ => false
      | Ok v => value_truthy v
      end
  end.

Definition priorityEpisodes (episodes : list (obj Digest.t)) : list (obj Digest.t) :=
  filter (fun ep => is_priority (val ep)) episodes.

Definition regularEpisodes (episodes : list (obj Digest.t)) : list (obj Digest.t) :=
  filter (fun ep => negb (array_includes (priorityEpisodes episodes) ep)) episodes.

(** What [generateDigestHTML] appends to [html], in order. *)
Definition digest_fragments (today : Z) (episodes : list (obj Digest.t))
  : list fragment :=
  [Header today]
  ++ (if (0 <? List.length (priorityEpisodes episodes))%nat
      then Heading true :: map (fun ep => Block ep true) (priorityEpisodes episodes)
      else [])
  ++ (if (0 <? List.length (regularEpisodes episodes))%nat
      then Heading false :: map (fun ep => Block ep false) (regularEpisodes episodes)
      else [])
  ++ [Footer].

Definition fragment_html (f : fragment) : outcome string :=
  match f with
  | Header today => Ok (digest_header today)
  | Heading true =>
      Ok "<h2>🚨 Priority Episodes (Extensive Coverage of Your Interests)</h2>"
  | Heading false => Ok "<h2>📰 Recent Episodes</h2>"
  | Block ep isPriority => generateEpisodeHTML (val ep) isPriority
  | Footer => Ok "</body></html>"
  end.

(** The text of a list of fragments; the first block that throws ends it. *)
Fixpoint html_of (fragments : list fragment) : outcome string :=
  match fragments with
  | [] => Ok ""
  | f :: rest =>
      match fragment_html f with
      | Throw e => Throw e
      | Ok s =>
          match html_of rest with
          | Throw e => Throw e
          | Ok s' => Ok (s ++ s')%string
          end
      end
  end.

Definition generateDigestHTML (today : Z) (episodes : list (obj Digest.t))
  : outcome string :=
  html_of (digest_fragments today episodes).

(** [settings?.email] when it is truthy *)
Definition configured_email (settings : option Settings.t) : option string :=
  match settings with
  | Some s => truthy_string (Settings.email s)
  | None => None
  end.

Definition sendDailyDigest : M unit :=
  try_catch
    (r <- select_user_email ;;
     match configured_email (Reply.data r) with
     | None => console MNoEmail
     | Some email =>
         t <- now ;;
         let yesterday := (t - 24 * 60 * 60 * 1000)%Z in
         r' <- select_digest_episodes yesterday ;;
         match Reply.data r' with
         | None => console MNoEpisodes
         | Some [] => console MNoEpisodes
         | Some episodes =>
             today <- now ;;
             htmlContent <- lift (generateDigestHTML today (allocate episodes)) ;;
             sendMail email htmlContent ;;;
             console (MDigestSent email)
         end
     end)
    (fun e => console (EDigest e)).

(** *** Triggers: the two cron jobs and the HTTP control surface *)

Definition cron_check_feeds : M unit :=
  console MCronFeeds ;;; checkAllFeeds.

Definition cron_send_digest : M unit :=
  console MCronDigest ;;; sendDailyDigest.

(** [app.post('/check-feeds', ...)] *)
Definition post_check_feeds : M Response :=
  try_catch
    (checkAllFeeds ;;; ret (mkResponse 200 true "Feed check completed"))
    (fun e => ret (mkResponse 500 false e)).

(** [app.post('/send-digest', ...)] *)
Definition post_send_digest : M Response :=
  try_catch
    (sendDailyDigest ;;; ret (mkResponse 200 true "Digest sent"))
    (fun e => ret (mkResponse 500 false e)).

End Service.


(** ** Numbers on the page

    What the page computes with the numbers it prints: [Math.floor], the
    remainder [%] and the text of a number ([Number::toString], which is
    also what a template literal and [String(x)] make of it).  A finite
    double other than zero is [m * 2^e] with a sign, so all three are exact
    computations on integers. *)

(** The double of a whole number below [2^63] in magnitude. *)
Definition whole (z : Z) : number :=
  if (z <? 0)%Z then (- PrimFloat.of_uint63 (Uint63.of_Z (- z)))%float
  else PrimFloat.of_uint63 (Uint63.of_Z z).

(** [Math.floor(x)]: a finite [x] is [m * 2^e] with a sign. *)
Definition Math_floor (x : number) : number :=
  match FloatOps.Prim2SF x with
  | SpecFloat.S754_finite s m e =>
      if (0 <=? e)%Z then x
      else
        let q := ((if s then Z.neg m else Z.pos m) / 2 ^ (- e))%Z in
        if (q =? 0)%Z then 0%float else whole q
  | _ => x
  end.

(** [n % d]: the remainder of the truncating division, with the sign of
    [n]; it is exact. *)
Definition remainder (n d : number) : number :=
  match FloatOps.Prim2SF n, FloatOps.Prim2SF d with
  | SpecFloat.S754_nan, _ => nan
  | _, SpecFloat.S754_nan => nan
  | SpecFloat.S754_infinity _, _ => nan
  | _, SpecFloat.S754_zero _ => nan
  | _, SpecFloat.S754_infinity _ => n
  | SpecFloat.S754_zero _, _ => n
  | SpecFloat.S754_finite sn mn en, SpecFloat.S754_finite _ md ed =>
      let e := Z.min en ed in
      let r := Z.rem (Z.pos mn * 2 ^ (en - e)) (Z.pos md * 2 ^ (ed - e)) in
      let f := FloatOps.Z.ldexp (PrimFloat.of_uint63 (Uint63.of_Z r)) e in
      if sn then (- f)%float else f
  end.

(** The decimal digits of a whole number. *)
Definition digits_text (z : Z) : string := NilZero.string_of_int (Z.to_int z).

(** [c * 10^p] and [b * 2^t] brought to a common denominator. *)
Definition decimal_side (c p t : Z) : Z := c * 10 ^ Z.max p 0 * 2 ^ Z.max (- t) 0.
Definition binary_side (b p t : Z) : Z := b * 10 ^ Z.max (- p) 0 * 2 ^ Z.max t 0.

(** The least [n], from [n] on, with [b * 2^t < 10^n]. *)
Fixpoint magnitude (fuel : nat) (n b t : Z) : Z :=
  match fuel with
  | O => n
  | S fuel' =>
      if (binary_side b n t <? decimal_side 1 n t)%Z then n
      else magnitude fuel' (n + 1) b t
  end.

(** The fewest digits [c], with their exponent [p], such that [c * 10^p]
    reads back as [m * 2^e]: it lies between the midpoints to the two
    neighbouring doubles (which it may reach when [m] is even); with [k]
    digits the candidates are the two neighbours of the number among the
    multiples of [10^p], and the closer one is taken. *)
Fixpoint shortest (fuel : nat) (k n0 m e : Z) : Z * Z :=
  match fuel with
  | O => (0, 0)
  | S fuel' =>
      let t := e - 2 in
      let lo := if (m =? 2 ^ 52) && (-1074 <? e) then 4 * m - 1 else 4 * m - 2 in
      let hi := 4 * m + 2 in
      let p := n0 - k in
      let below := binary_side (4 * m) p t / decimal_side 1 p t in
      let above := below + 1 in
      let reads_back c :=
        if Z.even m
        then (binary_side lo p t <=? decimal_side c p t)
             && (decimal_side c p t <=? binary_side hi p t)
        else (binary_side lo p t <? decimal_side c p t)
             && (decimal_side c p t <? binary_side hi p t) in
      match reads_back below, reads_back above with
      | true, true =>
          match (2 * binary_side (4 * m) p t ?= decimal_side (2 * below + 1) p t) with
          | Lt => (below, p)
          | Gt => (above, p)
          | Eq => (if Z.even below then below else above, p)
          end
      | true, false => (below, p)
      | false, true => (above, p)
      | false, false => shortest fuel' (k + 1) n0 m e
      end
  end%Z.

(** [c * 10^p] without the zeros that end [c]. *)
Fixpoint strip_zeros (fuel : nat) (c p : Z) : Z * Z :=
  match fuel with
  | O => (c, p)
  | S fuel' =>
      if (c mod 10 =? 0)%Z then strip_zeros fuel' (c / 10)%Z (p + 1)%Z else (c, p)
  end.

Fixpoint zeros (n : nat) : string :=
  match n with O => "" | S n' => String "0" (zeros n') end.

Section Text.
Local Open Scope string_scope.

(** [Number::toString] of the positive double [m * 2^e]: with the [k]
    digits [s] of its shortest decimal and [n] the position of the decimal
    point, the digits followed by zeros, the digits with the point inside
    them, [0.] followed by zeros and the digits, or the exponent notation
    when [n] is above 21 or below -5. *)
Definition positive_text (m e : Z) : string :=
  let guess := ((Z.log2 m + e) * 30103 / 100000)%Z in
  let n0 := magnitude 5 (guess - 1) (4 * m) (e - 2) in
  let (c0, p0) := shortest 17 1 n0 m e in
  let (c, p) := strip_zeros 20 c0 p0 in
  let s := digits_text c in
  let k := Z.of_nat (String.length s) in
  let n := (p + k)%Z in
  if (k <=? n)%Z && (n <=? 21)%Z then s ++ zeros (Z.to_nat (n - k))
  else if (0 <? n)%Z && (n <=? 21)%Z
  then substring 0 (Z.to_nat n) s ++ "." ++ substring (Z.to_nat n) (Z.to_nat (k - n)) s
  else if (-6 <? n)%Z && (n <=? 0)%Z then "0." ++ zeros (Z.to_nat (- n)) ++ s
  else
    let exponent := (if (0 <=? n - 1)%Z then "+" else "-") ++ digits_text (Z.abs (n - 1)) in
    if (k =? 1)%Z then s ++ "e" ++ exponent
    else substring 0 1 s ++ "." ++ substring 1 (Z.to_nat (k - 1)) s ++ "e" ++ exponent.

(** [String(x)], which is also what a template literal makes of [x]. *)
Definition number_text (x : number) : string :=
  match FloatOps.Prim2SF x with
  | SpecFloat.S754_nan => "NaN"
  | SpecFloat.S754_zero _ => "0"
  | SpecFloat.S754_infinity s => if s then "-Infinity" else "Infinity"
  | SpecFloat.S754_finite s m e =>
      (if s then "-" else "") ++ positive_text (Z.pos m) e
  end.

End Text.


(** ** The block of one episode

    [generateEpisodeHTML], [generateApplePodcastsUrl], [formatDuration] and
    [formatTime] in the order they evaluate their expressions.  The block
    is kept as the list of the pieces that [html +=] appends, each with the
    texts its template interpolates; the fixed markup around them and the
    formatting done by the runtime are the [Formatting] below. *)

Module Page.

(** The pieces, in the order they are appended: the first template (the
    [div] with its class, the priority banner, the title, the line of
    podcast, guest and duration, the date, the link to Apple Podcasts and
    the heading of the summary), a paragraph of the summary, the end of the
    summary, the heading of the flags, the block of one flag, and the end of
    the block. *)
Inductive piece : Type :=
| Opening (isPriority : bool)
          (title podcast guest duration published applePodcastsUrl : string)
| Paragraph (para : string)
| SummaryEnd
| FlagsHeading
| FlagBlock (topic timestampUrl time analysis : string)
| Closing.

Class Formatting : Type := {
  (** the text a template literal makes of a parsed JSON value; the
      conversion throws on an object whose own [toString] is not a function *)
  to_text : json -> outcome string;
  (** [encodeURIComponent], which throws on a lone surrogate *)
  encodeURIComponent : string -> outcome string;
  (** [new Date(t).toLocaleString()] *)
  toLocaleString : Z -> string;
  (** the page's head, with the date of the day *)
  page_header : Z -> string;
  (** the text of a piece: the fixed part of its template around the
      interpolated texts *)
  markup : piece -> string
}.

Definition and_then {A B} (o : outcome A) (f : A -> outcome B) : outcome B :=
  match o with
  | Ok a => f a
  | Throw e => Throw e
  end.

Notation "x <~ o ;; k" := (and_then o (fun x => k))
  (at level 61, o at next level, right associativity).

(** [forEach] with a callback that may throw: the first throw ends it. *)
Fixpoint each {A B} (f : A -> outcome B) (l : list A) : outcome (list B) :=
  match l with
  | [] => Ok []
  | a :: rest =>
      b <~ f a ;;
      bs <~ each f rest ;;
      Ok (b :: bs)
  end.

Section Block.
Context {RT : Runtime} {FM : Formatting}.

(** [`${x}`] for a text column, which may be [null]. *)
Definition string_text (o : option string) : string :=
  match o with
  | Some s => s
  | None => "null"
  end.

(** [`${x}`] for a column that holds a JSON value or [null]. *)
Definition value_text (o : option json) : outcome string :=
  match o with
  | Some v => to_text v
  | None => Ok "null"
  end.

(** [generateApplePodcastsUrl(podcastName, episodeTitle)] *)
Definition generateApplePodcastsUrl (podcastName : string)
                                    (episodeTitle : option string)
  : outcome string :=
  searchQuery <~ encodeURIComponent
                   (podcastName ++ " " ++ string_text episodeTitle)%string ;;
  Ok ("https://podcasts.apple.com/search?term=" ++ searchQuery)%string.

(** [formatDuration(seconds)] on the column [duration_seconds], a number or
    [null]. *)
Definition formatDuration (seconds : option number) : string :=
  match seconds with
  | None => "Unknown duration"
  | Some x =>
      if negb (number_truthy x) then "Unknown duration"
      else
        let hours := Math_floor (x / 3600)%float in
        let mins := Math_floor (remainder x 3600 / 60)%float in
        if (0 <? hours)%float
        then (number_text hours ++ "h " ++ number_text mins ++ "m")%string
        else (number_text mins ++ "m")%string
  end.

(** The number an arithmetic operator makes of a stored JSON value or
    [null]: [null] is 0, a boolean 1 or 0, a string what [Number] reads in
    it, an array or an object what [Number] reads in its text. *)
Definition to_number (v : option json) : outcome number :=
  match v with
  | None => Ok 0%float
  | Some JNull => Ok 0%float
  | Some (JBool b) => Ok (if b then 1%float else 0%float)
  | Some (JNum x) => Ok x
  | Some (JStr s) => Ok (Number s)
  | Some v' => s <~ to_text v' ;; Ok (Number s)
  end.

(** [s.padStart(2, '0')] *)
Definition padStart2 (s : string) : string :=
  match String.length s with
  | 0%nat => "00"
  | 1%nat => ("0" ++ s)%string
  | _ => s
  end.

(** [formatTime(seconds)] on the column [timestamp_start]. *)
Definition formatTime (seconds : option json) : outcome string :=
  x <~ to_number seconds ;;
  let hours := Math_floor (x / 3600)%float in
  let mins := Math_floor (remainder x 3600 / 60)%float in
  let secs := remainder x 60%float in
  if (0 <? hours)%float
  then Ok (number_text hours ++ ":" ++ padStart2 (number_text mins) ++ ":"
           ++ padStart2 (number_text secs))%string
  else Ok (number_text mins ++ ":" ++ padStart2 (number_text secs))%string.

(** [summary]: the parsed [ai_summary], or [{}] when it is not JSON. *)
Definition summary_of (episode : Digest.t) : json :=
  match parse (or_empty_object
                 (Episode.ai_summary (Digest.episode episode))) with
  | Ok v => v
  | Throw _ => JObj []
  end.

(** [podcast.name] *)
Definition name_of (podcast : option string) : outcome string :=
  match podcast with
  | Some name => Ok name
  | None => Throw "TypeError: Cannot read properties of null (reading 'name')"
  end.

(** [flag.interest_topics.topic] *)
Definition topic_of (interest_topics : option string) : outcome string :=
  match interest_topics with
  | Some topic => Ok topic
  | None => Throw "TypeError: Cannot read properties of null (reading 'topic')"
  end.

(** [if (summary.summary_paragraphs) summary.summary_paragraphs.forEach(...)] *)
Definition paragraphs (summary : json) : outcome (list piece) :=
  listed <~ get_prop summary "summary_paragraphs" ;;
  if value_truthy listed then
    match listed with
    | Some (JArr l) =>
        each (fun para => text <~ to_text para ;; Ok (Paragraph text)) l
    | _ =>
        Throw "TypeError: summary.summary_paragraphs.forEach is not a function"
    end
  else Ok [].

(** The callback of [flags.forEach]. *)
Definition flag_block (applePodcastsUrl : string)
                      (flag : Flag.t * option string) : outcome piece :=
  start <~ value_text (Flag.timestamp_start (fst flag)) ;;
  let timestampUrl := (applePodcastsUrl ++ "&t=" ++ start)%string in
  topic <~ topic_of (snd flag) ;;
  time <~ formatTime (Flag.timestamp_start (fst flag)) ;;
  analysis <~ value_text (Flag.analysis (fst flag)) ;;
  Ok (FlagBlock topic timestampUrl time analysis).

Definition generateEpisodeHTML (episode : Digest.t) (isPriority : bool)
  : outcome (list piece) :=
  let podcast := Digest.podcasts episode in
  let flags := Digest.topic_flags episode in
  let summary := summary_of episode in
  name <~ name_of podcast ;;
  applePodcastsUrl <~
    generateApplePodcastsUrl name (Episode.title (Digest.episode episode)) ;;
  guest <~ get_prop summary "guest" ;;
  guest_text <~ (if value_truthy guest then value_text guest
                 else Ok "Unknown") ;;
  let opening :=
    Opening isPriority
            (string_text (Episode.title (Digest.episode episode)))
            name guest_text
            (formatDuration (Episode.duration_seconds (Digest.episode episode)))
            (toLocaleString (Episode.published_at (Digest.episode episode)))
            applePodcastsUrl in
  paras <~ paragraphs summary ;;
  blocks <~ (if (0 <? List.length flags)%nat
             then bs <~ each (flag_block applePodcastsUrl) flags ;;
                  Ok (FlagsHeading :: bs)
             else Ok []) ;;
  Ok (opening :: paras ++ [SummaryEnd] ++ blocks ++ [Closing]).

(** The text of the block, and the service's page as [Templates]. *)
Definition html (episode : Digest.t) (isPriority : bool) : outcome string :=
  pieces <~ generateEpisodeHTML episode isPriority ;;
  Ok (String.concat "" (map markup pieces)).

Definition templates : Templates := Build_Templates page_header html.

(** What [summary.summary_paragraphs] must not be: a truthy value that is
    not an array. *)
Definition not_a_list (summary : json) : Prop :=
  exists v, get_prop summary "summary_paragraphs" = Ok (Some v) /\
            json_truthy v = true /\ forall l, v <> JArr l.

End Block.
End Page.

(** ** A runtime to run the service on

    The examples and the concrete runs below need the runtime's functions
    at concrete strings.  [Sample] implements them on the fragment the
    examples use: JSON without string escapes and with integer numbers,
    timestamps in the format [toISOString] prints, ASCII letter case, and
    unsigned decimal literals for [Number]. *)

Module Sample.

Definition dquote : ascii := ascii_of_nat 34.
Definition quoted (s : string) : string :=
  String dquote (s ++ String dquote EmptyString)%string.

Definition is_digit (c : ascii) : bool :=
  let n := nat_of_ascii c in (48 <=? n)%nat && (n <=? 57)%nat.

Definition digit (c : ascii) : Z := Z.of_nat (nat_of_ascii c) - 48.

Definition is_space (c : ascii) : bool :=
  let n := nat_of_ascii c in
  Nat.eqb n 32 || Nat.eqb n 9 || Nat.eqb n 10 || Nat.eqb n 13.

Fixpoint skip_space (s : list ascii) : list ascii :=
  match s with
  | c :: rest => if is_space c then skip_space rest else s
  | [] => []
  end.

(** The digits [s] starts with, as a number, and what follows them. *)
Fixpoint digits (s : list ascii) (acc : Z) : Z * list ascii :=
  match s with
  | c :: rest => if is_digit c then digits rest (10 * acc + digit c) else (acc, s)
  | [] => (acc, [])
  end.

Definition all_digits (s : string) : bool :=
  forallb is_digit (list_ascii_of_string s).

Definition float_of_Z (z : Z) : number :=
  if (z <? 0)%Z then (- PrimFloat.of_uint63 (Uint63.of_Z (- z)))%float
  else PrimFloat.of_uint63 (Uint63.of_Z z).

(** The integer a double denotes, when it denotes one. *)
Definition Z_of_float (x : number) : option Z :=
  match FloatOps.Prim2SF x with
  | SpecFloat.S754_zero _ => Some 0%Z
  | SpecFloat.S754_finite s m e =>
      let v := if (0 <=? e)%Z then Some (Z.pos m * 2 ^ e)%Z
               else if (Z.pos m mod 2 ^ (- e) =? 0)%Z
                    then Some (Z.pos m / 2 ^ (- e))%Z else None in
      match v with
      | Some z => Some (if s then (- z)%Z else z)
      | None => None
      end
  | _ => None
  end.

Definition decimal (z : Z) : string :=
  NilZero.string_of_int (Z.to_int z).

(** [Number(s)] on the empty string and on unsigned decimal literals. *)
Definition Number (s : string) : number :=
  if all_digits s then float_of_Z (fst (digits (list_ascii_of_string s) 0))
  else PrimFloat.nan.

(** *** Timestamps: [YYYY-MM-DDTHH:MM:SS.sssZ] *)

Definition days_from_civil (y m d : Z) : Z :=
  let y' := if (m <=? 2)%Z then (y - 1)%Z else y in
  let era := (y' / 400)%Z in
  let yoe := (y' - era * 400)%Z in
  let mp := if (2 <? m)%Z then (m - 3)%Z else (m + 9)%Z in
  let doy := ((153 * mp + 2) / 5 + d - 1)%Z in
  let doe := (yoe * 365 + yoe / 4 - yoe / 100 + doy)%Z in
  (era * 146097 + doe - 719468)%Z.

Definition leap (y : Z) : bool :=
  ((y mod 4 =? 0) && negb (y mod 100 =? 0) || (y mod 400 =? 0))%Z.

Definition days_in_month (y m : Z) : Z :=
  if (m =? 2)%Z then (if leap y then 29 else 28)%Z
  else if ((m =? 4) || (m =? 6) || (m =? 9) || (m =? 11))%Z then 30%Z
  else 31%Z.

(** Exactly [n] digits, then the separator [sep]. *)
Fixpoint field (n : nat) (sep : option ascii) (s : list ascii) (acc : Z)
  : option (Z * list ascii) :=
  match n with
  | O =>
      match sep, s with
      | None, _ => Some (acc, s)
      | Some c, c' :: rest => if Ascii.eqb c c' then Some (acc, rest) else None
      | Some _, [] => None
      end
  | S n' =>
      match s with
      | c :: rest =>
          if is_digit c then field n' sep rest (10 * acc + digit c) else None
      | [] => None
      end
  end.

Definition Date_parse (s : string) : option Z :=
  match field 4 (Some "-"%char) (list_ascii_of_string s) 0 with
  | Some (y, s1) =>
  match field 2 (Some "-"%char) s1 0 with
  | Some (mo, s2) =>
  match field 2 (Some "T"%char) s2 0 with
  | Some (d, s3) =>
  match field 2 (Some ":"%char) s3 0 with
  | Some (h, s4) =>
  match field 2 (Some ":"%char) s4 0 with
  | Some (mi, s5) =>
  match field 2 (Some "."%char) s5 0 with
  | Some (sec, s6) =>
  match field 3 (Some "Z"%char) s6 0 with
  | Some (ms, []) =>
      if ((1 <=? mo) && (mo <=? 12) && (1 <=? d) && (d <=? days_in_month y mo)
          && (h <=? 23) && (mi <=? 59) && (sec <=? 59))%Z
      then Some ((((days_from_civil y mo d * 24 + h) * 60 + mi) * 60 + sec)
                 * 1000 + ms)%Z
      else None
  | _ => None end
  | None => None end
  | None => None end
  | None => None end
  | None => None end
  | None => None end
  | None => None end.

(** *** Letter case *)

Definition lower (c : ascii) : ascii :=
  let n := nat_of_ascii c in
  if (65 <=? n)%nat && (n <=? 90)%nat then ascii_of_nat (n + 32) else c.

Fixpoint toLowerCase (s : string) : string :=
  match s with
  | EmptyString => EmptyString
  | String c rest => String (lower c) (toLowerCase rest)
  end.

(** *** JSON *)

Fixpoint strip (prefix : list ascii) (s : list ascii) : option (list ascii) :=
  match prefix, s with
  | [], _ => Some s
  | p :: ps, c :: rest => if Ascii.eqb p c then strip ps rest else None
  | _ :: _, [] => None
  end.

(** The characters up to the closing quote; escapes are not handled. *)
Fixpoint string_body (s : list ascii) : option (string * list ascii) :=
  match s with
  | [] => None
  | c :: rest =>
      if Ascii.eqb c dquote then Some (EmptyString, rest)
      else if Ascii.eqb c "\"%char then None
      else match string_body rest with
           | Some (body, rest') => Some (String c body, rest')
           | None => None
           end
  end.

Definition keyword (word : string) (v : json) (s : list ascii)
  : option (json * list ascii) :=
  match strip (list_ascii_of_string word) s with
  | Some rest => Some (v, rest)
  | None => None
  end.

Fixpoint value (fuel : nat) (s : list ascii) : option (json * list ascii) :=
  match fuel with
  | O => None
  | S fuel' =>
      match skip_space s with
      | [] => None
      | c :: rest =>
          if Ascii.eqb c dquote then
            match string_body rest with
            | Some (body, rest') => Some (JStr body, rest')
            | None => None
            end
          else if Ascii.eqb c "["%char then
            match skip_space rest with
            | c' :: rest' =>
                if Ascii.eqb c' "]"%char then Some (JArr [], rest')
                else elements fuel' rest []
            | [] => None
            end
          else if Ascii.eqb c "{"%char then
            match skip_space rest with
            | c' :: rest' =>
                if Ascii.eqb c' "}"%char then Some (JObj [], rest')
                else members fuel' rest []
            | [] => None
            end
          else if is_digit c then
            let (n, rest') := digits (c :: rest) 0 in
            Some (JNum (float_of_Z n), rest')
          else if Ascii.eqb c "-"%char then
            match rest with
            | c' :: _ =>
                if is_digit c' then
                  let (n, rest') := digits rest 0 in
                  Some (JNum (float_of_Z (- n)), rest')
                else None
            | [] => None
            end
          else if Ascii.eqb c "t"%char then keyword "true" (JBool true) (c :: rest)
          else if Ascii.eqb c "f"%char then keyword "false" (JBool false) (c :: rest)
          else if Ascii.eqb c "n"%char then keyword "null" JNull (c :: rest)
          else None
      end
  end
with elements (fuel : nat) (s : list ascii) (acc : list json)
  : option (json * list ascii) :=
  match fuel with
  | O => None
  | S fuel' =>
      match value fuel' s with
      | Some (v, rest) =>
          match skip_space rest with
          | c :: rest' =>
              if Ascii.eqb c ","%char then elements fuel' rest' (acc ++ [v])
              else if Ascii.eqb c "]"%char then Some (JArr (acc ++ [v]), rest')
              else None
          | [] => None
          end
      | None => None
      end
  end
with members (fuel : nat) (s : list ascii) (acc : list (string * json))
  : option (json * list ascii) :=
  match fuel with
  | O => None
  | S fuel' =>
      match skip_space s with
      | q :: rest =>
          if Ascii.eqb q dquote then
            match string_body rest with
            | Some (key, rest1) =>
                match skip_space rest1 with
                | c :: rest2 =>
                    if Ascii.eqb c ":"%char then
                      match value fuel' rest2 with
                      | Some (v, rest3) =>
                          let acc' := remove_field key acc ++ [(key, v)] in
                          match skip_space rest3 with
                          | c' :: rest4 =>
                              if Ascii.eqb c' ","%char then members fuel' rest4 acc'
                              else if Ascii.eqb c' "}"%char
                                   then Some (JObj acc', rest4)
                                   else None
                          | [] => None
                          end
                      | None => None
                      end
                    else None
                | [] => None
                end
            | None => None
            end
          else None
      | [] => None
      end
  end.

Definition JSON_parse (s : string) : option json :=
  let input := list_ascii_of_string s in
  match value (S (List.length input)) input with
  | Some (v, rest) =>
      match skip_space rest with
      | [] => Some v
      | _ :: _ => None
      end
  | None => None
  end.

Definition join (sep : string) (l : list string) : string :=
  String.concat sep l.

Fixpoint JSON_stringify (v : json) : string :=
  match v with
  | JNull => "null"
  | JBool true => "true"
  | JBool false => "false"
  | JNum x => match Z_of_float x with Some z => decimal z | None => "null" end
  | JStr s => quoted s
  | JArr l => ("[" ++ join "," (map JSON_stringify l) ++ "]")%string
  | JObj fields =>
      ("{" ++ join ","
                (map (fun kv : string * json => let (k, v') := kv in
                                (quoted k ++ ":" ++ JSON_stringify v')%string)
                     fields)
           ++ "}")%string
  end.

Definition runtime : Runtime :=
  Build_Runtime Number Date_parse toLowerCase JSON_parse JSON_stringify eq_refl.

(** The block of an episode, reduced to its title and its class. *)
Definition episode_html (ep : Digest.t) (isPriority : bool) : outcome string :=
  match Digest.podcasts ep with
  | None => Throw "TypeError: Cannot read properties of null"
  | Some podcast =>
      Ok ((if isPriority then "<div class=priority>" else "<div>")
          ++ match Episode.title (Digest.episode ep) with
             | Some title => title
             | None => "null"
             end
          ++ "</div>")%string
  end.

Definition templates : Templates :=
  Build_Templates (fun _ => "<html><body>") episode_html.

End Sample.


(** A formatting to run the page on: ASCII and UTF-8 text. *)
Module Press.
Import Sample Page.

(** [String(v)] *)
Fixpoint to_text (v : json) : outcome string :=
  match v with
  | JNull => Ok "null"
  | JBool true => Ok "true"
  | JBool false => Ok "false"
  | JNum x => Ok (number_text x)
  | JStr s => Ok s
  | JArr l =>
      Ok (join ","
            (map (fun v' => match v' with
                            | JNull => ""
                            | _ => match to_text v' with
                                   | Ok s => s
                                   | Throw _ => ""
                                   end
                            end) l))
  | JObj fields =>
      match lookup "toString" fields with
      | Some _ => Throw "TypeError: Cannot convert object to primitive value"
      | None => Ok "[object Object]"
      end
  end.

Definition hex (n : nat) : ascii :=
  if (n <? 10)%nat then ascii_of_nat (48 + n) else ascii_of_nat (55 + n).

Definition unreserved (c : ascii) : bool :=
  let n := nat_of_ascii c in
  ((48 <=? n) && (n <=? 57) || (65 <=? n) && (n <=? 90)
   || (97 <=? n) && (n <=? 122))%nat
  || existsb (Ascii.eqb c) (list_ascii_of_string "-_.!~*'()").

(** Every byte of the UTF-8 text that is not unreserved is escaped. *)
Fixpoint escape (s : string) : string :=
  match s with
  | EmptyString => EmptyString
  | String c rest =>
      if unreserved c then String c (escape rest)
      else let n := nat_of_ascii c in
           String "%" (String (hex (n / 16))
                         (String (hex (n mod 16)) (escape rest)))
  end.

Definition markup (p : piece) : string :=
  match p with
  | Opening isPriority title podcast guest duration published url =>
      ((if isPriority then "<div class=priority>" else "<div>")
       ++ "<h3>" ++ title ++ "</h3><p>" ++ podcast ++ " - " ++ guest ++ " - "
       ++ duration ++ "</p><small>" ++ published ++ "</small><a href="
       ++ url ++ ">Open</a><div>")%string
  | Paragraph para => ("<p>" ++ para ++ "</p>")%string
  | SummaryEnd => "</div>"
  | FlagsHeading => "<h4>Flagged Topics</h4>"
  | FlagBlock topic timestampUrl time analysis =>
      ("<div><span>" ++ topic ++ "</span><a href=" ++ timestampUrl ++ ">"
       ++ time ++ "</a><p>" ++ analysis ++ "</p></div>")%string
  | Closing => "</div>"
  end.

Definition formatting : Formatting :=
  Build_Formatting to_text (fun s => Ok (escape s)) decimal
                   (fun _ => "<html><body>") markup.

End Press.

(** ** Observing a run *)

(** The calls to the collaborators, without the console lines. *)
Fixpoint calls (trace : list event) : list call :=
  match trace with
  | [] => []
  | Call c :: rest => c :: calls rest
  | Console _ :: rest => calls rest
  end.

(** The feeds fetched, in order. *)
Fixpoint fetches (trace : list event) : list string :=
  match trace with
  | [] => []
  | Call (ParseURL url) :: rest => url :: fetches rest
  | _ :: rest => fetches rest
  end.

(** The episodes whose insertion was requested, in order. *)
Fixpoint inserts (trace : list event) : list EpisodeData.t :=
  match trace with
  | [] => []
  | Call (InsertEpisode d) :: rest => d :: inserts rest
  | _ :: rest => inserts rest
  end.

(** The mails handed to the relay. *)
Fixpoint mails (trace : list event) : list (string * string) :=
  match trace with
  | [] => []
  | Call (SendMail to html) :: rest => (to, html) :: mails rest
  | _ :: rest => mails rest
  end.

(** Two worlds with the same database. *)
Definition same_tables (w w' : World) : Prop :=
  next_id w = next_id w' /\ podcasts w = podcasts w' /\
  episodes w = episodes w' /\ interest_topics w = interest_topics w' /\
  topic_flags w = topic_flags w' /\ user_settings w = user_settings w'.

(** The blocks of a digest page, each with the heading it stands under
    ([None] before the first heading) and the [isPriority] it was
    rendered with. *)
Fixpoint placed (heading : option bool) (fragments : list fragment)
  : list (option bool * obj Digest.t * bool) :=
  match fragments with
  | [] => []
  | Heading h :: rest => placed (Some h) rest
  | Block ep isPriority :: rest => (heading, ep, isPriority) :: placed heading rest
  | _ :: rest => placed heading rest
  end.

(** An array in which one address holds one object. *)
Definition well_addressed {A} (l : list (obj A)) : Prop :=
  forall x y, In x l -> In y l -> addr x = addr y -> val x = val y.

(** The stages of the annotation pipeline, and the stage each call to a
    collaborator belongs to by the function that makes it:
    [transcribeAudio] fetches the audio and transcribes it (removing its
    temporary file), [generateEnhancedSummary] summarises,
    [flagInterestTopics] reads the topics, asks for the flags and may mark
    the episode, and the two writes that end [processEpisodeAI] persist. *)
Inductive stage : Type :=
| FetchAudio
| Transcribe
| Summarize
| FlagTopics
| Persist.

Definition stage_of (c : call) : option stage :=
  match c with
  | DownloadAudio _ => Some FetchAudio
  | Transcription | UnlinkTemp => Some Transcribe
  | SummaryCompletion _ => Some Summarize
  | SelectActiveTopics | FlagCompletion _ | UpdateAiSummary _ _ => Some FlagTopics
  | UpdateEpisodeAI _ _ _ | InsertTopicFlags _ => Some Persist
  | _ => None
  end.

Definition stage_rank (s : option stage) : nat :=
  match s with
  | None => 0
  | Some FetchAudio => 1
  | Some Transcribe => 2
  | Some Summarize => 3
  | Some FlagTopics => 4
  | Some Persist => 5
  end.

(** The place of a call in the pipeline; [0] for a call made elsewhere. *)
Definition step (c : call) : nat :=
  match c with
  | DownloadAudio _ => 1
  | Transcription => 2
  | UnlinkTemp => 3
  | SummaryCompletion _ => 4
  | SelectActiveTopics => 5
  | FlagCompletion _ => 6
  | UpdateAiSummary _ _ => 7
  | UpdateEpisodeAI _ _ _ => 8
  | InsertTopicFlags _ => 9
  | _ => 0
  end.

(** Calls in strictly increasing pipeline order, all from [lo] and below
    [hi]. *)
Definition ordered (lo hi : nat) (l : list call) : Prop :=
  StronglySorted lt (map step l) /\ Forall (fun c => lo <= step c < hi) l.

(** A computation whose calls are so ordered, in every world. *)
Definition phase {A} (lo hi : nat) (m : M A) : Prop :=
  forall w, ordered lo hi (calls (emitted (m w))).

(** The episode an item is inserted as. *)
Definition data_of {RT : Runtime} (podcast : Podcast.t) (item : Item.t) : EpisodeData.t :=
  episodeData podcast item
    match publishDate item with Some t => t | None => 0%Z end.

(** The runs of [processPodcastFeed] that a feed check consists of: each
    starts in the world the previous one and the pause after it left. *)
Fixpoint feed_runs {RT : Runtime} {TP : Templates} (sv : Services)
         (podcasts : list Podcast.t) (w : World) : list (Run unit) :=
  match podcasts with
  | [] => []
  | podcast :: rest =>
      let r := processPodcastFeed sv podcast w in
      r :: feed_runs sv rest (tock (final r))
  end.
(** The world in which the pipeline of a freshly inserted episode starts. *)
Definition inserted (d : EpisodeData.t) (w : World) : World :=
  tock (with_next_id (next_id w + 1)
          (with_episodes (episodes w ++ [new_row (next_id w) d]) w)).

(** Most recent first. *)
Definition newer_first (a b : Episode.t) : Prop :=
  (Episode.published_at b <= Episode.published_at a)%Z.

(** The address the digest is mailed to: the [email] of the single row of
    [user_settings], when the database answers and the value is truthy. *)
Definition digest_recipient (sv : Services) (w : World) : option string :=
  match db_fault sv (tick w) with
  | Some _ => None
  | None =>
      match user_settings w with
      | [s] => truthy_string (Settings.email s)
      | _ => None
      end
  end.

(** The rows the digest query returns, none when the database reports a
    fault. *)
Definition digest_selection (sv : Services) (w : World) : list Digest.t :=
  match db_fault sv (S (tick w)) with
  | Some _ => []
  | None => digest_rows (clock sv (S (tick w)) - 24 * 60 * 60 * 1000) w
  end.
(** A computation that calls no collaborator. *)
Definition silent {A} (m : M A) : Prop := forall w, calls (emitted (m w)) = [].

(** Strings without the separator. *)
Fixpoint free_of (sep : ascii) (s : string) : bool :=
  match s with
  | EmptyString => true
  | String c rest => negb (Ascii.eqb c sep) && free_of sep rest
  end.

(** An [ai_summary] that is missing, empty or not JSON. *)
Definition no_summary {RT : Runtime} (ep : Digest.t) : Prop :=
  Episode.ai_summary (Digest.episode ep) = None \/
  Episode.ai_summary (Digest.episode ep) = Some "" \/
  exists s, Episode.ai_summary (Digest.episode ep) = Some s /\ JSON_parse s = None.

(** *** What a run may change *)

(** A relation between the world before and the world after that every
    step of a computation keeps. *)
Definition keeps (R : World -> World -> Prop) {A} (m : M A) : Prop :=
  forall w, R w (final (m w)).

(** What makes a relation fit for that: it holds of a world and itself,
    composes, and ignores the count of interactions. *)
Record frame (R : World -> World -> Prop) : Prop := mkFrame {
  frame_refl : forall w, R w w;
  frame_trans : forall a b c, R a b -> R b c -> R a c;
  frame_tock : forall w, R w (tock w)
}.

(** The columns of an episode that no update of the service writes, and
    [processed], which is only ever set. *)
Definition same_episode (e e' : Episode.t) : Prop :=
  Episode.id e' = Episode.id e /\
  Episode.podcast_id e' = Episode.podcast_id e /\
  Episode.title e' = Episode.title e /\
  Episode.description e' = Episode.description e /\
  Episode.audio_url e' = Episode.audio_url e /\
  Episode.published_at e' = Episode.published_at e /\
  Episode.duration_seconds e' = Episode.duration_seconds e /\
  (Episode.processed e = true -> Episode.processed e' = true).

(** What the pipeline of the episode [id] may change: the transcript, the
    summary and the processed mark of the rows with that id, and the flags,
    by appending. *)
Definition pipeline_frame (id : Z) (w w' : World) : Prop :=
  next_id w' = next_id w /\ podcasts w' = podcasts w /\
  interest_topics w' = interest_topics w /\
  user_settings w' = user_settings w /\
  Forall2 (fun e e' => same_episode e e' /\ (Episode.id e <> id -> e' = e))
          (episodes w) (episodes w') /\
  exists added, topic_flags w' = topic_flags w ++ added.

(** The columns of a podcast other than [last_checked]. *)
Definition same_podcast (p p' : Podcast.t) : Prop :=
  Podcast.id p' = Podcast.id p /\ Podcast.name p' = Podcast.name p /\
  Podcast.rss_url p' = Podcast.rss_url p /\
  Podcast.is_active p' = Podcast.is_active p.

(** What a feed check may change. *)
Definition feed_frame (w w' : World) : Prop :=
  interest_topics w' = interest_topics w /\
  user_settings w' = user_settings w /\
  Forall2 same_podcast (podcasts w) (podcasts w') /\
  (exists kept added,
      episodes w' = kept ++ added /\ Forall2 same_episode (episodes w) kept) /\
  exists added, topic_flags w' = topic_flags w ++ added.

(** ** Data for concrete runs *)

Module Scenario.
Import Sample.

#[local] Existing Instance Sample.runtime.
#[local] Existing Instance Sample.templates.

(** 2026-01-05T10:00:00.000Z *)
Definition morning : Z := 1767607200000.
Definition hour : Z := 3600000.

(** Collaborators that always succeed; every interaction takes a second,
    feeds are empty, the transcript is one sentence and the model answers
    with an empty object. *)
Definition steady : Services :=
  mkServices (fun n => morning + 1000 * Z.of_nat n)%Z
             (fun _ => None)
             (fun _ _ => Ok [])
             (fun _ _ => None)
             (fun _ => Ok (Some "Welcome to the show."))
             (fun _ => None)
             (fun _ => Ok "{}")
             (fun _ => None).

(** Collaborators that always fail. *)
Definition failing : Services :=
  mkServices (clock steady)
             (fun _ => Some "connection refused")
             (fun _ _ => Throw "ENOTFOUND")
             (fun _ _ => Some "timeout of 300000ms exceeded")
             (fun _ => Throw "Request failed with status code 401")
             (fun _ => Some "EACCES")
             (fun _ => Throw "Request failed with status code 529")
             (fun _ => Some "ECONNREFUSED").

(** A podcast that was never checked, and its feed: an item without any
    date and an item two hours old. *)
Definition show : Podcast.t :=
  Podcast.mk 1 "The Show" "https://example.org/feed.xml" true None.

Definition undated : Item.t :=
  Item.mk (Some "Undated") None None (Some "https://example.org/0.mp3")
          None None None None.

Definition dated : Item.t :=
  Item.mk (Some "Dated") None None (Some "https://example.org/1.mp3")
          None (Some "2026-01-05T08:00:00.000Z") (Some "2026-01-05T08:00:00.000Z")
          (Some "1:02:03").

Definition feed : list Item.t := [undated; dated].

Definition reader : Services :=
  mkServices (clock steady) (db_fault steady) (fun _ _ => Ok feed)
             (http_get steady) (whisper steady) (fs_unlink steady)
             (llm steady) (smtp steady).

Definition start : World := mkWorld 0 1 [show] [] [] [] [].

(** The summary and the flags a model may answer with, and the marking
    [flagInterestTopics] derives from the flags. *)
Definition summary_text : string :=
  "{" ++ quoted "guest" ++ ":" ++ quoted "Ada" ++ "}".

Definition flags_text : string :=
  "{" ++ quoted "priority_episode" ++ ":true,"
      ++ quoted "priority_topics" ++ ":[" ++ quoted "AI" ++ "],"
      ++ quoted "topic_flags" ++ ":[{"
      ++ quoted "topic" ++ ":" ++ quoted "ai" ++ ","
      ++ quoted "timestamp_start" ++ ":60,"
      ++ quoted "timestamp_end" ++ ":120,"
      ++ quoted "snippet" ++ ":" ++ quoted "on models" ++ ","
      ++ quoted "analysis" ++ ":" ++ quoted "a long discussion" ++ ","
      ++ quoted "relevance_score" ++ ":1}]}".

Definition marking_text : string :=
  "{" ++ quoted "priority_episode" ++ ":true,"
      ++ quoted "priority_topics" ++ ":[" ++ quoted "AI" ++ "]}".

(** The fourth interaction of the pipeline is the summary request, the
    sixth the flagging request. *)
Definition analyst : Services :=
  mkServices (clock steady) (db_fault steady) (rss steady) (http_get steady)
             (whisper steady) (fs_unlink steady)
             (fun n => if Nat.eqb n 3 then Ok summary_text else Ok flags_text)
             (smtp steady).

(** Collaborators of which only the transcription, or only the model,
    fails. *)
Definition mute : Services :=
  mkServices (clock steady) (db_fault steady) (rss steady) (http_get steady)
             (whisper failing) (fs_unlink steady) (llm steady) (smtp steady).

Definition speechless : Services :=
  mkServices (clock steady) (db_fault steady) (rss steady) (http_get steady)
             (whisper steady) (fs_unlink steady) (llm failing) (smtp steady).

(** Collaborators of which only the database fails, and a model that does
    not answer in JSON. *)
Definition offline : Services :=
  mkServices (clock steady) (db_fault failing) (rss steady) (http_get steady)
             (whisper steady) (fs_unlink steady) (llm steady) (smtp steady).

Definition chatty : Services :=
  mkServices (clock steady) (db_fault steady) (rss steady) (http_get steady)
             (whisper steady) (fs_unlink steady)
             (fun _ => Ok "Here is the analysis you asked for.")
             (smtp steady).

(** An episode just inserted, in a database with one interest topic. *)
Definition fresh : Episode.t :=
  Episode.mk 1 1 (Some "Dated") None (Some "https://example.org/1.mp3")
             (morning - 2 * hour) (Some 3723%float) false None None.

Definition listening : World :=
  mkWorld 0 2 [show] [fresh] [Topic.mk 1 "AI" true] [] [].

(** Two processed episodes of the last day, the older one marked as a
    priority episode and the newer one not. *)
Definition priority_text : string := "{" ++ quoted "priority_episode" ++ ":true}".

Definition newer : Episode.t :=
  Episode.mk 1 1 (Some "Newer") None (Some "https://example.org/2.mp3")
             (morning - hour) None true (Some "Hello.") (Some summary_text).

Definition older : Episode.t :=
  Episode.mk 2 1 (Some "Older") None (Some "https://example.org/1.mp3")
             (morning - 5 * hour) None true (Some "Hello.") (Some priority_text).

Definition listener : string := "listener@example.org".

(** The two episodes, and the page mailed for them. *)
Definition workday : World :=
  mkWorld 0 3 [show] [older; newer] [Topic.mk 1 "AI" true] []
          [Settings.mk (Some listener)].

(** The same database without a recipient, and without episodes. *)
Definition unconfigured : World :=
  mkWorld 0 3 [show] [older; newer] [Topic.mk 1 "AI" true] [] [].

Definition quiet : World :=
  mkWorld 0 1 [show] [] [] [] [Settings.mk (Some listener)].

Definition workday_text : string :=
  "<html><body>"
  ++ "<h2>🚨 Priority Episodes (Extensive Coverage of Your Interests)</h2>"
  ++ "<div class=priority>Older</div>"
  ++ "<h2>📰 Recent Episodes</h2>"
  ++ "<div>Newer</div>"
  ++ "</body></html>".

End Scenario.


(** Data for the runs of the page and of the second check. *)
Module Cases.
Import Sample Scenario Page.

#[local] Existing Instance Sample.runtime.
#[local] Existing Instance Press.formatting.

(** A processed episode of one hour ago with a summary of two paragraphs,
    and a flag on it for the topic of [workday]. *)
Definition annotated_text : string :=
  "{" ++ quoted "guest" ++ ":" ++ quoted "Ada" ++ ","
      ++ quoted "summary_paragraphs" ++ ":[" ++ quoted "One." ++ ","
      ++ quoted "Two." ++ "]}".

Definition annotated : Episode.t :=
  Episode.mk 4 1 (Some "Annotated") None (Some "https://example.org/4.mp3")
             (morning - hour) (Some 3723%float) true (Some "Hello.")
             (Some annotated_text).

Definition flagged : Flag.t :=
  Flag.mk 4 1 (Some (JNum 60%float)) (Some (JNum 120%float))
          (Some (JStr "on models")) (Some (JStr "a long discussion"))
          (Some (JNum 1%float)).

Definition library : World :=
  mkWorld 0 5 [show] [annotated] [Topic.mk 1 "AI" true] [flagged]
          [Settings.mk (Some listener)].

Definition annotated_url : string :=
  "https://podcasts.apple.com/search?term=The%20Show%20Annotated".

Definition annotated_block : list piece :=
  [Opening false "Annotated" "The Show" "Ada" "1h 2m" "1767603600000"
           annotated_url;
   Paragraph "One."; Paragraph "Two."; SummaryEnd; FlagsHeading;
   FlagBlock "AI" (annotated_url ++ "&t=60") "1:00" "a long discussion";
   Closing].

(** The same library after the topic was deleted, and one whose episode
    belongs to no podcast. *)
Definition untopiced : World :=
  mkWorld 0 5 [show] [annotated] [] [flagged] [Settings.mk (Some listener)].

Definition stray : Episode.t :=
  Episode.mk 5 7 (Some "Stray") None None (morning - hour) None true
             (Some "Hello.") (Some summary_text).

Definition orphaned : World :=
  mkWorld 0 6 [show] [annotated; stray] [Topic.mk 1 "AI" true] [flagged]
          [Settings.mk (Some listener)].

(** An item without audio, an item dated a day ahead, and a feed that
    holds the latter. *)
Definition notes : Item.t :=
  Item.mk (Some "Notes") (Some "Show notes.") None None
          (Some "https://example.org/notes.html")
          (Some "2026-01-05T08:00:00.000Z") None None.

Definition scheduled : Item.t :=
  Item.mk (Some "Scheduled") None None (Some "https://example.org/5.mp3")
          None (Some "2026-01-06T08:00:00.000Z") None None.

Definition planner : Services :=
  mkServices (clock steady) (db_fault steady) (fun _ _ => Ok [dated; scheduled])
             (http_get steady) (whisper steady) (fs_unlink steady)
             (llm steady) (smtp steady).

(** The row of [show] after a check at the time [t]. *)
Definition checked (t : Z) : Podcast.t :=
  Podcast.mk 1 "The Show" "https://example.org/feed.xml" true (Some t).

(** An answer of the model whose second flag has a number for a topic. *)
Definition garbled_text : string :=
  "{" ++ quoted "topic_flags" ++ ":[{" ++ quoted "topic" ++ ":" ++ quoted "ai"
      ++ "},{" ++ quoted "topic" ++ ":5}]}".

Definition garbler : Services :=
  mkServices (clock steady) (db_fault steady) (rss steady) (http_get steady)
             (whisper steady) (fs_unlink steady) (fun _ => Ok garbled_text)
             (smtp steady).

(** The answer [flags_text] of the model, parsed. *)
Definition flag_answer : json :=
  JObj [("topic", JStr "ai"); ("timestamp_start", JNum 60%float);
        ("timestamp_end", JNum 120%float); ("snippet", JStr "on models");
        ("analysis", JStr "a long discussion");
        ("relevance_score", JNum 1%float)].

Definition flags_answer : json :=
  JObj [("priority_episode", JBool true);
        ("priority_topics", JArr [JStr "AI"]);
        ("topic_flags", JArr [flag_answer])].

End Cases.

(** ** Properties *)

(** *** Laws of the monad *)

Section Laws.
Context {A B : Type}.
Variables (m : M A) (k : A -> M B) (h : error -> M A).

Lemma result_bind w :
  result (bind m k w) =
  match result (m w) with
  | Ok a => result (k a (final (m w)))
  | Throw e => Throw e
  end.
Proof.
  unfold bind. destruct (m w) as [[a|e] w1 out1]; simpl; [|reflexivity].
  now destruct (k a w1).
Qed.

Lemma final_bind w :
  final (bind m k w) =
  match result (m w) with
  | Ok a => final (k a (final (m w)))
  | Throw _ => final (m w)
  end.
Proof.
  unfold bind. destruct (m w) as [[a|e] w1 out1]; simpl; [|reflexivity].
  now destruct (k a w1).
Qed.

Lemma emitted_bind w :
  emitted (bind m k w) =
  emitted (m w) ++
  match result (m w) with
  | Ok a => emitted (k a (final (m w)))
  | Throw _ => []
  end.
Proof.
  unfold bind. destruct (m w) as [[a|e] w1 out1]; simpl.
  - now destruct (k a w1).
  - now rewrite app_nil_r.
Qed.

Lemma result_try_catch w :
  result (try_catch m h w) =
  match result (m w) with
  | Ok a => Ok a
  | Throw e => result (h e (final (m w)))
  end.
Proof.
  unfold try_catch. destruct (m w) as [[a|e] w1 out1]; simpl; [reflexivity|].
  now destruct (h e w1).
Qed.

Lemma final_try_catch w :
  final (try_catch m h w) =
  match result (m w) with
  | Ok _ => final (m w)
  | Throw e => final (h e (final (m w)))
  end.
Proof.
  unfold try_catch. destruct (m w) as [[a|e] w1 out1]; simpl; [reflexivity|].
  now destruct (h e w1).
Qed.

Lemma emitted_try_catch w :
  emitted (try_catch m h w) =
  emitted (m w) ++
  match result (m w) with
  | Ok _ => []
  | Throw e => emitted (h e (final (m w)))
  end.
Proof.
  unfold try_catch. destruct (m w) as [[a|e] w1 out1]; simpl.
  - now rewrite app_nil_r.
  - now destruct (h e w1).
Qed.

End Laws.

(** A [catch] block that only writes to the console makes the function
    resolve, whatever its [try] block did. *)
Lemma caught_and_logged (m : M unit) (line : error -> message) w :
  result (try_catch m (fun e => console (line e)) w) = Ok tt.
Proof.
  rewrite result_try_catch. destruct (result (m w)) as [[]|e]; reflexivity.
Qed.

(** Case analysis on a run that is known to resolve. *)
Ltac resolve_with L :=
  match type of L with
  | result ?r = Ok _ =>
      let R := fresh "R" in
      pose proof L as R;
      destruct r as [[?|?] ? ?]; simpl in R; [|discriminate R]
  end.

(** *** parseDuration *)

Lemma split_free sep s : free_of sep s = true -> split sep s = [s].
Proof.
  induction s as [|c rest IH]; simpl; [reflexivity|].
  intros H. apply andb_true_iff in H as [Hc Hr].
  apply negb_true_iff in Hc. rewrite Hc, (IH Hr). reflexivity.
Qed.

Lemma split_app sep a b :
  free_of sep a = true ->
  split sep (a ++ String sep b) = a :: split sep b.
Proof.
  induction a as [|c rest IH]; simpl.
  - intros _. rewrite Ascii.eqb_refl. reflexivity.
  - intros H. apply andb_true_iff in H as [Hc Hr].
    apply negb_true_iff in Hc. rewrite Hc, (IH Hr). reflexivity.
Qed.

Lemma truthy_with_separator a sep b : string_truthy (a ++ String sep b) = true.
Proof. destruct a; reflexivity. Qed.

Section Duration.
Context {RT : Runtime}.

(** C10.  [parseDuration] of [h:m:s] is [h*3600 + m*60 + s] and of [m:s] is
    [m*60 + s], the parts read by [Number] and free of colons; it is
    [null] for an absent or empty duration and for every string that does
    not split at its colons into two or three parts, one without any colon
    (a plain number of seconds) among them. *)
Theorem parseDuration_spec :
  (forall h m s,
      free_of colon h = true -> free_of colon m = true -> free_of colon s = true ->
      parseDuration (Some (h ++ ":" ++ m ++ ":" ++ s)%string)
      = Some (Number h * 3600 + Number m * 60 + Number s)%float) /\
  (forall m s,
      free_of colon m = true -> free_of colon s = true ->
      parseDuration (Some (m ++ ":" ++ s)%string)
      = Some (Number m * 60 + Number s)%float) /\
  parseDuration None = None /\
  parseDuration (Some "") = None /\
  (forall d,
      List.length (split colon d) <> 2%nat ->
      List.length (split colon d) <> 3%nat ->
      parseDuration (Some d) = None) /\
  (forall d, free_of colon d = true -> parseDuration (Some d) = None).
Proof.
  repeat split.
  - intros h m s Hh Hm Hs. unfold parseDuration.
    change (h ++ ":" ++ m ++ ":" ++ s)%string
      with (h ++ String colon (m ++ String colon s))%string.
    rewrite truthy_with_separator. simpl negb. cbv iota.
    rewrite !split_app, split_free by assumption. reflexivity.
  - intros m s Hm Hs. unfold parseDuration.
    change (m ++ ":" ++ s)%string with (m ++ String colon s)%string.
    rewrite truthy_with_separator. simpl negb. cbv iota.
    rewrite split_app, split_free by assumption. reflexivity.
  - intros d H2 H3. unfold parseDuration.
    destruct (negb (string_truthy d)); [reflexivity|].
    destruct (split colon d) as [|a [|b [|c [|x l]]]]; simpl in *;
      try reflexivity; congruence.
  - intros d Hd. unfold parseDuration.
    destruct (negb (string_truthy d)); [reflexivity|].
    rewrite split_free by assumption. reflexivity.
Qed.

End Duration.

(** The duration [1:02:03] is 3723 seconds, [2:30] is 150 seconds, and
    [45] and [1:2:3:4] have no duration. *)
Lemma parseDuration_spec_witness :
  @parseDuration Sample.runtime (Some "1:02:03") = Some 3723%float /\
  @parseDuration Sample.runtime (Some "2:30") = Some 150%float /\
  @parseDuration Sample.runtime (Some "1:2:3:4") = None /\
  @parseDuration Sample.runtime (Some "45") = None.
Proof.
  destruct (@parseDuration_spec Sample.runtime) as (H3 & H2 & _ & _ & Hn & H1).
  split; [|split; [|split]].
  - exact (H3 "1" "02" "03" eq_refl eq_refl eq_refl).
  - exact (H2 "2" "30" eq_refl eq_refl).
  - apply (Hn "1:2:3:4"); vm_compute; lia.
  - exact (H1 "45" eq_refl).
Defined.

(** *** The digest page *)

Lemma filter_partition_Permutation {A} (f : A -> bool) (l : list A) :
  Permutation (filter f l ++ filter (fun x => negb (f x)) l) l.
Proof.
  induction l as [|x l IH]; simpl; [constructor|].
  destruct (f x); simpl.
  - now constructor.
  - symmetry. apply Permutation_cons_app. now symmetry.
Qed.

Lemma placed_blocks heading isPriority eps rest :
  placed heading (map (fun ep => Block ep isPriority) eps ++ rest)
  = map (fun ep => (heading, ep, isPriority)) eps ++ placed heading rest.
Proof. induction eps as [|ep eps IH]; simpl; [reflexivity|]. now rewrite IH. Qed.

Section DigestPage.
Context {RT : Runtime}.

Lemma includes_priority (episodes : list (obj Digest.t)) ep :
  well_addressed episodes -> In ep episodes ->
  array_includes (priorityEpisodes episodes) ep = is_priority (val ep).
Proof.
  intros WA Hin. unfold array_includes, priorityEpisodes.
  destruct (is_priority (val ep)) eqn:P.
  - apply existsb_exists. exists ep. split; [|apply Nat.eqb_refl].
    apply filter_In. now split.
  - apply not_true_is_false. intros H.
    apply existsb_exists in H as (y & Hy & Heq).
    apply filter_In in Hy as [Hy Py]. apply Nat.eqb_eq in Heq.
    rewrite (WA y ep Hy Hin Heq) in Py. congruence.
Qed.

Lemma regularEpisodes_filter (episodes : list (obj Digest.t)) :
  well_addressed episodes ->
  regularEpisodes episodes
  = filter (fun ep => negb (is_priority (val ep))) episodes.
Proof.
  intros WA. unfold regularEpisodes. apply filter_ext_in.
  intros ep Hin. now rewrite includes_priority.
Qed.

(** The blocks of the page: the priority episodes under the priority
    heading, then the others under the second heading. *)
Lemma placed_section heading b (eps : list (obj Digest.t)) rest :
  placed heading
    ((if (0 <? List.length eps)%nat
      then Heading b :: map (fun ep => Block ep b) eps else []) ++ rest)
  = map (fun ep => (Some b, ep, b)) eps
    ++ placed (if (0 <? List.length eps)%nat then Some b else heading) rest.
Proof.
  destruct eps as [|ep eps]; [reflexivity|].
  change (0 <? List.length (ep :: eps))%nat with true. cbv iota.
  change ((Heading b :: map (fun ep => Block ep b) (ep :: eps)) ++ rest)
    with (Heading b :: (map (fun ep => Block ep b) (ep :: eps) ++ rest)).
  change (placed heading (Heading b :: ?l)) with (placed (Some b) l).
  apply placed_blocks.
Qed.

(** The blocks of the page: the priority episodes under the priority
    heading, then the others under the second heading. *)
Lemma placed_digest today (episodes : list (obj Digest.t)) :
  placed None (digest_fragments today episodes)
  = map (fun ep => (Some true, ep, true)) (priorityEpisodes episodes)
    ++ map (fun ep => (Some false, ep, false)) (regularEpisodes episodes).
Proof.
  unfold digest_fragments.
  change (placed None ([Header today] ++ ?l)) with (placed None l).
  rewrite placed_section, placed_section. simpl. now rewrite app_nil_r.
Qed.

Lemma no_summary_regular ep : no_summary ep -> is_priority ep = false.
Proof.
  unfold is_priority, parse, or_empty_object.
  intros [H | [H | (s & H & P)]]; rewrite H; simpl.
  - now rewrite JSON_parse_empty_object.
  - now rewrite JSON_parse_empty_object.
  - destruct (string_truthy s).
    + now rewrite P.
    + now rewrite JSON_parse_empty_object.
Qed.

(** The fragments of the page hold one block per element of the array; a
    block stands under the priority heading, and is a priority block,
    exactly when the episode is a priority episode. *)
Lemma every_episode_placed_once today (episodes : list (obj Digest.t)) :
  well_addressed episodes ->
  let rendered := placed None (digest_fragments today episodes) in
  Permutation (map (fun b => snd (fst b)) rendered) episodes /\
  (forall heading ep isPriority,
      In (heading, ep, isPriority) rendered ->
      heading = Some (is_priority (val ep)) /\ isPriority = is_priority (val ep)) /\
  (forall ep,
      In ep episodes -> no_summary (val ep) -> In (Some false, ep, false) rendered).
Proof.
  intros WA rendered. subst rendered. rewrite placed_digest.
  rewrite (regularEpisodes_filter WA). unfold priorityEpisodes.
  split; [|split].
  - rewrite map_app, !map_map. simpl. rewrite !map_id.
    apply filter_partition_Permutation.
  - intros heading ep isPriority H. apply in_app_or in H as [H | H];
      apply in_map_iff in H as (x & E & Hx); inversion E; subst;
      apply filter_In in Hx as [_ Hx].
    + now rewrite Hx.
    + apply negb_true_iff in Hx. now rewrite Hx.
  - intros ep Hin Hno. apply in_or_app. right.
    apply in_map_iff. exists ep. split; [reflexivity|].
    apply filter_In. split; [assumption|].
    now rewrite (no_summary_regular Hno).
Qed.

End DigestPage.

(** *** Ordered calls *)

Lemma calls_app a b : calls (a ++ b) = calls a ++ calls b.
Proof.
  induction a as [|[m|c] a IH]; simpl; [reflexivity|assumption|].
  now rewrite IH.
Qed.

Lemma ordered_nil lo hi : ordered lo hi [].
Proof. split; constructor. Qed.

Lemma ordered_one lo hi c : lo <= step c < hi -> ordered lo hi [c].
Proof.
  intros H. split; simpl.
  - repeat constructor.
  - now repeat constructor.
Qed.

Lemma ordered_weaken lo hi lo' hi' l :
  lo' <= lo -> hi <= hi' -> ordered lo hi l -> ordered lo' hi' l.
Proof.
  intros Hlo Hhi [S F]. split; [assumption|].
  eapply Forall_impl; [|exact F]. simpl. intros c Hc. lia.
Qed.

Lemma ordered_app lo mid hi l1 l2 :
  lo <= mid -> mid <= hi ->
  ordered lo mid l1 -> ordered mid hi l2 -> ordered lo hi (l1 ++ l2).
Proof.
  intros Hlo Hhi [S1 F1] [S2 F2]. split.
  - rewrite map_app. induction l1 as [|c l1 IH]; simpl; [assumption|].
    inversion S1; subst. inversion F1; subst. constructor; [now apply IH|].
    rewrite <- map_app. apply Forall_forall. intros n Hn.
    apply in_map_iff in Hn as (c' & <- & Hc'). apply in_app_or in Hc' as [Hc'|Hc'].
    + rewrite Forall_forall in H2. apply H2. now apply in_map.
    + rewrite Forall_forall in F2. specialize (F2 _ Hc'). lia.
  - apply Forall_app. split.
    + eapply Forall_impl; [|exact F1]. simpl. intros c Hc. lia.
    + eapply Forall_impl; [|exact F2]. simpl. intros c Hc. lia.
Qed.

(** *** Phases *)

Section Phases.
Context {A B : Type}.

Lemma silent_ret (a : A) : silent (ret a).
Proof. intros w. reflexivity. Qed.

Lemma silent_throw e : silent (@throw A e).
Proof. intros w. reflexivity. Qed.

Lemma silent_lift (o : outcome A) : silent (lift o).
Proof. intros w. reflexivity. Qed.

Lemma silent_phase lo hi (m : M A) : silent m -> phase lo hi m.
Proof. intros S w. rewrite S. apply ordered_nil. Qed.

Lemma phase_weaken lo hi lo' hi' (m : M A) :
  phase lo hi m -> lo' <= lo -> hi <= hi' -> phase lo' hi' m.
Proof. intros P Hlo Hhi w. eapply ordered_weaken; eauto. Qed.

Lemma phase_bind a b lo hi (m : M A) (k : A -> M B) :
  phase a b m -> (forall x, phase b hi (k x)) ->
  lo <= a -> a <= b -> b <= hi -> phase lo hi (bind m k).
Proof.
  intros Pm Pk Ha Hab Hb w. rewrite emitted_bind, calls_app.
  apply ordered_app with (mid := b); [lia|lia| |].
  - eapply ordered_weaken; [| |apply Pm]; lia.
  - destruct (result (m w)); [apply Pk|apply ordered_nil].
Qed.

Lemma phase_bind_silent lo hi (m : M A) (k : A -> M B) :
  silent m -> (forall x, phase lo hi (k x)) -> phase lo hi (bind m k).
Proof.
  intros Sm Pk w. rewrite emitted_bind, calls_app, Sm. simpl.
  destruct (result (m w)); [apply Pk|apply ordered_nil].
Qed.

Lemma phase_bind_last lo hi (m : M A) (k : A -> M B) :
  phase lo hi m -> (forall x, silent (k x)) -> phase lo hi (bind m k).
Proof.
  intros Pm Sk w. rewrite emitted_bind, calls_app.
  destruct (result (m w)); [rewrite Sk|]; rewrite app_nil_r; apply Pm.
Qed.

Lemma phase_catch lo hi (m : M A) (h : error -> M A) :
  phase lo hi m -> (forall e, silent (h e)) -> phase lo hi (try_catch m h).
Proof.
  intros Pm Sh w. rewrite emitted_try_catch, calls_app.
  destruct (result (m w)); [|rewrite Sh]; rewrite app_nil_r; apply Pm.
Qed.

End Phases.

Lemma silent_console x : silent (console x).
Proof. intros w. reflexivity. Qed.

Lemma silent_console_ret {A} x (a : A) : silent (console x ;;; ret a).
Proof. intros w. reflexivity. Qed.

Section Pipeline.
Context {RT : Runtime} {TP : Templates}.
Variable sv : Services.

Lemma silent_now : silent (now sv).
Proof. intros w. reflexivity. Qed.

Lemma emitted_db {A} c (op : World -> Reply.t A * World) w :
  emitted (db sv c op w) = [Call c].
Proof.
  unfold db. destruct (db_fault sv (tick w)); [reflexivity|].
  destruct (op w); reflexivity.
Qed.

Lemma phase_db {A} c (op : World -> Reply.t A * World) :
  phase (step c) (S (step c)) (db sv c op).
Proof. intros w. rewrite emitted_db. apply ordered_one. lia. Qed.

Lemma phase_download url : phase 1 2 (download sv url).
Proof. intros w. apply ordered_one. simpl. lia. Qed.

Lemma phase_transcription : phase 2 3 (transcription sv).
Proof. intros w. apply ordered_one. simpl. lia. Qed.

Lemma phase_unlink : phase 3 4 (unlink sv).
Proof. intros w. apply ordered_one. simpl. lia. Qed.

Lemma phase_completion c : phase (step c) (S (step c)) (completion sv c).
Proof. intros w. apply ordered_one. simpl. lia. Qed.

Create HintDb silent.
Create HintDb phase.
#[local] Hint Resolve silent_ret silent_throw silent_lift silent_console
     silent_console_ret silent_now : silent.
#[local] Hint Resolve phase_download phase_transcription phase_unlink : phase.

Ltac phase_bind_tac :=
  first
    [ apply phase_bind_silent; [solve [auto with silent] | intros ]
    | eapply phase_bind;
      [ solve [auto with phase | apply phase_db | apply phase_completion]
      | intros | simpl; lia | simpl; lia | simpl; lia ]
    | apply phase_bind_last; [ | solve [auto with silent] ] ].

Ltac phase_leaf :=
  first
    [ apply silent_phase; solve [auto with silent]
    | eapply phase_weaken;
      [ solve [auto with phase | apply phase_db | apply phase_completion]
      | simpl; lia | simpl; lia ] ].

Ltac phase_split :=
  match goal with
  | |- phase _ _ (match ?x with _ => _ end) => destruct x
  end.

Ltac phases :=
  repeat first [ phase_bind_tac | phase_split | phase_leaf ].

Lemma phase_transcribeAudio u : phase 1 4 (transcribeAudio sv u).
Proof.
  unfold transcribeAudio. apply phase_catch; [|auto with silent]. phases.
Qed.

Lemma phase_generateEnhancedSummary ep t :
  phase 4 5 (generateEnhancedSummary sv ep t).
Proof.
  unfold generateEnhancedSummary. apply phase_catch; [|auto with silent].
  phases.
Qed.

Lemma phase_flagInterestTopics ep t : phase 5 8 (flagInterestTopics sv ep t).
Proof.
  unfold flagInterestTopics, select_active_topics, update_ai_summary.
  apply phase_catch; [|auto with silent]. phases.
Qed.

#[local] Hint Resolve phase_transcribeAudio phase_generateEnhancedSummary
     phase_flagInterestTopics : phase.

Lemma phase_processEpisodeAI ep : phase 1 10 (processEpisodeAI sv ep).
Proof.
  unfold processEpisodeAI, update_episode_ai, insert_topic_flags.
  apply phase_catch; [|auto with silent]. phases.
Qed.

(** A [catch] block that logs and returns a default makes the function
    resolve. *)
Lemma caught_with_default {A} (m : M A) (line : error -> message) (d : A) w :
  result (try_catch m (fun e => console (line e) ;;; ret d) w)
  = Ok match result (m w) with Ok a => a | Throw _ => d end.
Proof.
  rewrite result_try_catch. destruct (result (m w)); reflexivity.
Qed.

Lemma transcribeAudio_resolves u w :
  exists t, result (transcribeAudio sv u w) = Ok t.
Proof. unfold transcribeAudio. rewrite caught_with_default. eauto. Qed.

Lemma generateEnhancedSummary_resolves ep t w :
  exists s, result (generateEnhancedSummary sv ep t w) = Ok s.
Proof. unfold generateEnhancedSummary. rewrite caught_with_default. eauto. Qed.

Lemma flagInterestTopics_resolves ep t w :
  exists flags, result (flagInterestTopics sv ep t w) = Ok flags.
Proof. unfold flagInterestTopics. rewrite caught_with_default. eauto. Qed.

Lemma processEpisodeAI_resolves ep w : result (processEpisodeAI sv ep w) = Ok tt.
Proof. apply caught_and_logged. Qed.

Arguments transcribeAudio : simpl never.
Arguments generateEnhancedSummary : simpl never.
Arguments flagInterestTopics : simpl never.

(** The trace of the pipeline, stage by stage. *)
Lemma processEpisodeAI_emitted ep w :
  let rT := transcribeAudio sv (Episode.audio_url ep) w in
  emitted (processEpisodeAI sv ep w) =
  Console (MStartAI (Episode.title ep)) :: emitted rT ++
  match result rT with
  | Throw e => [Console (EAI e)]
  | Ok transcript =>
      match truthy_string transcript with
      | None => [Console MNoTranscript]
      | Some t =>
          let rS := generateEnhancedSummary sv ep t (final rT) in
          emitted rS ++
          match result rS with
          | Throw e => [Console (EAI e)]
          | Ok aiSummary =>
              let rF := flagInterestTopics sv ep t (final rS) in
              emitted rF ++
              match result rF with
              | Throw e => [Console (EAI e)]
              | Ok topicFlags =>
                  Call (UpdateEpisodeAI (Episode.id ep) t aiSummary) ::
                  (if (0 <? List.length topicFlags)%nat
                   then [Call (InsertTopicFlags topicFlags)] else [])
                  ++ [Console (MAIDone (Episode.title ep))]
              end
          end
      end
  end.
Proof.
  intros rT. subst rT.
  unfold processEpisodeAI, try_catch, bind, console, update_episode_ai,
    insert_topic_flags, db, ret.
  cbn.
  destruct (transcribeAudio sv (Episode.audio_url ep) w) as [[x|e] wT emT]; cbn;
    [|reflexivity].
  destruct (truthy_string x) as [t|]; cbn; [|reflexivity].
  destruct (generateEnhancedSummary sv ep t wT) as [[s|e] wS emS]; cbn;
    [|now rewrite <- app_assoc].
  destruct (flagInterestTopics sv ep t wS) as [[fl|e] wF emF]; cbn;
    [|now rewrite <- !app_assoc].
  destruct (db_fault sv (tick wF)); cbn; destruct fl as [|f fl]; cbn;
    try destruct (db_fault sv _); cbn;
    rewrite <- ?app_assoc; cbn; rewrite <- ?app_assoc; reflexivity.
Qed.

End Pipeline.

(** *** Feeds *)

Lemma fetches_app a b : fetches (a ++ b) = fetches a ++ fetches b.
Proof.
  induction a as [|[m|[]] a IH]; simpl; try assumption; try reflexivity.
  now rewrite IH.
Qed.

Lemma inserts_app a b : inserts (a ++ b) = inserts a ++ inserts b.
Proof.
  induction a as [|[m|[]] a IH]; simpl; try assumption; try reflexivity.
  now rewrite IH.
Qed.

(** Calls of the pipeline are neither feed fetches nor insertions. *)
Lemma pipeline_calls_only trace :
  Forall (fun c => 1 <= step c) (calls trace) ->
  fetches trace = [] /\ inserts trace = [].
Proof.
  induction trace as [|[m|c] trace IH]; simpl; intros F; [auto|auto|].
  inversion F as [|c' l Hc Hl]; subst.
  destruct (IH Hl) as [IHf IHi].
  destruct c; simpl in Hc; try lia; auto.
Qed.

Section Feeds.
Context {RT : Runtime} {TP : Templates}.
Variable sv : Services.

Lemma processEpisodeAI_pipeline_only ep w :
  Forall (fun c => 1 <= step c) (calls (emitted (processEpisodeAI sv ep w))).
Proof.
  destruct (phase_processEpisodeAI sv ep w) as [_ F].
  eapply Forall_impl; [|exact F]. simpl. intros c Hc. lia.
Qed.

Arguments processEpisodeAI : simpl never.

Lemma processNewEpisode_resolves podcast item w :
  result (processNewEpisode sv podcast item w) = Ok tt.
Proof. apply caught_and_logged. Qed.

Lemma processNewEpisode_emitted podcast item w :
  emitted (processNewEpisode sv podcast item w) =
  match publishDate item with
  | None => [Console (ENewEpisode "RangeError: Invalid time value")]
  | Some t =>
      let d := episodeData podcast item t in
      Call (InsertEpisode d) ::
      match db_fault sv (tick w) with
      | Some e => [Console (ENewEpisode e)]
      | None =>
          let row := new_row (next_id w) d in
          Console (MSaved (Episode.title row)) ::
          emitted (processEpisodeAI sv row (inserted d w))
      end
  end.
Proof.
  unfold processNewEpisode, try_catch, bind, lift, insert_episode, db, console,
    throw, ret, toISOString, inserted.
  destruct (publishDate item) as [t|]; cbn; [|reflexivity].
  destruct (db_fault sv (tick w)) as [e|]; cbn; [reflexivity|].
  match goal with
  | |- context [processEpisodeAI ?s ?e ?v] =>
      resolve_with (processEpisodeAI_resolves s e v)
  end.
  reflexivity.
Qed.

Lemma processNewEpisode_inserts podcast item w :
  is_new podcast item = true ->
  inserts (emitted (processNewEpisode sv podcast item w)) = [data_of podcast item]
  /\ fetches (emitted (processNewEpisode sv podcast item w)) = [].
Proof.
  unfold is_new, date_gt, data_of. intros New.
  rewrite processNewEpisode_emitted.
  destruct (publishDate item) as [t|]; [|discriminate]. cbn.
  destruct (db_fault sv (tick w)); cbn; [auto|].
  destruct (pipeline_calls_only _ (processEpisodeAI_pipeline_only
    (new_row (next_id w) (episodeData podcast item t))
    (inserted (episodeData podcast item t) w))) as [-> ->]. auto.
Qed.

Lemma items_loop_resolves podcast items n w :
  result (items_loop sv podcast items n w)
  = Ok (n + List.length (filter (is_new podcast) items)).
Proof.
  revert n w. induction items as [|item items IH]; intros n w; simpl.
  - now rewrite Nat.add_0_r.
  - destruct (is_new podcast item); simpl.
    + rewrite result_bind, processNewEpisode_resolves, IH. f_equal. lia.
    + apply IH.
Qed.

Lemma items_loop_inserts podcast items n w :
  inserts (emitted (items_loop sv podcast items n w))
  = map (data_of podcast) (filter (is_new podcast) items)
  /\ fetches (emitted (items_loop sv podcast items n w)) = [].
Proof.
  revert n w. induction items as [|item items IH]; intros n w; simpl; [auto|].
  destruct (is_new podcast item) eqn:New; simpl; [|apply IH].
  rewrite emitted_bind, processNewEpisode_resolves, inserts_app, fetches_app.
  destruct (processNewEpisode_inserts podcast item w New) as [-> ->].
  destruct (IH (S n) (final (processNewEpisode sv podcast item w))) as [-> ->].
  auto.
Qed.

Arguments items_loop : simpl never.

Lemma processPodcastFeed_resolves podcast w :
  result (processPodcastFeed sv podcast w) = Ok tt.
Proof. apply caught_and_logged. Qed.

Lemma processPodcastFeed_emitted podcast w :
  emitted (processPodcastFeed sv podcast w) =
  Console (MProcessing (Podcast.name podcast)) ::
  Call (ParseURL (Podcast.rss_url podcast)) ::
  match rss sv (tick w) (Podcast.rss_url podcast) with
  | Throw e => [Console (EProcessing (Podcast.name podcast) e)]
  | Ok items =>
      let loop := items_loop sv podcast items 0 (tock w) in
      let found := List.length (filter (is_new podcast) items) in
      emitted loop ++
      Call (UpdateLastChecked (Podcast.id podcast) (clock sv (tick (final loop)))) ::
      (if (0 <? found)%nat
       then [Console (MFound found (Podcast.name podcast))] else [])
  end.
Proof.
  unfold processPodcastFeed, try_catch, bind, console, parseURL, now,
    update_last_checked, db, ret.
  cbn. destruct (rss sv (tick w) (Podcast.rss_url podcast)) as [items|e]; cbn;
    [|reflexivity].
  resolve_with (items_loop_resolves podcast items 0 (tock w)).
  injection R as ->. cbn.
  destruct (db_fault sv _); cbn;
    destruct (filter (is_new podcast) items); cbn;
    rewrite ?app_nil_r; reflexivity.
Qed.

End Feeds.

(** *** The feed check *)

Section FeedCheck.
Context {RT : Runtime} {TP : Templates}.
Variable sv : Services.

Arguments processPodcastFeed : simpl never.
Arguments items_loop : simpl never.

Lemma processPodcastFeed_fetches podcast w :
  fetches (emitted (processPodcastFeed sv podcast w)) = [Podcast.rss_url podcast].
Proof.
  rewrite processPodcastFeed_emitted. simpl. f_equal.
  destruct (rss sv (tick w) (Podcast.rss_url podcast)) as [items|e]; simpl;
    [|reflexivity].
  rewrite fetches_app.
  destruct (items_loop_inserts sv podcast items 0 (tock w)) as [_ ->].
  simpl. now destruct (0 <? _)%nat.
Qed.

Lemma processPodcastFeed_final podcast w items :
  rss sv (tick w) (Podcast.rss_url podcast) = Ok items ->
  let loop := items_loop sv podcast items 0 (tock w) in
  let t := clock sv (tick (final loop)) in
  final (processPodcastFeed sv podcast w) =
  tock match db_fault sv (tick (final loop)) with
       | Some _ => final loop
       | None =>
           with_podcasts
             (map (set_last_checked (Podcast.id podcast) t) (podcasts (final loop)))
             (final loop)
       end.
Proof.
  intros Hrss. unfold processPodcastFeed, try_catch, bind, console, parseURL,
    now, update_last_checked, db, ret.
  cbn. rewrite Hrss. cbn.
  resolve_with (items_loop_resolves sv podcast items 0 (tock w)).
  injection R as ->. cbn.
  destruct (db_fault sv _); cbn;
    destruct (filter (is_new podcast) items); reflexivity.
Qed.

Lemma feeds_loop_resolves podcasts w : result (feeds_loop sv podcasts w) = Ok tt.
Proof.
  revert w. induction podcasts as [|podcast rest IH]; intros w; simpl;
    [reflexivity|].
  rewrite result_bind, processPodcastFeed_resolves, result_bind. apply IH.
Qed.

Lemma feeds_loop_emitted podcasts w :
  emitted (feeds_loop sv podcasts w)
  = flat_map (fun r => emitted r ++ [Call (Sleep 2000)]) (feed_runs sv podcasts w).
Proof.
  revert w. induction podcasts as [|podcast rest IH]; intros w; simpl;
    [reflexivity|].
  rewrite emitted_bind, processPodcastFeed_resolves, emitted_bind. simpl.
  rewrite IH, <- app_assoc. reflexivity.
Qed.

Lemma feed_runs_fetches podcasts w :
  map (fun r => fetches (emitted r)) (feed_runs sv podcasts w)
  = map (fun podcast => [Podcast.rss_url podcast]) podcasts.
Proof.
  revert w. induction podcasts as [|podcast rest IH]; intros w; simpl;
    [reflexivity|].
  now rewrite processPodcastFeed_fetches, IH.
Qed.

Lemma feeds_loop_fetches podcasts w :
  fetches (emitted (feeds_loop sv podcasts w)) = map Podcast.rss_url podcasts.
Proof.
  revert w. induction podcasts as [|podcast rest IH]; intros w; simpl;
    [reflexivity|].
  rewrite emitted_bind, processPodcastFeed_resolves, emitted_bind. simpl.
  rewrite fetches_app, processPodcastFeed_fetches. simpl. now rewrite IH.
Qed.

Arguments feeds_loop : simpl never.

Lemma checkAllFeeds_resolves w : result (checkAllFeeds sv w) = Ok tt.
Proof. apply caught_and_logged. Qed.

Lemma checkAllFeeds_emitted w :
  emitted (checkAllFeeds sv w) =
  Call SelectActivePodcasts ::
  match db_fault sv (tick w) with
  | Some e => [Console (EFeeds e)]
  | None =>
      let feeds := filter Podcast.is_active (podcasts w) in
      Console (MChecking (List.length feeds)) ::
      emitted (feeds_loop sv feeds (tock w)) ++ [Console MCheckDone]
  end.
Proof.
  unfold checkAllFeeds, try_catch, bind, select_active_podcasts, db, console,
    throw, ret.
  destruct (db_fault sv (tick w)) as [e|]; cbn; [reflexivity|].
  match goal with
  | |- context [feeds_loop _ ?l ?v] => resolve_with (feeds_loop_resolves l v)
  end.
  cbn. rewrite ?app_nil_r. reflexivity.
Qed.

(** C5.  A feed check that obtains its podcasts handles them one after the
    other in the order of the query result: its trace is the trace of the
    first feed, a pause of 2000 ms, the trace of the second feed, a pause
    of 2000 ms, and so on, each feed starting in the world the previous
    pause left, and each feed being fetched once within its own segment. *)
Theorem feeds_one_at_a_time w :
  match db_fault sv (tick w) with
  | Some e =>
      emitted (checkAllFeeds sv w) = [Call SelectActivePodcasts; Console (EFeeds e)]
  | None =>
      let feeds := filter Podcast.is_active (podcasts w) in
      let runs := feed_runs sv feeds (tock w) in
      emitted (checkAllFeeds sv w)
      = Call SelectActivePodcasts :: Console (MChecking (List.length feeds))
        :: flat_map (fun r => emitted r ++ [Call (Sleep 2000)]) runs
        ++ [Console MCheckDone]
      /\ map (fun r => fetches (emitted r)) runs
         = map (fun podcast => [Podcast.rss_url podcast]) feeds
  end.
Proof.
  rewrite checkAllFeeds_emitted.
  destruct (db_fault sv (tick w)); [reflexivity|].
  cbv zeta. rewrite feeds_loop_emitted. split; [reflexivity|].
  apply feed_runs_fetches.
Qed.

(** C8.  [POST /check-feeds] answers 200 with its success body in every
    world and for every behaviour of the collaborators. *)
Theorem post_check_feeds_always_200 w :
  result (post_check_feeds sv w)
  = Ok (mkResponse 200 true "Feed check completed").
Proof.
  unfold post_check_feeds.
  rewrite result_try_catch, result_bind, checkAllFeeds_resolves. reflexivity.
Qed.

End FeedCheck.

(** *** The pipeline, the error policy and the triggers *)

Lemma sorted_map_mono {A} (f g : A -> nat) l :
  (forall a b, f a < f b -> g a <= g b) ->
  StronglySorted lt (map f l) -> StronglySorted le (map g l).
Proof.
  intros Mono. induction l as [|a l IH]; simpl; intros S; [constructor|].
  inversion S as [|x xs Sl Fa]; subst. constructor; [now apply IH|].
  rewrite Forall_forall in *. intros n Hn.
  apply in_map_iff in Hn as (b & <- & Hb). apply Mono, Fa. now apply in_map.
Qed.

Lemma stage_follows_step c c' :
  step c < step c' -> stage_rank (stage_of c) <= stage_rank (stage_of c').
Proof. destruct c, c'; simpl; lia. Qed.

Lemma calls_cons_console m trace : calls (Console m :: trace) = calls trace.
Proof. reflexivity. Qed.

Section Policy.
Context {RT : Runtime} {TP : Templates}.
Variable sv : Services.

Lemma generateEnhancedSummary_emitted episode t w :
  emitted (generateEnhancedSummary sv episode t w) =
  Call (SummaryCompletion (Episode.id episode)) ::
  match llm sv (tick w) with
  | Throw e => [Console (ESummary e)]
  | Ok _ => []
  end.
Proof.
  unfold generateEnhancedSummary, try_catch, completion. cbn.
  destruct (llm sv (tick w)); reflexivity.
Qed.

Lemma flagInterestTopics_begins episode t w :
  exists rest,
    emitted (flagInterestTopics sv episode t w) = Call SelectActiveTopics :: rest.
Proof.
  unfold flagInterestTopics. rewrite emitted_try_catch, emitted_bind.
  unfold select_active_topics at 1. rewrite emitted_db. simpl. eauto.
Qed.

(** C4, as amended.  The calls of the annotation pipeline of one episode
    come in the order fetch audio, transcribe, summarise, flag topics,
    persist: no call is made twice, a stage once left is not entered
    again, and the pipeline calls nothing else (so the flag-topics stage
    makes at most its three calls and the persist stage at most its two).
    [transcribeAudio] always resolves; when its result is falsy (no
    transcript) only calls of the fetch and transcribe stages were made,
    and otherwise the summary request, the topic-flagging stage and the
    update of the episode with that transcript all take place. *)
Theorem pipeline_in_order episode w :
  let trace := calls (emitted (processEpisodeAI sv episode w)) in
  StronglySorted lt (map step trace) /\
  StronglySorted le (map (fun c => stage_rank (stage_of c)) trace) /\
  Forall (fun c => stage_of c <> None) trace /\
  match result (transcribeAudio sv (Episode.audio_url episode) w) with
  | Throw _ => False
  | Ok transcript =>
      match truthy_string transcript with
      | None =>
          Forall (fun c => stage_of c = Some FetchAudio \/
                           stage_of c = Some Transcribe) trace
      | Some t =>
          In (SummaryCompletion (Episode.id episode)) trace /\
          In SelectActiveTopics trace /\
          exists aiSummary,
            In (UpdateEpisodeAI (Episode.id episode) t aiSummary) trace
      end
  end.
Proof.
  intros trace. destruct (phase_processEpisodeAI sv episode w) as [S F].
  fold trace in S, F. split; [exact S|]. split.
  { apply sorted_map_mono with (f := step); [apply stage_follows_step|exact S]. }
  split.
  { eapply Forall_impl; [|exact F]. intros c Hc. simpl in Hc.
    destruct c; simpl in *; try lia; discriminate. }
  subst trace. rewrite processEpisodeAI_emitted. cbv zeta.
  destruct (transcribeAudio_resolves sv (Episode.audio_url episode) w) as [x Hx].
  rewrite Hx. destruct (truthy_string x) as [t|].
  - destruct (generateEnhancedSummary_resolves sv episode t
                (final (transcribeAudio sv (Episode.audio_url episode) w)))
      as [s Hs].
    rewrite Hs.
    destruct (flagInterestTopics_resolves sv episode t
                (final (generateEnhancedSummary sv episode t
                   (final (transcribeAudio sv (Episode.audio_url episode) w)))))
      as [fl Hfl].
    rewrite Hfl.
    rewrite generateEnhancedSummary_emitted.
    destruct (flagInterestTopics_begins episode t
                (final (generateEnhancedSummary sv episode t
                   (final (transcribeAudio sv (Episode.audio_url episode) w)))))
      as [rest ->].
    split; [|split; [|exists s]];
      repeat (rewrite ?calls_app, ?in_app_iff; simpl); tauto.
  - simpl. rewrite calls_app. simpl. rewrite app_nil_r.
    destruct (phase_transcribeAudio sv (Episode.audio_url episode) w) as [_ FT].
    eapply Forall_impl; [|exact FT]. intros c Hc. simpl in Hc.
    destruct c; simpl in *; try lia; auto.
Qed.

(** *** Failures are caught and logged *)

Lemma transcribeAudio_download_fails url e w :
  string_truthy url = true -> http_get sv (tick w) url = Some e ->
  emitted (transcribeAudio sv (Some url) w)
  = [Console MTranscribing; Call (DownloadAudio url); Console (ETranscription e)]
  /\ result (transcribeAudio sv (Some url) w) = Ok None.
Proof.
  intros Hurl Hget. unfold transcribeAudio, try_catch, bind, console, download, ret.
  rewrite Hurl. cbn. rewrite Hget. cbn. auto.
Qed.

Lemma transcribeAudio_transcription_fails url e w :
  string_truthy url = true -> http_get sv (tick w) url = None ->
  whisper sv (S (tick w)) = Throw e ->
  emitted (transcribeAudio sv (Some url) w)
  = [Console MTranscribing; Call (DownloadAudio url); Call Transcription;
     Console (ETranscription e)]
  /\ result (transcribeAudio sv (Some url) w) = Ok None.
Proof.
  intros Hurl Hget Hw.
  unfold transcribeAudio, try_catch, bind, console, download, transcription, ret.
  rewrite Hurl. cbn. rewrite Hget. cbn. rewrite Hw. cbn. auto.
Qed.

Lemma generateEnhancedSummary_fails episode t e w :
  llm sv (tick w) = Throw e ->
  emitted (generateEnhancedSummary sv episode t w)
  = [Call (SummaryCompletion (Episode.id episode)); Console (ESummary e)]
  /\ result (generateEnhancedSummary sv episode t w)
     = Ok (JSON_stringify fallback_summary).
Proof.
  intros Hllm. unfold generateEnhancedSummary, try_catch, completion.
  cbn. rewrite Hllm. cbn. auto.
Qed.

Lemma flagInterestTopics_fails episode t e w :
  db_fault sv (tick w) = None ->
  filter Topic.is_active (interest_topics w) <> [] ->
  llm sv (S (tick w)) = Throw e ->
  emitted (flagInterestTopics sv episode t w)
  = [Call SelectActiveTopics; Call (FlagCompletion (Episode.id episode));
     Console (ETopic e)]
  /\ result (flagInterestTopics sv episode t w) = Ok [].
Proof.
  intros Hdb Htopics Hllm.
  unfold flagInterestTopics, try_catch, bind, select_active_topics, db,
    completion, console, ret.
  rewrite Hdb. cbn.
  destruct (filter Topic.is_active (interest_topics w)) as [|tp tps];
    [congruence|].
  cbn. rewrite Hllm. cbn. auto.
Qed.

Lemma flagInterestTopics_unparsable episode t text w :
  db_fault sv (tick w) = None ->
  filter Topic.is_active (interest_topics w) <> [] ->
  llm sv (S (tick w)) = Ok text -> JSON_parse text = None ->
  emitted (flagInterestTopics sv episode t w)
  = [Call SelectActiveTopics; Call (FlagCompletion (Episode.id episode));
     Console (ETopic "SyntaxError: Unexpected token in JSON")]
  /\ result (flagInterestTopics sv episode t w) = Ok [].
Proof.
  intros Hdb Htopics Hllm Hparse.
  unfold flagInterestTopics, try_catch, bind, select_active_topics, db,
    completion, console, lift, parse, ret.
  rewrite Hdb. cbn.
  destruct (filter Topic.is_active (interest_topics w)) as [|tp tps];
    [congruence|].
  cbn. rewrite Hllm. cbn. rewrite Hparse. cbn. auto.
Qed.

(** An error that the database reports for the topics query is not thrown:
    the function returns the empty list and writes nothing. *)
Lemma flagInterestTopics_without_topics episode t e w :
  db_fault sv (tick w) = Some e ->
  emitted (flagInterestTopics sv episode t w) = [Call SelectActiveTopics]
  /\ result (flagInterestTopics sv episode t w) = Ok [].
Proof.
  intros Hdb.
  unfold flagInterestTopics, try_catch, bind, select_active_topics, db, ret.
  rewrite Hdb. cbn. auto.
Qed.

(** C2, as amended.  Nothing thrown while a feed or an episode is handled
    leaves its function: [checkAllFeeds], [processPodcastFeed],
    [processNewEpisode] and [processEpisodeAI] resolve in every world.
    Hence the loop over the podcasts fetches every feed exactly once, in
    order, and the loop over the items requests the insertion of every new
    item exactly once, in order, whatever failed before; and within one
    episode no call is made a second time.  An error thrown by the feed
    fetch, the insertion, the audio download, the transcription, the
    summary request or the flagging request (a failed request or an answer
    that is not JSON) is written to the console by the [catch] block of
    its own function, after which the function resolves (to [null], the
    fallback summary or the empty list where it returns a value).  An
    error the database reports for the topics query is not thrown:
    [flagInterestTopics] then returns the empty list without a console
    line. *)
Theorem catch_log_continue w :
  (result (checkAllFeeds sv w) = Ok tt /\
   (forall podcast, result (processPodcastFeed sv podcast w) = Ok tt) /\
   (forall podcast item, result (processNewEpisode sv podcast item w) = Ok tt) /\
   (forall episode, result (processEpisodeAI sv episode w) = Ok tt)) /\
  ((forall podcasts,
       fetches (emitted (feeds_loop sv podcasts w)) = map Podcast.rss_url podcasts) /\
   (forall podcast items n,
       inserts (emitted (items_loop sv podcast items n w))
       = map (data_of podcast) (filter (is_new podcast) items)) /\
   (forall episode,
       StronglySorted lt
         (map step (calls (emitted (processEpisodeAI sv episode w)))))) /\
  ((forall podcast e,
       rss sv (tick w) (Podcast.rss_url podcast) = Throw e ->
       emitted (processPodcastFeed sv podcast w)
       = [Console (MProcessing (Podcast.name podcast));
          Call (ParseURL (Podcast.rss_url podcast));
          Console (EProcessing (Podcast.name podcast) e)]) /\
   (forall podcast item t e,
       publishDate item = Some t -> db_fault sv (tick w) = Some e ->
       emitted (processNewEpisode sv podcast item w)
       = [Call (InsertEpisode (episodeData podcast item t));
          Console (ENewEpisode e)]) /\
   (forall url e,
       string_truthy url = true -> http_get sv (tick w) url = Some e ->
       emitted (transcribeAudio sv (Some url) w)
       = [Console MTranscribing; Call (DownloadAudio url);
          Console (ETranscription e)]
       /\ result (transcribeAudio sv (Some url) w) = Ok None) /\
   (forall url e,
       string_truthy url = true -> http_get sv (tick w) url = None ->
       whisper sv (S (tick w)) = Throw e ->
       emitted (transcribeAudio sv (Some url) w)
       = [Console MTranscribing; Call (DownloadAudio url); Call Transcription;
          Console (ETranscription e)]
       /\ result (transcribeAudio sv (Some url) w) = Ok None) /\
   (forall episode t e,
       llm sv (tick w) = Throw e ->
       emitted (generateEnhancedSummary sv episode t w)
       = [Call (SummaryCompletion (Episode.id episode)); Console (ESummary e)]
       /\ result (generateEnhancedSummary sv episode t w)
          = Ok (JSON_stringify fallback_summary)) /\
   (forall episode t e,
       db_fault sv (tick w) = None ->
       filter Topic.is_active (interest_topics w) <> [] ->
       llm sv (S (tick w)) = Throw e ->
       emitted (flagInterestTopics sv episode t w)
       = [Call SelectActiveTopics; Call (FlagCompletion (Episode.id episode));
          Console (ETopic e)]
       /\ result (flagInterestTopics sv episode t w) = Ok []) /\
   (forall episode t text,
       db_fault sv (tick w) = None ->
       filter Topic.is_active (interest_topics w) <> [] ->
       llm sv (S (tick w)) = Ok text -> JSON_parse text = None ->
       emitted (flagInterestTopics sv episode t w)
       = [Call SelectActiveTopics; Call (FlagCompletion (Episode.id episode));
          Console (ETopic "SyntaxError: Unexpected token in JSON")]
       /\ result (flagInterestTopics sv episode t w) = Ok []) /\
   (forall episode t e,
       db_fault sv (tick w) = Some e ->
       emitted (flagInterestTopics sv episode t w) = [Call SelectActiveTopics]
       /\ result (flagInterestTopics sv episode t w) = Ok [])).
Proof.
  split; [|split].
  - repeat split; intros.
    + apply checkAllFeeds_resolves.
    + apply processPodcastFeed_resolves.
    + apply processNewEpisode_resolves.
    + apply processEpisodeAI_resolves.
  - split; [|split]; intros.
    + apply feeds_loop_fetches.
    + apply items_loop_inserts.
    + apply phase_processEpisodeAI.
  - split; [|split; [|split; [|split; [|split; [|split; [|split]]]]]].
    + intros podcast e Hrss. rewrite processPodcastFeed_emitted, Hrss. reflexivity.
    + intros podcast item t e Hdate Hdb.
      rewrite processNewEpisode_emitted, Hdate. cbv zeta. now rewrite Hdb.
    + intros url e. apply transcribeAudio_download_fails.
    + intros url e. apply transcribeAudio_transcription_fails.
    + intros episode t e. apply generateEnhancedSummary_fails.
    + intros episode t e. apply flagInterestTopics_fails.
    + intros episode t text. apply flagInterestTopics_unparsable.
    + intros episode t e. apply flagInterestTopics_without_topics.
Qed.

(** A cron callback: an announcement, then the operation. *)
Lemma announced {A} (line : message) (m : M A) w :
  result ((console line ;;; m) w) = result (m w) /\
  final ((console line ;;; m) w) = final (m w) /\
  emitted ((console line ;;; m) w) = Console line :: emitted (m w).
Proof. unfold bind, console. simpl. now destruct (m w). Qed.

(** An HTTP handler around an operation that resolves. *)
Lemma answered (m : M unit) (done : Response) w :
  result (m w) = Ok tt ->
  let handler :=
    try_catch (m ;;; ret done) (fun e => ret (mkResponse 500 false e)) in
  final (handler w) = final (m w) /\ emitted (handler w) = emitted (m w).
Proof.
  intros R. unfold try_catch, bind, ret.
  destruct (m w) as [[[]|e] w1 out1]; simpl in *; [|discriminate].
  now rewrite app_nil_r.
Qed.

(** C7.  Each cron job writes its announcement and then runs the function
    its HTTP endpoint runs: from the same world the scheduled and the
    on-demand run of [checkAllFeeds] (of [sendDailyDigest]) end in the same
    world and produce the same trace, the cron job's announcement line
    apart. *)
Theorem triggers_run_the_same_operations w :
  (result (cron_check_feeds sv w) = result (checkAllFeeds sv w) /\
   final (cron_check_feeds sv w) = final (checkAllFeeds sv w) /\
   emitted (cron_check_feeds sv w)
   = Console MCronFeeds :: emitted (checkAllFeeds sv w) /\
   final (post_check_feeds sv w) = final (checkAllFeeds sv w) /\
   emitted (post_check_feeds sv w) = emitted (checkAllFeeds sv w)) /\
  (result (cron_send_digest sv w) = result (sendDailyDigest sv w) /\
   final (cron_send_digest sv w) = final (sendDailyDigest sv w) /\
   emitted (cron_send_digest sv w)
   = Console MCronDigest :: emitted (sendDailyDigest sv w) /\
   final (post_send_digest sv w) = final (sendDailyDigest sv w) /\
   emitted (post_send_digest sv w) = emitted (sendDailyDigest sv w)).
Proof.
  assert (D : result (sendDailyDigest sv w) = Ok tt) by apply caught_and_logged.
  pose proof (checkAllFeeds_resolves sv w) as C.
  destruct (announced MCronFeeds (checkAllFeeds sv) w) as (C1 & C2 & C3).
  destruct (announced MCronDigest (sendDailyDigest sv) w) as (D1 & D2 & D3).
  destruct (answered (checkAllFeeds sv)
              (mkResponse 200 true "Feed check completed") w C) as (C4 & C5).
  destruct (answered (sendDailyDigest sv)
              (mkResponse 200 true "Digest sent") w D) as (D4 & D5).
  repeat split; assumption.
Qed.

(** C1, as amended.  When the feed of a podcast is fetched, the episodes
    whose insertion is requested are exactly the items that pass
    [publishDate > lastChecked], in feed order, once each: the items whose
    publish date is a valid date strictly later than [last_checked], or
    than the epoch when the podcast has none.  The last call of the
    function is the update of [last_checked] to the clock's reading at
    that moment, and if the database accepts it every row of the podcast
    carries that time. *)
Theorem new_items_are_processed podcast items w :
  rss sv (tick w) (Podcast.rss_url podcast) = Ok items ->
  let r := processPodcastFeed sv podcast w in
  let t := clock sv (Nat.pred (tick (final r))) in
  inserts (emitted r) = map (data_of podcast) (filter (is_new podcast) items) /\
  (forall item,
      is_new podcast item = true <->
      exists published,
        publishDate item = Some published /\
        (match Podcast.last_checked podcast with
         | Some checked => checked
         | None => 0
         end < published)%Z) /\
  (exists before,
      calls (emitted r) = before ++ [UpdateLastChecked (Podcast.id podcast) t]) /\
  (db_fault sv (Nat.pred (tick (final r))) = None ->
   forall p, In p (podcasts (final r)) ->
             Podcast.id p = Podcast.id podcast ->
             Podcast.last_checked p = Some t).
Proof.
  intros Hrss r t. subst r t.
  rewrite (processPodcastFeed_final sv podcast w Hrss).
  rewrite processPodcastFeed_emitted, Hrss. cbv zeta.
  set (loop := items_loop sv podcast items 0 (tock w)).
  change (tick (tock ?x)) with (S (tick x)).
  assert (T : forall a b : World,
             tick (match db_fault sv (tick (final loop)) with
                   | Some _ => final loop
                   | None => with_podcasts
                               (map (set_last_checked (Podcast.id podcast)
                                       (clock sv (tick (final loop))))
                                    (podcasts (final loop))) (final loop)
                   end) = tick (final loop)).
  { intros _ _. now destruct (db_fault sv (tick (final loop))). }
  rewrite (T w w). simpl Nat.pred. clear T.
  split; [|split; [|split]].
  - destruct (items_loop_inserts sv podcast items 0 (tock w)) as [I _].
    fold loop in I. simpl. rewrite inserts_app, I.
    simpl. destruct (0 <? _)%nat; simpl; now rewrite app_nil_r.
  - intros item. unfold is_new, date_gt, lastChecked.
    destruct (publishDate item) as [published|].
    + rewrite Z.ltb_lt. split; [eauto|]. now intros (p & [= <-] & H).
    + split; [discriminate|]. now intros (p & [=] & _).
  - exists (ParseURL (Podcast.rss_url podcast) :: calls (emitted loop)).
    simpl. rewrite calls_app. simpl.
    destruct (0 <? _)%nat; reflexivity.
  - intros Hdb p Hin Hid. rewrite Hdb in Hin. simpl in Hin.
    apply in_map_iff in Hin as (p0 & <- & _). unfold set_last_checked in *.
    destruct (Podcast.id p0 =? Podcast.id podcast)%Z eqn:E; [reflexivity|].
    apply Z.eqb_neq in E. contradiction.
Qed.

End Policy.

(** *** The daily digest *)

Lemma insert_desc_Permutation e l : Permutation (insert_desc e l) (e :: l).
Proof.
  induction l as [|x l IH]; simpl; [reflexivity|].
  destruct (Episode.published_at x <=? Episode.published_at e)%Z; [reflexivity|].
  rewrite IH. apply perm_swap.
Qed.

Lemma order_desc_Permutation l : Permutation (order_desc l) l.
Proof.
  induction l as [|x l IH]; simpl; [reflexivity|].
  rewrite insert_desc_Permutation. now constructor.
Qed.

Lemma insert_desc_sorted e l :
  StronglySorted newer_first l -> StronglySorted newer_first (insert_desc e l).
Proof.
  induction l as [|x l IH]; simpl; intros S; [repeat constructor|].
  inversion S as [|y ys Sl Fx]; subst.
  destruct (Episode.published_at x <=? Episode.published_at e)%Z eqn:E.
  - apply Z.leb_le in E. constructor; [assumption|].
    constructor; [exact E|]. eapply Forall_impl; [|exact Fx].
    unfold newer_first. intros a Ha. lia.
  - apply Z.leb_gt in E. constructor; [now apply IH|].
    apply Forall_forall. intros a Ha.
    apply (Permutation_in _ (insert_desc_Permutation e l)) in Ha as [<-|Ha].
    + unfold newer_first. lia.
    + rewrite Forall_forall in Fx. now apply Fx.
Qed.

Lemma order_desc_sorted l : StronglySorted newer_first (order_desc l).
Proof.
  induction l as [|x l IH]; simpl; [constructor|]. now apply insert_desc_sorted.
Qed.

Lemma filter_sorted {A} (R : A -> A -> Prop) (f : A -> bool) l :
  StronglySorted R l -> StronglySorted R (filter f l).
Proof.
  induction l as [|x l IH]; simpl; intros S; [constructor|].
  inversion S as [|y ys Sl Fx]; subst.
  destruct (f x); [|now apply IH]. constructor; [now apply IH|].
  rewrite Forall_forall in *. intros a Ha. apply filter_In in Ha as [Ha _]. auto.
Qed.

(** Objects allocated one after the other from address [k]. *)
Lemma allocate_from_filter {A} (f : A -> bool) (rows : list A) k :
  map (@val A)
      (filter (fun o => f (val o))
              (map (fun ir => mkObj (fst ir) (snd ir))
                   (combine (seq k (List.length rows)) rows)))
  = filter f rows.
Proof.
  revert k. induction rows as [|row rows IH]; intros k; simpl; [reflexivity|].
  destruct (f row); simpl; now rewrite IH.
Qed.

Lemma allocate_filter {A} (f : A -> bool) (rows : list A) :
  map (@val A) (filter (fun o => f (val o)) (allocate rows)) = filter f rows.
Proof. apply allocate_from_filter. Qed.

Lemma allocate_from_addr {A} (rows : list A) k :
  map (@addr A)
      (map (fun ir => mkObj (fst ir) (snd ir))
           (combine (seq k (List.length rows)) rows))
  = seq k (List.length rows).
Proof.
  revert k. induction rows as [|row rows IH]; intros k; simpl; [reflexivity|].
  now rewrite IH.
Qed.

Lemma NoDup_well_addressed {A} (l : list (obj A)) :
  NoDup (map (@addr A) l) -> well_addressed l.
Proof.
  induction l as [|o l IH]; simpl; intros ND x y Hx Hy E; [contradiction|].
  inversion ND as [|a m Hnot ND']; subst.
  destruct Hx as [<-|Hx], Hy as [<-|Hy].
  - reflexivity.
  - exfalso. apply Hnot. rewrite E. now apply in_map.
  - exfalso. apply Hnot. rewrite <- E. now apply in_map.
  - now apply IH.
Qed.

Lemma allocate_well_addressed {A} (rows : list A) : well_addressed (allocate rows).
Proof.
  apply NoDup_well_addressed. unfold allocate. rewrite allocate_from_addr.
  apply seq_NoDup.
Qed.

Lemma mails_app a b : mails (a ++ b) = mails a ++ mails b.
Proof.
  induction a as [|[m|[]] a IH]; simpl; try assumption; try reflexivity.
  now rewrite IH.
Qed.

Section Digest.
Context {RT : Runtime} {TP : Templates}.
Variable sv : Services.

Arguments digest_rows : simpl never.
Arguments generateDigestHTML : simpl never.
Arguments allocate : simpl never.

Lemma sendDailyDigest_resolves w : result (sendDailyDigest sv w) = Ok tt.
Proof. apply caught_and_logged. Qed.

Lemma digest_rows_tock since w : digest_rows since (tock w) = digest_rows since w.
Proof. reflexivity. Qed.

Lemma sendDailyDigest_emitted w :
  emitted (sendDailyDigest sv w) =
  Call SelectUserEmail ::
  match digest_recipient sv w with
  | None => [Console MNoEmail]
  | Some email =>
      Call (SelectDigestEpisodes (clock sv (S (tick w)) - 24 * 60 * 60 * 1000)) ::
      match digest_selection sv w with
      | [] => [Console MNoEpisodes]
      | row :: rows =>
          match generateDigestHTML (clock sv (S (S (tick w))))
                                   (allocate (row :: rows)) with
          | Throw e => [Console (EDigest e)]
          | Ok html =>
              [Call (SendMail email html);
               match smtp sv (S (S (tick w))) with
               | Some e => Console (EDigest e)
               | None => Console (MDigestSent email)
               end]
          end
      end
  end.
Proof.
  unfold sendDailyDigest, digest_recipient, digest_selection, try_catch, bind,
    select_user_email, select_digest_episodes, db, now, console, lift,
    sendMail, configured_email, ret.
  destruct (db_fault sv (tick w)) as [e|]; cbn; [reflexivity|].
  destruct (user_settings w) as [|s [|s' l]]; cbn; try reflexivity.
  destruct (truthy_string (Settings.email s)) as [email|]; cbn; [|reflexivity].
  destruct (db_fault sv (S (tick w))) as [e|]; cbn; [reflexivity|].
  change (digest_rows ?x (tock w)) with (digest_rows x w).
  destruct (digest_rows _ w) as [|row rows]; cbn; [reflexivity|].
  destruct (generateDigestHTML _ _) as [html|e]; cbn; [|reflexivity].
  destruct (smtp sv (S (S (tick w)))); reflexivity.
Qed.

Lemma sendDailyDigest_tables w : same_tables w (final (sendDailyDigest sv w)).
Proof.
  unfold sendDailyDigest, try_catch, bind, select_user_email,
    select_digest_episodes, db, now, console, lift, sendMail,
    configured_email, ret, same_tables.
  destruct (db_fault sv (tick w)) as [e|]; cbn; [tauto|].
  destruct (user_settings w) as [|s [|s' l]] eqn:U; cbn; rewrite ?U; try tauto.
  destruct (truthy_string (Settings.email s)) as [email|]; cbn; rewrite ?U;
    [|tauto].
  destruct (db_fault sv (S (tick w))) as [e|]; cbn; rewrite ?U; [tauto|].
  change (digest_rows ?x (tock w)) with (digest_rows x w).
  destruct (digest_rows _ w) as [|row rows]; cbn; rewrite ?U; [tauto|].
  destruct (generateDigestHTML _ _) as [html|e]; cbn; rewrite ?U; [|tauto].
  destruct (smtp sv (S (S (tick w)))); cbn; rewrite ?U; tauto.
Qed.

Lemma joined_filter (f : Digest.t -> bool) w l :
  map Digest.episode (filter f (map (joined w) l))
  = filter (fun e => f (joined w e)) l.
Proof.
  induction l as [|e l IH]; simpl; [reflexivity|].
  destruct (f (joined w e)); simpl; now rewrite IH.
Qed.

(** The episodes of the blocks of a digest page over freshly allocated
    rows: the priority rows, then the others. *)
Lemma digest_blocks today w l :
  map (fun b => Digest.episode (val (snd (fst b))))
      (placed None (digest_fragments today (allocate (map (joined w) l))))
  = filter (fun e => is_priority (joined w e)) l
    ++ filter (fun e => negb (is_priority (joined w e))) l.
Proof.
  rewrite placed_digest, (regularEpisodes_filter (allocate_well_addressed _)).
  unfold priorityEpisodes. rewrite map_app, !map_map. simpl.
  rewrite <- (map_map (@val Digest.t) Digest.episode).
  rewrite <- (map_map (@val Digest.t) Digest.episode
                (filter (fun ep => negb (is_priority (val ep))) _)).
  rewrite (allocate_filter is_priority).
  rewrite (allocate_filter (fun d => negb (is_priority d))).
  now rewrite !joined_filter.
Qed.

Lemma Permutation_filter {A} (f : A -> bool) l l' :
  Permutation l l' -> Permutation (filter f l) (filter f l').
Proof.
  induction 1 as [|x l l' _ IH|x y l|l l' l'' _ IH1 _ IH2]; simpl.
  - constructor.
  - destruct (f x); [now constructor|assumption].
  - destruct (f x), (f y); try reflexivity. apply perm_swap.
  - now transitivity (filter f l').
Qed.

Lemma filter_none {A} (f : A -> bool) l :
  (forall a, In a l -> f a = false) -> filter f l = [].
Proof.
  induction l as [|a l IH]; simpl; intros H; [reflexivity|].
  rewrite (H a (or_introl eq_refl)). apply IH. auto.
Qed.

Lemma filter_both {A} (f g : A -> bool) l :
  filter f (filter g l) = filter (fun a => g a && f a) l.
Proof.
  induction l as [|a l IH]; simpl; [reflexivity|].
  destruct (g a); simpl; [destruct (f a)|]; now rewrite IH.
Qed.

(** The digest query returns nothing when it fails, or when no processed
    episode passes its lower bound. *)
Lemma digest_selection_none w :
  db_fault sv (S (tick w)) <> None \/
  (forall e, In e (episodes w) -> Episode.processed e = true ->
             (Episode.published_at e
              < clock sv (S (tick w)) - 24 * 60 * 60 * 1000)%Z) ->
  digest_selection sv w = [].
Proof.
  unfold digest_selection, digest_rows. intros [Hdb|Hold].
  - destruct (db_fault sv (S (tick w))); [reflexivity|congruence].
  - destruct (db_fault sv (S (tick w))); [reflexivity|].
    rewrite filter_none; [reflexivity|].
    intros e Hin. unfold digest_filter.
    destruct (Episode.processed e) eqn:P; [|apply andb_false_r].
    rewrite andb_true_r. apply Z.leb_gt. auto.
Qed.

Lemma digest_selection_some w e :
  db_fault sv (S (tick w)) = None -> In e (episodes w) ->
  digest_filter (clock sv (S (tick w)) - 24 * 60 * 60 * 1000) e = true ->
  digest_selection sv w <> [].
Proof.
  unfold digest_selection, digest_rows. intros -> Hin Hf Hnil.
  apply map_eq_nil in Hnil.
  assert (I : In e (order_desc
                      (filter (digest_filter
                                 (clock sv (S (tick w)) - 24 * 60 * 60 * 1000))
                              (episodes w)))).
  { apply (Permutation_in _ (Permutation_sym (order_desc_Permutation _))).
    apply filter_In. auto. }
  rewrite Hnil in I. destruct I.
Qed.

(** C6, as amended.  [sendDailyDigest] never changes the database.  Without
    a configured address (or when the settings query fails) it only logs
    that; with an address, when the digest query fails or no processed
    episode is dated 24 hours before the run or later, it logs that and
    sends nothing; and when some processed episode was published within the
    24 hours before the run, it hands one mail to the relay, unless the
    page cannot be rendered, which it logs.  It sends at most one mail, to
    the configured address.  The page mailed is the digest page of a list
    of episodes that holds every processed episode published within the 24
    hours before the run, once each, and otherwise only processed episodes
    published no earlier than that: first the episodes whose summary marks
    them as priority, then the others, each group with the most recent
    first. *)
Theorem digest_contents w :
  let r := sendDailyDigest sv w in
  let now := clock sv (S (tick w)) in
  let since := (now - 24 * 60 * 60 * 1000)%Z in
  let recent := fun e =>
    Episode.processed e && (since <=? Episode.published_at e)%Z
    && (Episode.published_at e <=? now)%Z in
  let priority := fun e => is_priority (joined w e) in
  same_tables w (final r) /\
  (digest_recipient sv w = None ->
   emitted r = [Call SelectUserEmail; Console MNoEmail]) /\
  (forall email,
      digest_recipient sv w = Some email ->
      db_fault sv (S (tick w)) <> None \/
      (forall e, In e (episodes w) -> Episode.processed e = true ->
                 (Episode.published_at e < since)%Z) ->
      emitted r = [Call SelectUserEmail; Call (SelectDigestEpisodes since);
                   Console MNoEpisodes]) /\
  (forall email,
      digest_recipient sv w = Some email ->
      db_fault sv (S (tick w)) = None ->
      (exists e, In e (episodes w) /\ recent e = true) ->
      (exists html, mails (emitted r) = [(email, html)]) \/
      (exists e',
          emitted r = [Call SelectUserEmail; Call (SelectDigestEpisodes since);
                       Console (EDigest e')])) /\
  (forall to html,
      In (to, html) (mails (emitted r)) ->
      mails (emitted r) = [(to, html)] /\
      digest_recipient sv w = Some to /\
      exists today listed,
        let rows := allocate (map (joined w) listed) in
        generateDigestHTML today rows = Ok html /\
        map (fun b => Digest.episode (val (snd (fst b))))
            (placed None (digest_fragments today rows))
        = filter priority listed ++ filter (fun e => negb (priority e)) listed /\
        StronglySorted newer_first (filter priority listed) /\
        StronglySorted newer_first (filter (fun e => negb (priority e)) listed) /\
        (forall e,
            In e listed ->
            In e (episodes w) /\ Episode.processed e = true /\
            (since <= Episode.published_at e)%Z) /\
        Permutation (filter recent listed) (filter recent (episodes w))).
Proof.
  intros r now since recent priority.
  split; [apply sendDailyDigest_tables|].
  subst r. rewrite sendDailyDigest_emitted. fold now since.
  split; [now intros ->|].
  split.
  { intros email -> Hnone. now rewrite (digest_selection_none w Hnone). }
  split.
  { intros email -> Hdb (e & Hin & He).
    assert (Hf : digest_filter since e = true).
    { unfold recent in He. unfold digest_filter.
      apply andb_true_iff in He as [He _]. apply andb_true_iff in He as [P S].
      now rewrite P, S. }
    pose proof (digest_selection_some w e Hdb Hin Hf) as Hrows.
    destruct (digest_selection sv w) as [|row rows]; [congruence|].
    destruct (generateDigestHTML _ _) as [html|e']; [left|right; eauto].
    exists html. simpl. now destruct (smtp sv (S (S (tick w)))). }
  intros to html. destruct (digest_recipient sv w) as [email|]; [|simpl; tauto].
  unfold digest_selection. fold now since.
  destruct (db_fault sv (S (tick w))); [simpl; tauto|].
  unfold digest_rows.
  set (selected := order_desc (filter (digest_filter since) (episodes w))).
  destruct (map (joined w) selected) as [|row rows] eqn:Rows; [simpl; tauto|].
  destruct (generateDigestHTML _ _) as [page|e] eqn:Page; [|simpl; tauto].
  assert (M : mails [Call (SendMail email page);
                     match smtp sv (S (S (tick w))) with
                     | Some e => Console (EDigest e)
                     | None => Console (MDigestSent email)
                     end] = [(email, page)])
    by (now destruct (smtp sv (S (S (tick w))))).
  change (mails (?a :: ?b :: ?l)) with (mails l). rewrite M.
  intros [[= <- <-]|[]]. split; [reflexivity|]. split; [reflexivity|].
  exists (clock sv (S (S (tick w)))), selected. cbv zeta.
  rewrite Rows. split; [exact Page|]. rewrite <- Rows.
  split; [apply digest_blocks|].
  split; [apply filter_sorted, order_desc_sorted|].
  split; [apply filter_sorted, order_desc_sorted|].
  assert (P : Permutation selected (filter (digest_filter since) (episodes w)))
    by apply order_desc_Permutation.
  split.
  - intros e He. apply (Permutation_in _ P) in He.
    apply filter_In in He as [Hin Hf]. unfold digest_filter in Hf.
    apply andb_true_iff in Hf as [S Pr]. apply Z.leb_le in S. auto.
  - rewrite (Permutation_filter recent P), filter_both.
    erewrite filter_ext; [reflexivity|].
    intros e. unfold recent, digest_filter.
    destruct (Episode.processed e), (since <=? Episode.published_at e)%Z;
      reflexivity.
Qed.

End Digest.

(** ** What a run leaves alone

    *** Frames *)

Section Keeps.
Variable R : World -> World -> Prop.
Hypothesis F : frame R.
Context {A B : Type}.

Lemma keeps_ret (a : A) : keeps R (ret a).
Proof. intros w. apply (frame_refl F). Qed.

Lemma keeps_throw e : keeps R (@throw A e).
Proof. intros w. apply (frame_refl F). Qed.

Lemma keeps_lift (o : outcome A) : keeps R (lift o).
Proof. intros w. apply (frame_refl F). Qed.

Lemma keeps_bind (m : M A) (k : A -> M B) :
  keeps R m -> (forall a, keeps R (k a)) -> keeps R (bind m k).
Proof.
  intros Km Kk w. rewrite final_bind. destruct (result (m w)); [|apply Km].
  eapply (frame_trans F); [apply Km|apply Kk].
Qed.

Lemma keeps_catch (m : M A) (h : error -> M A) :
  keeps R m -> (forall e, keeps R (h e)) -> keeps R (try_catch m h).
Proof.
  intros Km Kh w. rewrite final_try_catch. destruct (result (m w)); [apply Km|].
  eapply (frame_trans F); [apply Km|apply Kh].
Qed.

End Keeps.

Lemma keeps_console R (F : frame R) x : keeps R (console x).
Proof. intros w. apply (frame_refl F). Qed.

Section KeepsServices.
Context {RT : Runtime} {TP : Templates}.
Variable sv : Services.
Variable R : World -> World -> Prop.
Hypothesis F : frame R.

Lemma keeps_now : keeps R (now sv).
Proof. intros w. apply (frame_refl F). Qed.

Lemma keeps_parseURL url : keeps R (parseURL sv url).
Proof. intros w. apply (frame_tock F). Qed.

Lemma keeps_sleep ms : keeps R (sleep ms).
Proof. intros w. apply (frame_tock F). Qed.

Lemma keeps_download url : keeps R (download sv url).
Proof. intros w. apply (frame_tock F). Qed.

Lemma keeps_transcription : keeps R (transcription sv).
Proof. intros w. apply (frame_tock F). Qed.

Lemma keeps_unlink : keeps R (unlink sv).
Proof. intros w. apply (frame_tock F). Qed.

Lemma keeps_completion c : keeps R (completion sv c).
Proof. intros w. apply (frame_tock F). Qed.

Lemma keeps_sendMail to html : keeps R (sendMail sv to html).
Proof. intros w. apply (frame_tock F). Qed.

(** A database request keeps what its operation keeps. *)
Lemma keeps_db {A} c (op : World -> Reply.t A * World) :
  (forall w, R w (snd (op w))) -> keeps R (db sv c op).
Proof.
  intros Hop w. unfold db. destruct (db_fault sv (tick w)); simpl.
  - apply (frame_tock F).
  - specialize (Hop w). destruct (op w) as [r w']. simpl in *.
    eapply (frame_trans F); [exact Hop|apply (frame_tock F)].
Qed.

End KeepsServices.

Create HintDb keeps.

Ltac keeps_step F :=
  first
    [ solve [auto with keeps]
    | apply (keeps_bind F); [ | intros ]
    | apply (keeps_catch F); [ | intros ]
    | apply (keeps_ret F) | apply (keeps_throw F) | apply (keeps_lift F)
    | apply (keeps_console F) | apply (keeps_now _ F)
    | apply (keeps_parseURL _ F) | apply (keeps_sleep F)
    | apply (keeps_download _ F) | apply (keeps_transcription _ F)
    | apply (keeps_unlink _ F) | apply (keeps_completion _ F)
    | apply (keeps_sendMail _ F)
    | match goal with
      | |- keeps _ (match ?x with _ => _ end) => destruct x
      end ].

Ltac keeps_all F := repeat keeps_step F.

Lemma same_tables_frame : frame same_tables.
Proof.
  split.
  - intros w. unfold same_tables. tauto.
  - intros a b c (A1 & A2 & A3 & A4 & A5 & A6) (B1 & B2 & B3 & B4 & B5 & B6).
    unfold same_tables. repeat split; congruence.
  - intros w. unfold same_tables. simpl. tauto.
Qed.

Lemma same_episode_refl e : same_episode e e.
Proof. unfold same_episode. tauto. Qed.

Lemma same_episode_trans a b c :
  same_episode a b -> same_episode b c -> same_episode a c.
Proof.
  unfold same_episode. intros (A1&A2&A3&A4&A5&A6&A7&A8) (B1&B2&B3&B4&B5&B6&B7&B8).
  repeat split; try congruence. auto.
Qed.

Lemma Forall2_refl {A} (P : A -> A -> Prop) l :
  (forall x, P x x) -> Forall2 P l l.
Proof. intros H. induction l; constructor; auto. Qed.

Lemma Forall2_trans {A} (P : A -> A -> Prop) :
  (forall x y z, P x y -> P y z -> P x z) ->
  forall a b c, Forall2 P a b -> Forall2 P b c -> Forall2 P a c.
Proof.
  intros T a b c Hab. revert c. induction Hab; intros c Hbc; inversion Hbc; subst.
  - constructor.
  - constructor; eauto.
Qed.

Lemma Forall2_map_r {A} (P : A -> A -> Prop) (f : A -> A) l :
  (forall x, P x (f x)) -> Forall2 P l (map f l).
Proof. intros H. induction l; simpl; constructor; auto. Qed.

Lemma pipeline_frame_frame id : frame (pipeline_frame id).
Proof.
  split.
  - intros w. unfold pipeline_frame. repeat split; auto.
    + apply Forall2_refl. intros e. split; [apply same_episode_refl|auto].
    + exists []. now rewrite app_nil_r.
  - intros a b c (A1&A2&A3&A4&A5&(x&A6)) (B1&B2&B3&B4&B5&(y&B6)).
    unfold pipeline_frame. repeat split; try congruence.
    + eapply Forall2_trans; [|exact A5|exact B5]. simpl.
      intros e1 e2 e3 [S1 U1] [S2 U2]. split.
      * eapply same_episode_trans; eauto.
      * intros Hid. rewrite <- (U1 Hid).
        apply U2. rewrite (U1 Hid). exact Hid.
    + exists (x ++ y). rewrite B6, A6. now rewrite app_assoc.
  - intros w. unfold pipeline_frame. simpl. repeat split; auto.
    + apply Forall2_refl. intros e. split; [apply same_episode_refl|auto].
    + exists []. now rewrite app_nil_r.
Qed.

Section Frames.
Context {RT : Runtime} {TP : Templates}.
Variable sv : Services.

Lemma transcribeAudio_keeps R (F : frame R) u : keeps R (transcribeAudio sv u).
Proof. unfold transcribeAudio. keeps_all F. Qed.

Lemma generateEnhancedSummary_keeps R (F : frame R) ep t :
  keeps R (generateEnhancedSummary sv ep t).
Proof. unfold generateEnhancedSummary. keeps_all F. Qed.

#[local] Hint Resolve transcribeAudio_keeps generateEnhancedSummary_keeps : keeps.

Lemma set_ai_summary_same id s e :
  same_episode e (set_ai_summary id s e) /\
  (Episode.id e <> id -> set_ai_summary id s e = e).
Proof.
  unfold set_ai_summary, same_episode.
  destruct (Episode.id e =? id)%Z eqn:E; simpl.
  - apply Z.eqb_eq in E. repeat split; auto. intros. contradiction.
  - repeat split; auto.
Qed.

Lemma set_analysis_same id t s e :
  same_episode e (set_analysis id t s e) /\
  (Episode.id e <> id -> set_analysis id t s e = e).
Proof.
  unfold set_analysis, same_episode.
  destruct (Episode.id e =? id)%Z eqn:E; simpl.
  - apply Z.eqb_eq in E. repeat split; auto. intros. contradiction.
  - repeat split; auto.
Qed.

Lemma flagInterestTopics_frame ep t :
  keeps (pipeline_frame (Episode.id ep)) (flagInterestTopics sv ep t).
Proof.
  pose proof (pipeline_frame_frame (Episode.id ep)) as F.
  unfold flagInterestTopics, select_active_topics, update_ai_summary.
  keeps_all F.
  - apply (keeps_db _ F). intros w. apply (frame_refl F).
  - apply (keeps_db _ F). intros w. simpl. unfold pipeline_frame. simpl.
    repeat split; auto.
    + apply Forall2_map_r. intros e. apply set_ai_summary_same.
    + exists []. now rewrite app_nil_r.
Qed.

#[local] Hint Resolve flagInterestTopics_frame : keeps.

Lemma processEpisodeAI_frame ep :
  keeps (pipeline_frame (Episode.id ep)) (processEpisodeAI sv ep).
Proof.
  pose proof (pipeline_frame_frame (Episode.id ep)) as F.
  unfold processEpisodeAI, update_episode_ai, insert_topic_flags.
  keeps_all F.
  - apply (keeps_db _ F). intros w. simpl. unfold pipeline_frame. simpl.
    repeat split; auto.
    + apply Forall2_map_r. intros e. apply set_analysis_same.
    + exists []. now rewrite app_nil_r.
  - apply (keeps_db _ F). intros w. simpl. unfold pipeline_frame. simpl.
    repeat split; auto.
    + apply Forall2_refl. intros e. split; [apply same_episode_refl|auto].
    + eauto.
Qed.

Lemma same_podcast_refl p : same_podcast p p.
Proof. unfold same_podcast. tauto. Qed.

Lemma same_podcast_trans a b c :
  same_podcast a b -> same_podcast b c -> same_podcast a c.
Proof.
  unfold same_podcast. intros (A1&A2&A3&A4) (B1&B2&B3&B4).
  repeat split; congruence.
Qed.

Lemma feed_frame_frame : frame feed_frame.
Proof.
  split.
  - intros w. unfold feed_frame. repeat split; auto.
    + apply Forall2_refl, same_podcast_refl.
    + exists (episodes w), []. split; [now rewrite app_nil_r|].
      apply Forall2_refl, same_episode_refl.
    + exists []. now rewrite app_nil_r.
  - intros a b c (A1&A2&A3&(k1&a1&A4&A5)&(x&A6)) (B1&B2&B3&(k2&a2&B4&B5)&(y&B6)).
    unfold feed_frame. repeat split; try congruence.
    + eapply Forall2_trans; [apply same_podcast_trans|exact A3|exact B3].
    + rewrite A4 in B5. apply Forall2_app_inv_l in B5 as (k2a & k2b & Ha & Hb & ->).
      exists k2a, (k2b ++ a2). split; [now rewrite B4, app_assoc|].
      eapply Forall2_trans; [apply same_episode_trans|exact A5|exact Ha].
    + exists (x ++ y). rewrite B6, A6. now rewrite app_assoc.
  - intros w. unfold feed_frame. simpl. repeat split; auto.
    + apply Forall2_refl, same_podcast_refl.
    + exists (episodes w), []. split; [now rewrite app_nil_r|].
      apply Forall2_refl, same_episode_refl.
    + exists []. now rewrite app_nil_r.
Qed.

Lemma pipeline_frame_feed_frame id w w' : pipeline_frame id w w' -> feed_frame w w'.
Proof.
  intros (A1&A2&A3&A4&A5&A6). unfold feed_frame. repeat split; auto.
  - rewrite A2. apply Forall2_refl, same_podcast_refl.
  - exists (episodes w'), []. split; [now rewrite app_nil_r|].
    eapply Forall2_impl; [|exact A5]. simpl. tauto.
Qed.

Lemma processEpisodeAI_feed_frame ep : keeps feed_frame (processEpisodeAI sv ep).
Proof. intros w. eapply pipeline_frame_feed_frame, processEpisodeAI_frame. Qed.

#[local] Hint Resolve processEpisodeAI_feed_frame : keeps.

Lemma processNewEpisode_frame podcast item :
  keeps feed_frame (processNewEpisode sv podcast item).
Proof.
  pose proof feed_frame_frame as F.
  unfold processNewEpisode, insert_episode. keeps_all F.
  apply (keeps_db _ F). intros w. simpl. unfold feed_frame. simpl.
    repeat split; auto.
    + apply Forall2_refl, same_podcast_refl.
    + eexists _, _. split; [reflexivity|]. apply Forall2_refl, same_episode_refl.
    + exists []. now rewrite app_nil_r.
Qed.

#[local] Hint Resolve processNewEpisode_frame : keeps.

Lemma items_loop_frame podcast items n :
  keeps feed_frame (items_loop sv podcast items n).
Proof.
  pose proof feed_frame_frame as F.
  revert n. induction items as [|item items IH]; intros n; simpl.
  - apply (keeps_ret F).
  - destruct (is_new podcast item); [|apply IH].
    apply (keeps_bind F); [apply processNewEpisode_frame|intros; apply IH].
Qed.

#[local] Hint Resolve items_loop_frame : keeps.

Lemma set_last_checked_same id t p : same_podcast p (set_last_checked id t p).
Proof.
  unfold set_last_checked, same_podcast.
  destruct (Podcast.id p =? id)%Z; simpl; tauto.
Qed.

Lemma processPodcastFeed_frame podcast :
  keeps feed_frame (processPodcastFeed sv podcast).
Proof.
  pose proof feed_frame_frame as F.
  unfold processPodcastFeed, update_last_checked. keeps_all F.
  - apply (keeps_db _ F). intros w. simpl. unfold feed_frame. simpl.
    repeat split; auto.
    + apply Forall2_map_r. intros p. apply set_last_checked_same.
    + exists (episodes w), []. split; [now rewrite app_nil_r|].
      apply Forall2_refl, same_episode_refl.
    + exists []. now rewrite app_nil_r.
Qed.

#[local] Hint Resolve processPodcastFeed_frame : keeps.

Lemma feeds_loop_frame podcasts : keeps feed_frame (feeds_loop sv podcasts).
Proof.
  pose proof feed_frame_frame as F.
  induction podcasts as [|podcast rest IH]; simpl.
  - apply (keeps_ret F).
  - apply (keeps_bind F); [apply processPodcastFeed_frame|intros].
    apply (keeps_bind F); [apply (keeps_sleep F)|intros; apply IH].
Qed.

#[local] Hint Resolve feeds_loop_frame : keeps.

(** X1.  Whatever the collaborators answer, the pipeline of an episode
    leaves the podcasts, the topics, the settings and the id counter as they
    were; it keeps every episode row in its place with its id, podcast,
    title, description, audio URL, publish date and duration, never clears a
    [processed] mark, and changes nothing at all in the rows of other
    episodes; and it only appends to the topic flags. *)
Theorem pipeline_touches_only_its_episode episode w :
  pipeline_frame (Episode.id episode) w (final (processEpisodeAI sv episode w)).
Proof.
  pose proof (processEpisodeAI_frame episode w) as (Hid & Hpod & Htop & Hset & Hep & Hfl).
  unfold pipeline_frame. repeat split; assumption.
Qed.

(** X2.  A feed check deletes nothing: whatever the collaborators answer,
    it leaves the topics and the settings as they were, keeps every podcast
    row in its place with its id, name, feed URL and active mark (only
    [last_checked] may differ), keeps every episode row in its place with
    the columns listed for [same_episode], adds new episode rows after the
    old ones, and only appends to the topic flags. *)
Theorem feed_check_never_deletes w : feed_frame w (final (checkAllFeeds sv w)).
Proof.
  pose proof feed_frame_frame as F. revert w.
  change (keeps feed_frame (checkAllFeeds sv)).
  unfold checkAllFeeds, select_active_podcasts. keeps_all F.
  apply (keeps_db _ F). intros w. apply (frame_refl F).
Qed.

End Frames.

(** ** What a run stores

    *** The audio URL of an item *)

Lemma prefix_spec sub s :
  String.prefix sub s = true <-> exists b, s = (sub ++ b)%string.
Proof.
  revert s. induction sub as [|c sub IH]; intros s; simpl.
  - split; [intros _; now exists s|intros _; now destruct s].
  - destruct s as [|c' s]; simpl.
    + split; [discriminate|intros [b H]; discriminate].
    + destruct (ascii_dec c c') as [<-|N].
      * rewrite IH. split; intros [b H]; exists b; [now rewrite H|now inversion H].
      * split; [discriminate|]. intros [b H]. inversion H. congruence.
Qed.

(** [s.includes(sub)] holds exactly when [sub] occurs somewhere in [s]. *)
Lemma includes_spec sub s :
  includes sub s = true <-> exists a b, s = (a ++ sub ++ b)%string.
Proof.
  induction s as [|c s IH].
  - cbn [includes]. rewrite orb_false_r, prefix_spec. split.
    + intros [b H]. now exists "", b.
    + intros (a & b & H). destruct a; [now exists b|discriminate].
  - cbn [includes]. rewrite orb_true_iff, prefix_spec, IH. split.
    + intros [[b H]|(a & b & H)].
      * now exists "", b.
      * exists (String c a), b. simpl. now rewrite H.
    + intros (a & b & H). destruct a as [|c' a].
      * left. now exists b.
      * right. inversion H. now exists a, b.
Qed.

(** X3.  [getAudioUrl] returns the URL of the enclosure when the item has a
    non-empty one; otherwise it returns the item's link when the text
    [.mp3] occurs anywhere in it (not only at its end); in every other case
    it returns [null]. *)
Theorem getAudioUrl_spec item u :
  getAudioUrl item = Some u <->
  (opt_truthy (Item.enclosure_url item) = true /\ Item.enclosure_url item = Some u) \/
  (opt_truthy (Item.enclosure_url item) = false /\ Item.link item = Some u /\
   exists a b, u = (a ++ ".mp3" ++ b)%string).
Proof.
  unfold getAudioUrl. destruct (opt_truthy (Item.enclosure_url item)).
  - split; [auto|]. intros [[_ H]|[H _]]; [exact H|discriminate].
  - destruct (Item.link item) as [l|].
    + destruct (includes ".mp3" l) eqn:I.
      * apply includes_spec in I. split.
        -- intros [= <-]. right. auto.
        -- intros [[H _]|(_ & H & _)]; [discriminate|exact H].
      * split; [discriminate|]. intros [[H _]|(_ & [= <-] & H)]; [discriminate|].
        apply includes_spec in H. congruence.
    + split; [discriminate|]. intros [[H _]|(_ & H & _)]; discriminate.
Qed.

(** *** The pipeline of an episode *)

Section Stored.
Context {RT : Runtime} {TP : Templates}.
Variable sv : Services.

(** X4.  [transcribeAudio] always resolves and never writes to the
    database.  It resolves to the text of the transcription only when the
    URL is non-empty and the download, the transcription request and the
    removal of the temporary file all succeed: when the removal fails the
    transcript that was obtained is dropped and the result is [null], as it
    is when the download or the request fails.  Its trace is fixed by the
    same outcomes: without a URL it is empty; the transcription is
    requested only after a successful download, and the temporary file is
    removed only after a successful transcription, so that it is left
    behind when the request fails; every failure is logged once. *)
Theorem transcribeAudio_returns audioUrl w :
  result (transcribeAudio sv audioUrl w) =
  Ok match truthy_string audioUrl with
     | None => None
     | Some url =>
         match http_get sv (tick w) url with
         | Some _ => None
         | None =>
             match whisper sv (S (tick w)) with
             | Throw _ => None
             | Ok text =>
                 match fs_unlink sv (S (S (tick w))) with
                 | Some _ => None
                 | None => text
                 end
             end
         end
     end
  /\ emitted (transcribeAudio sv audioUrl w) =
     match truthy_string audioUrl with
     | None => []
     | Some url =>
         Console MTranscribing :: Call (DownloadAudio url) ::
         match http_get sv (tick w) url with
         | Some e => [Console (ETranscription e)]
         | None =>
             Call Transcription ::
             match whisper sv (S (tick w)) with
             | Throw e => [Console (ETranscription e)]
             | Ok _ =>
                 Call UnlinkTemp ::
                 match fs_unlink sv (S (S (tick w))) with
                 | Some e => [Console (ETranscription e)]
                 | None => []
                 end
             end
         end
     end
  /\ same_tables w (final (transcribeAudio sv audioUrl w)).
Proof.
  unfold transcribeAudio, try_catch, bind, console, download, transcription,
    unlink, ret, failing, truthy_string, same_tables.
  destruct audioUrl as [url|]; cbn; [|tauto].
  destruct (string_truthy url); cbn; [|tauto].
  destruct (http_get sv (tick w) url); cbn; [tauto|].
  destruct (whisper sv (S (tick w))); cbn; [|tauto].
  destruct (fs_unlink sv (S (S (tick w)))); cbn; tauto.
Qed.

(** Without a URL there is nothing to transcribe. *)
Lemma transcribeAudio_without_url audioUrl w :
  truthy_string audioUrl = None ->
  transcribeAudio sv audioUrl w = mkRun (Ok None) w [].
Proof.
  unfold transcribeAudio, try_catch, truthy_string, ret.
  destruct audioUrl as [url|]; [|reflexivity].
  destruct (string_truthy url); [discriminate|reflexivity].
Qed.

Lemma generateEnhancedSummary_result episode t w :
  result (generateEnhancedSummary sv episode t w) =
  Ok match llm sv (tick w) with
     | Ok text => text
     | Throw _ => JSON_stringify fallback_summary
     end.
Proof.
  unfold generateEnhancedSummary, try_catch, completion, bind, console, ret.
  destruct (llm sv (tick w)); reflexivity.
Qed.

Arguments transcribeAudio : simpl never.
Arguments generateEnhancedSummary : simpl never.
Arguments flagInterestTopics : simpl never.

(** The world the pipeline ends in, stage by stage. *)
Lemma processEpisodeAI_final ep w :
  let rT := transcribeAudio sv (Episode.audio_url ep) w in
  final (processEpisodeAI sv ep w) =
  match result rT with
  | Throw e => final rT
  | Ok transcript =>
      match truthy_string transcript with
      | None => final rT
      | Some t =>
          let rS := generateEnhancedSummary sv ep t (final rT) in
          match result rS with
          | Throw e => final rS
          | Ok aiSummary =>
              let rF := flagInterestTopics sv ep t (final rS) in
              match result rF with
              | Throw e => final rF
              | Ok topicFlags =>
                  let stored :=
                    final (update_episode_ai sv (Episode.id ep) t aiSummary
                                             (final rF)) in
                  if (0 <? List.length topicFlags)%nat
                  then final (insert_topic_flags sv topicFlags stored)
                  else stored
              end
          end
      end
  end.
Proof.
  intros rT. subst rT.
  unfold processEpisodeAI, try_catch, bind, console, update_episode_ai,
    insert_topic_flags, db, ret.
  cbn.
  destruct (transcribeAudio sv (Episode.audio_url ep) w) as [[x|e] wT emT]; cbn;
    [|reflexivity].
  destruct (truthy_string x) as [t|]; cbn; [|reflexivity].
  destruct (generateEnhancedSummary sv ep t wT) as [[s|e] wS emS]; cbn;
    [|reflexivity].
  destruct (flagInterestTopics sv ep t wS) as [[fl|e] wF emF]; cbn;
    [|reflexivity].
  destruct (db_fault sv (tick wF)); cbn; destruct fl as [|f fl]; cbn;
    try destruct (db_fault sv _); cbn; reflexivity.
Qed.

(** The pipeline of an episode that yields no transcript. *)
Lemma processEpisodeAI_without_transcript episode w x :
  let rT := transcribeAudio sv (Episode.audio_url episode) w in
  result rT = Ok x -> truthy_string x = None ->
  final (processEpisodeAI sv episode w) = final rT /\
  emitted (processEpisodeAI sv episode w)
  = Console (MStartAI (Episode.title episode))
    :: emitted rT ++ [Console MNoTranscript].
Proof.
  intros rT Hx Hnone.
  rewrite processEpisodeAI_final, processEpisodeAI_emitted. cbv zeta.
  fold rT. rewrite Hx, Hnone. auto.
Qed.

(** X5.  When [transcribeAudio] yields no transcript ([null] or the empty
    text), [processEpisodeAI] stops there: the database is as it was (the
    episode is not marked as processed, nothing is summarised or flagged),
    and its trace is the start line, the trace of the transcription attempt
    and the line that says no transcript is available. *)
Theorem no_transcript_no_change episode w x :
  let rT := transcribeAudio sv (Episode.audio_url episode) w in
  result rT = Ok x -> truthy_string x = None ->
  same_tables w (final (processEpisodeAI sv episode w)) /\
  emitted (processEpisodeAI sv episode w)
  = Console (MStartAI (Episode.title episode))
    :: emitted rT ++ [Console MNoTranscript].
Proof.
  intros rT Hx Hnone.
  destruct (processEpisodeAI_without_transcript episode w Hx Hnone) as [-> ->].
  split; [|reflexivity].
  apply (transcribeAudio_keeps sv same_tables_frame).
Qed.

(** X6.  When the transcription yields a non-empty transcript and the
    database accepts the update that ends the pipeline, every row of the
    episode carries that transcript, is marked as processed, and has for
    [ai_summary] the text [generateEnhancedSummary] resolved to: the answer
    of the model as it came, whether or not it is JSON, or the serialised
    fallback object when the request failed.  This holds whatever the
    topic-flagging stage did in between. *)
Theorem analysis_is_stored episode w x t :
  let rT := transcribeAudio sv (Episode.audio_url episode) w in
  let rS := generateEnhancedSummary sv episode t (final rT) in
  let rF := flagInterestTopics sv episode t (final rS) in
  result rT = Ok x -> truthy_string x = Some t ->
  db_fault sv (tick (final rF)) = None ->
  forall e,
    In e (episodes (final (processEpisodeAI sv episode w))) ->
    Episode.id e = Episode.id episode ->
    Episode.transcript e = Some t /\ Episode.processed e = true /\
    Episode.ai_summary e
    = Some match llm sv (tick (final rT)) with
           | Ok text => text
           | Throw _ => JSON_stringify fallback_summary
           end.
Proof.
  intros rT rS rF Hx Ht Hdb e.
  rewrite processEpisodeAI_final. cbv zeta. fold rT. rewrite Hx, Ht.
  fold rS. unfold rS at 1. rewrite generateEnhancedSummary_result.
  set (s := match llm sv (tick (final rT)) with
            | Ok text => text
            | Throw _ => JSON_stringify fallback_summary
            end).
  fold rF.
  destruct (flagInterestTopics_resolves sv episode t (final rS)) as [flags Hf].
  fold rF in Hf. rewrite Hf.
  unfold update_episode_ai, insert_topic_flags, db. rewrite Hdb.
  assert (G : In e (map (set_analysis (Episode.id episode) t s)
                        (episodes (final rF))) ->
              Episode.id e = Episode.id episode ->
              Episode.transcript e = Some t /\ Episode.processed e = true /\
              Episode.ai_summary e = Some s).
  { intros Hin Hid. apply in_map_iff in Hin as (e0 & <- & _).
    unfold set_analysis in *.
    destruct (Episode.id e0 =? Episode.id episode)%Z eqn:E; simpl; [auto|].
    apply Z.eqb_neq in E. contradiction. }
  destruct (0 <? List.length flags)%nat; cbn; [|exact G].
  destruct (db_fault sv (S (tick (final rF)))); cbn; exact G.
Qed.

(** *** A new episode *)

Arguments processEpisodeAI : simpl never.

Lemma processNewEpisode_final podcast item w :
  final (processNewEpisode sv podcast item w) =
  match publishDate item with
  | None => w
  | Some t =>
      let d := episodeData podcast item t in
      match db_fault sv (tick w) with
      | Some _ => tock w
      | None => final (processEpisodeAI sv (new_row (next_id w) d) (inserted d w))
      end
  end.
Proof.
  unfold processNewEpisode, try_catch, bind, lift, toISOString, insert_episode,
    db, throw, console, inserted.
  destruct (publishDate item) as [t|]; cbn; [|reflexivity].
  destruct (db_fault sv (tick w)); cbn; [reflexivity|].
  resolve_with (processEpisodeAI_resolves sv
                  (new_row (next_id w) (episodeData podcast item t))
                  (tock (with_next_id (next_id w + 1)
                     (with_episodes
                        (episodes w ++ [new_row (next_id w) (episodeData podcast item t)])
                        w)))).
  reflexivity.
Qed.

(** X7.  An item with a valid publish date whose insertion the database
    accepts is stored: after [processNewEpisode] the id counter has advanced
    by one, the rows that were there are still there, in place and with the
    columns listed for [same_episode], and they are followed by one new row
    that has the fresh id, the id of the podcast, and the title, the
    description ([contentSnippet], else [content]), the audio URL, the
    publish date and the parsed duration of the item, whatever the pipeline
    of the new episode did afterwards. *)
Theorem inserted_episode_is_stored podcast item w d :
  publishDate item = Some d -> db_fault sv (tick w) = None ->
  let w' := final (processNewEpisode sv podcast item w) in
  next_id w' = (next_id w + 1)%Z /\
  exists kept row,
    episodes w' = kept ++ [row] /\
    Forall2 same_episode (episodes w) kept /\
    Episode.id row = next_id w /\
    Episode.podcast_id row = Podcast.id podcast /\
    Episode.title row = Item.title item /\
    Episode.description row
    = or_else (Item.contentSnippet item) (Item.content item) /\
    Episode.audio_url row = getAudioUrl item /\
    Episode.published_at row = d /\
    Episode.duration_seconds row = parseDuration (Item.itunes_duration item).
Proof.
  intros Hd Hdb w'. subst w'. rewrite processNewEpisode_final, Hd. cbv zeta.
  rewrite Hdb.
  set (data := episodeData podcast item d).
  set (new := new_row (next_id w) data).
  destruct (processEpisodeAI_frame sv new (inserted data w))
    as (Hid & _ & _ & _ & Hep & _).
  split; [rewrite Hid; reflexivity|].
  change (episodes (inserted data w)) with (episodes w ++ [new]) in Hep.
  apply Forall2_app_inv_l in Hep as (kept & last & Hkept & Hlast & ->).
  inversion Hlast as [|a row l l' [Hrow _] Hnil]; subst.
  inversion Hnil; subst.
  exists kept, row. split; [reflexivity|]. split.
  { eapply Forall2_impl; [|exact Hkept]. simpl. tauto. }
  destruct Hrow as (R1 & R2 & R3 & R4 & R5 & R6 & R7 & _).
  rewrite R1, R2, R3, R4, R5, R6, R7. repeat split; reflexivity.
Qed.

(** X8.  An item for which [getAudioUrl] finds no URL is stored and then
    left alone: when the database accepts the insertion, the episode table
    is the old one followed by the new row, which is unprocessed and has no
    transcript and no summary; no flag is stored, the trace is the
    insertion, the line that it was saved, and the two lines of a pipeline
    that found no transcript; and the row passes no digest query, which
    selects processed episodes only. *)
Theorem episode_without_audio_stays_unprocessed podcast item w d :
  publishDate item = Some d -> db_fault sv (tick w) = None ->
  getAudioUrl item = None ->
  let r := processNewEpisode sv podcast item w in
  let row := new_row (next_id w) (episodeData podcast item d) in
  episodes (final r) = episodes w ++ [row] /\
  topic_flags (final r) = topic_flags w /\
  Episode.processed row = false /\
  Episode.transcript row = None /\ Episode.ai_summary row = None /\
  emitted r
  = [Call (InsertEpisode (episodeData podcast item d));
     Console (MSaved (Item.title item));
     Console (MStartAI (Item.title item)); Console MNoTranscript] /\
  forall since, digest_filter since row = false.
Proof.
  intros Hd Hdb Hnone r row. subst r.
  rewrite processNewEpisode_final, processNewEpisode_emitted, Hd. cbv zeta.
  rewrite Hdb. fold row.
  set (w1 := inserted (episodeData podcast item d) w).
  assert (Hurl : truthy_string (Episode.audio_url row) = None).
  { unfold row, new_row, episodeData. simpl. now rewrite Hnone. }
  pose proof (transcribeAudio_without_url (Episode.audio_url row) w1 Hurl) as HT.
  destruct (@processEpisodeAI_without_transcript row w1 None) as [-> ->];
    [now rewrite HT|reflexivity|].
  rewrite HT. simpl.
  repeat split; try reflexivity.
  intros since. unfold digest_filter. simpl. apply andb_false_r.
Qed.

End Stored.

(** *** A database that is down *)

Section Down.
Context {RT : Runtime} {TP : Templates}.
Variable sv : Services.
Hypothesis Down : forall n, db_fault sv n <> None.

Lemma keeps_db_down R (F : frame R) {A} c (op : World -> Reply.t A * World) :
  keeps R (db sv c op).
Proof.
  intros w. unfold db. destruct (db_fault sv (tick w)) eqn:E.
  - apply (frame_tock F).
  - now destruct (Down (tick w) E).
Qed.

Lemma flagInterestTopics_down R (F : frame R) episode t :
  keeps R (flagInterestTopics sv episode t).
Proof.
  unfold flagInterestTopics, select_active_topics, update_ai_summary.
  keeps_all F; apply (keeps_db_down F).
Qed.

Lemma processEpisodeAI_down R (F : frame R) episode :
  keeps R (processEpisodeAI sv episode).
Proof.
  unfold processEpisodeAI, update_episode_ai, insert_topic_flags.
  apply (keeps_catch F); [|intros; apply (keeps_console F)].
  apply (keeps_bind F); [apply (keeps_console F)|intros _].
  apply (keeps_bind F); [apply (transcribeAudio_keeps sv F)|intros x].
  destruct (truthy_string x) as [t|]; [|apply (keeps_console F)].
  apply (keeps_bind F); [apply (generateEnhancedSummary_keeps sv F)|intros s].
  apply (keeps_bind F); [apply (flagInterestTopics_down F)|intros flags].
  apply (keeps_bind F); [apply (keeps_db_down F)|intros _].
  apply (keeps_bind F); [|intros; apply (keeps_console F)].
  destruct (0 <? List.length flags)%nat; [|apply (keeps_ret F)].
  apply (keeps_bind F); [apply (keeps_db_down F)|intros; apply (keeps_ret F)].
Qed.

End Down.

Section Completed.
Context {RT : Runtime} {TP : Templates}.
Variable sv : Services.

(** X9.  [processEpisodeAI] does not look at what the database answers.
    When a transcript was obtained, its last line reports that the
    processing of the episode completed, whatever the database and the
    model answered; and when the database refuses every request, that line
    is written although nothing was stored: the database is as it was and
    the episode is still unprocessed. *)
Theorem completion_is_logged_when_nothing_is_stored episode w x t :
  result (transcribeAudio sv (Episode.audio_url episode) w) = Ok x ->
  truthy_string x = Some t ->
  (exists before,
      emitted (processEpisodeAI sv episode w)
      = before ++ [Console (MAIDone (Episode.title episode))]) /\
  ((forall n, db_fault sv n <> None) ->
   same_tables w (final (processEpisodeAI sv episode w))).
Proof.
  intros Hx Ht. split.
  - rewrite processEpisodeAI_emitted. cbv zeta. rewrite Hx, Ht.
    set (rT := transcribeAudio sv (Episode.audio_url episode) w).
    set (rS := generateEnhancedSummary sv episode t (final rT)).
    set (rF := flagInterestTopics sv episode t (final rS)).
    destruct (generateEnhancedSummary_resolves sv episode t (final rT)) as [s Hs].
    destruct (flagInterestTopics_resolves sv episode t (final rS)) as [flags Hf].
    fold rS in Hs. fold rF in Hf. rewrite Hs, Hf.
    clearbody rF. clearbody rS. clearbody rT.
    exists (Console (MStartAI (Episode.title episode))
            :: emitted rT ++ emitted rS ++ emitted rF
            ++ Call (UpdateEpisodeAI (Episode.id episode) t s)
            :: (if (0 <? List.length flags)%nat
                then [Call (InsertTopicFlags flags)] else [])).
    rewrite <- !app_comm_cons, <- !app_assoc, <- !app_comm_cons. reflexivity.
  - intros Down. apply (processEpisodeAI_down sv Down same_tables_frame).
Qed.

End Completed.

(** *** The topic flags

    Object fields. *)

Lemma lookup_set_field_same k v fields : lookup k (set_field k v fields) = Some v.
Proof.
  induction fields as [|[k' v'] fields IH]; simpl.
  - now rewrite String.eqb_refl.
  - destruct (String.eqb k k') eqn:E; simpl; rewrite ?String.eqb_refl, ?E; auto.
Qed.

Lemma lookup_set_field_other k k' v fields :
  k <> k' -> lookup k (set_field k' v fields) = lookup k fields.
Proof.
  intros N. apply String.eqb_neq in N.
  induction fields as [|[k0 v0] fields IH]; simpl.
  - now rewrite N.
  - destruct (String.eqb k' k0) eqn:E; simpl.
    + apply String.eqb_eq in E as <-. now rewrite N.
    + now rewrite IH.
Qed.

Lemma lookup_remove_field_same k fields : lookup k (remove_field k fields) = None.
Proof.
  unfold remove_field. induction fields as [|[k' v'] fields IH]; simpl; [reflexivity|].
  destruct (String.eqb k k') eqn:E; simpl; [assumption|]. now rewrite E.
Qed.

Lemma lookup_remove_field_other k k' fields :
  k <> k' -> lookup k (remove_field k' fields) = lookup k fields.
Proof.
  intros N. apply String.eqb_neq in N.
  unfold remove_field. induction fields as [|[k0 v0] fields IH]; simpl; [reflexivity|].
  destruct (String.eqb k' k0) eqn:E; simpl.
  - apply String.eqb_eq in E as <-. now rewrite N.
  - now rewrite IH.
Qed.

(** X10.  The object written to [ai_summary] for a priority episode,
    [{ ...parsed, priority_episode: true, priority_topics }], has
    [priority_episode] equal to [true] and [priority_topics] equal to the
    value the model gave (absent when the model gave none), whatever
    [parsed] held under these two names, and every other property of
    [parsed] with its value. *)
Theorem priority_marking_fields parsed pt :
  exists fields,
    priority_marking parsed pt = JObj fields /\
    lookup "priority_episode" fields = Some (JBool true) /\
    lookup "priority_topics" fields = pt /\
    forall k, k <> "priority_episode" -> k <> "priority_topics" ->
              lookup k fields = lookup k (spread parsed).
Proof.
  unfold priority_marking. eexists. split; [reflexivity|].
  destruct pt as [v|].
  - split; [|split].
    + rewrite lookup_set_field_other by discriminate. apply lookup_set_field_same.
    + apply lookup_set_field_same.
    + intros k N1 N2. now rewrite !lookup_set_field_other.
  - split; [|split].
    + rewrite lookup_remove_field_other by discriminate. apply lookup_set_field_same.
    + apply lookup_remove_field_same.
    + intros k N1 N2. rewrite lookup_remove_field_other by assumption.
      now apply lookup_set_field_other.
Qed.

Section Flags.
Context {RT : Runtime} {TP : Templates}.
Variable sv : Services.

Lemma find_topic_Some topics flag tp :
  find_topic topics flag = Ok (Some tp) ->
  In tp topics /\ flag_topic flag = Ok (toLowerCase (Topic.topic tp)).
Proof.
  induction topics as [|t topics IH]; simpl; [discriminate|].
  destruct (flag_topic flag) as [ft|e] eqn:F; [|discriminate].
  destruct (String.eqb (toLowerCase (Topic.topic t)) ft) eqn:E.
  - intros [= <-]. apply String.eqb_eq in E. subst. auto.
  - intros H. destruct (IH H) as [I E']. auto.
Qed.

Lemma find_topic_throws topics flag e :
  topics <> [] -> flag_topic flag = Throw e -> find_topic topics flag = Throw e.
Proof. destruct topics as [|t topics]; [congruence|]. simpl. now intros _ ->. Qed.

(** The rows the loop adds each come from one flag of the answer and the
    topic found for it. *)
Lemma collect_flags_rows (P : Flag.t -> Prop) episode topics items :
  (forall tp item,
      In tp topics -> In item items ->
      flag_topic item = Ok (toLowerCase (Topic.topic tp)) ->
      P (flag_row episode tp item)) ->
  forall acc flags,
    Forall P acc -> collect_flags episode topics items acc = Ok flags ->
    Forall P flags.
Proof.
  induction items as [|item items IH]; simpl; intros Hrow acc flags Hacc.
  - now intros [= <-].
  - destruct (find_topic topics item) as [[tp|]|e] eqn:F; [| |discriminate].
    + destruct (find_topic_Some _ _ F) as [I E].
      apply IH; [intros; apply Hrow; auto|].
      apply Forall_app. split; [assumption|]. constructor; [|constructor].
      apply Hrow; auto.
    + apply IH; [intros; apply Hrow; auto|assumption].
Qed.

Lemma collect_flags_throws episode topics items item e :
  topics <> [] -> In item items -> flag_topic item = Throw e ->
  forall acc, exists e', collect_flags episode topics items acc = Throw e'.
Proof.
  intros Htopics. induction items as [|item' items IH]; simpl; [tauto|].
  intros [->|Hin] Hbad acc.
  - rewrite (find_topic_throws item Htopics Hbad). eauto.
  - destruct (find_topic topics item') as [[tp|]|e']; eauto.
Qed.

(** X11.  Without an active interest topic [flagInterestTopics] asks the
    model nothing: its only call is the topics query, it returns no flag,
    logs nothing and leaves the database as it was. *)
Theorem no_topics_no_request episode t w :
  db_fault sv (tick w) = None ->
  filter Topic.is_active (interest_topics w) = [] ->
  emitted (flagInterestTopics sv episode t w) = [Call SelectActiveTopics] /\
  result (flagInterestTopics sv episode t w) = Ok [] /\
  same_tables w (final (flagInterestTopics sv episode t w)).
Proof.
  intros Hdb Hnone.
  unfold flagInterestTopics, try_catch, bind, select_active_topics, db, ret,
    same_tables.
  rewrite Hdb. cbn. rewrite Hnone. cbn. tauto.
Qed.

(** X12.  [flagInterestTopics] always resolves, and every flag row it
    returns carries the id of the episode it was called for and the id of a
    topic that was active in the database when the function started; the
    row is built from an element of the [topic_flags] of the model's answer
    to the completion request, one whose [topic] equals the name of that
    topic up to letter case, and it copies that element's timestamps,
    snippet, analysis and relevance score.  Flags that name no active topic
    are left out. *)
Theorem flags_reference_episode_and_topic episode t w :
  match result (flagInterestTopics sv episode t w) with
  | Throw _ => False
  | Ok flags =>
      Forall (fun f =>
                Flag.episode_id f = Episode.id episode /\
                exists tp item text analysis listed items,
                  In tp (interest_topics w) /\ Topic.is_active tp = true /\
                  llm sv (S (tick w)) = Ok text /\
                  JSON_parse text = Some analysis /\
                  get_prop analysis "topic_flags" = Ok listed /\
                  iterate (or_empty_array listed) = Ok items /\
                  In item items /\
                  flag_topic item = Ok (toLowerCase (Topic.topic tp)) /\
                  Flag.topic_id f = Topic.id tp /\
                  f = flag_row episode tp item) flags
  end.
Proof.
  unfold flagInterestTopics, try_catch, bind, select_active_topics,
    update_ai_summary, db, ret, completion, lift, console, parse.
  destruct (db_fault sv (tick w)); cbn; [constructor|].
  destruct (filter Topic.is_active (interest_topics w)) as [|tp0 tps] eqn:T; cbn;
    [constructor|].
  destruct (llm sv (S (tick w))) as [text|] eqn:Hllm; cbn; [|constructor].
  destruct (JSON_parse text) as [analysis|] eqn:Hparse; cbn; [|constructor].
  destruct (get_prop analysis "topic_flags") as [listed|] eqn:Hlisted; cbn;
    [|constructor].
  destruct (iterate (or_empty_array listed)) as [items|] eqn:Hitems; cbn;
    [|constructor].
  destruct (collect_flags episode (tp0 :: tps) items []) as [flags|] eqn:C; cbn;
    [|constructor].
  match goal with
  | |- context [Forall ?P _] => assert (G : Forall P flags)
  end.
  { eapply collect_flags_rows; [|constructor|exact C].
    intros tp item Htp Hitem Hname. split; [reflexivity|].
    rewrite <- T in Htp. apply filter_In in Htp as [I A].
    exists tp, item, text, analysis, listed, items.
    repeat split; solve [assumption | reflexivity]. }
  destruct (get_prop analysis "priority_episode") as [pe|]; cbn; [|constructor].
  destruct (value_truthy pe); cbn; [|exact G].
  destruct (JSON_parse (or_empty_object (Episode.ai_summary episode))); cbn;
    [|constructor].
  destruct (get_prop analysis "priority_topics"); cbn; [|constructor].
  match goal with
  | |- context [db_fault sv ?n] => destruct (db_fault sv n)
  end; cbn; exact G.
Qed.

(** X13.  One flag of the model's answer whose [topic] cannot be
    lower-cased (it is missing or not a string, or the flag is [null])
    discards the whole answer: with an active topic and an answer that is
    JSON, [flagInterestTopics] then returns no flag at all, logs the error,
    makes no call after the completion request (no priority marking is
    written) and leaves the database as it was. *)
Theorem one_bad_flag_discards_all episode t w text analysis listed items item e :
  db_fault sv (tick w) = None ->
  filter Topic.is_active (interest_topics w) <> [] ->
  llm sv (S (tick w)) = Ok text ->
  JSON_parse text = Some analysis ->
  get_prop analysis "topic_flags" = Ok listed ->
  iterate (or_empty_array listed) = Ok items ->
  In item items -> flag_topic item = Throw e ->
  result (flagInterestTopics sv episode t w) = Ok [] /\
  same_tables w (final (flagInterestTopics sv episode t w)) /\
  exists e',
    emitted (flagInterestTopics sv episode t w)
    = [Call SelectActiveTopics; Call (FlagCompletion (Episode.id episode));
       Console (ETopic e')].
Proof.
  intros Hdb Htopics Hllm Hparse Hlisted Hitems Hin Hbad.
  unfold flagInterestTopics, try_catch, bind, select_active_topics,
    update_ai_summary, db, ret, completion, lift, console, parse, same_tables.
  rewrite Hdb. cbn.
  destruct (filter Topic.is_active (interest_topics w)) as [|tp0 tps] eqn:T;
    [congruence|]. cbn.
  rewrite Hllm. cbn. rewrite Hparse. cbn. rewrite Hlisted. cbn.
  rewrite Hitems. cbn.
  destruct (collect_flags_throws episode (topics := tp0 :: tps) items item
              ltac:(discriminate) Hin Hbad []) as [e' ->].
  cbn. split; [reflexivity|]. split; [tauto|]. eauto.
Qed.

End Flags.

Section Answer.
Context {RT : Runtime} {TP : Templates}.
Variable sv : Services.

Lemma find_topic_total topics flag s :
  flag_topic flag = Ok s -> exists found, find_topic topics flag = Ok found.
Proof.
  intros Hs. induction topics as [|tp topics IH]; simpl; [eauto|].
  rewrite Hs. destruct (String.eqb _ s); eauto.
Qed.

Lemma collect_flags_spec episode topics items :
  Forall (fun item => exists s, flag_topic item = Ok s) items ->
  forall acc,
    collect_flags episode topics items acc =
    Ok (acc ++ flat_map (fun item =>
                           match find_topic topics item with
                           | Ok (Some topic) => [flag_row episode topic item]
                           | _ => []
                           end) items).
Proof.
  induction 1 as [|item items [s Hs] _ IH]; intros acc; simpl.
  - now rewrite app_nil_r.
  - destruct (find_topic_total topics item Hs) as [[tp|] ->].
    + rewrite IH, <- app_assoc. reflexivity.
    + apply IH.
Qed.

(** X14.  When the topics query succeeds with at least one topic, the
    model's answer is JSON, every element of its [topic_flags] has a string
    for [topic], and the episode's own [ai_summary] is absent or JSON, the
    function returns, in the order of the answer, one row for each flag
    whose topic equals the name of an active topic up to letter case (the
    first such topic of the query result), and none for the other flags;
    this does not depend on whether the episode was marked as a priority
    episode or on the outcome of that update. *)
Theorem flags_follow_the_answer episode t w text analysis listed items :
  db_fault sv (tick w) = None ->
  filter Topic.is_active (interest_topics w) <> [] ->
  llm sv (S (tick w)) = Ok text ->
  JSON_parse text = Some analysis ->
  get_prop analysis "topic_flags" = Ok listed ->
  iterate (or_empty_array listed) = Ok items ->
  Forall (fun item => exists s, flag_topic item = Ok s) items ->
  JSON_parse (or_empty_object (Episode.ai_summary episode)) <> None ->
  result (flagInterestTopics sv episode t w) =
  Ok (flat_map (fun item =>
                  match find_topic (filter Topic.is_active (interest_topics w)) item with
                  | Ok (Some topic) => [flag_row episode topic item]
                  | _ => []
                  end) items).
Proof.
  intros Hdb Htopics Hllm Hparse Hlisted Hitems Hwell Hsummary.
  unfold flagInterestTopics, try_catch, bind, select_active_topics,
    update_ai_summary, db, ret, completion, lift, console, parse.
  rewrite Hdb. cbn.
  destruct (filter Topic.is_active (interest_topics w)) as [|tp0 tps] eqn:T;
    [congruence|]. cbn.
  rewrite Hllm. cbn. rewrite Hparse. cbn. rewrite Hlisted. cbn.
  rewrite Hitems. cbn. rewrite (collect_flags_spec episode (tp0 :: tps) Hwell []).
  cbn -[find_topic flat_map].
  assert (Hpe : exists pe, get_prop analysis "priority_episode" = Ok pe).
  { destruct analysis; simpl in *; try discriminate; eauto. }
  destruct Hpe as [pe ->]. cbn -[find_topic flat_map].
  destruct (value_truthy pe); cbn -[find_topic flat_map]; [|reflexivity].
  destruct (JSON_parse (or_empty_object (Episode.ai_summary episode)))
    as [parsed|]; [|congruence]. cbn -[find_topic flat_map].
  assert (Hpt : exists pt, get_prop analysis "priority_topics" = Ok pt).
  { destruct analysis; simpl in *; try discriminate; eauto. }
  destruct Hpt as [pt ->]. cbn -[find_topic flat_map].
  match goal with
  | |- context [db_fault sv ?n] => destruct (db_fault sv n)
  end; reflexivity.
Qed.

End Answer.

(** ** Checking a feed again *)

Section Rechecks.
Context {RT : Runtime} {TP : Templates}.

Lemma processPodcastFeed_inserts sv podcast w :
  inserts (emitted (processPodcastFeed sv podcast w)) =
  match rss sv (tick w) (Podcast.rss_url podcast) with
  | Ok items => map (data_of podcast) (filter (is_new podcast) items)
  | Throw _ => []
  end.
Proof.
  rewrite processPodcastFeed_emitted. simpl.
  destruct (rss sv (tick w) (Podcast.rss_url podcast)) as [items|e]; simpl;
    [|reflexivity].
  rewrite inserts_app.
  destruct (items_loop_inserts sv podcast items 0 (tock w)) as [-> _].
  simpl. destruct (0 <? _)%nat; simpl; now rewrite app_nil_r.
Qed.

(** The stored row of a podcast after a check whose last update the
    database accepted. *)
Lemma processPodcastFeed_stamps sv podcast w items :
  rss sv (tick w) (Podcast.rss_url podcast) = Ok items ->
  let loop := items_loop sv podcast items 0 (tock w) in
  db_fault sv (tick (final loop)) = None ->
  forall row,
    In row (podcasts (final (processPodcastFeed sv podcast w))) ->
    Podcast.id row = Podcast.id podcast ->
    Podcast.last_checked row = Some (clock sv (tick (final loop))).
Proof.
  intros Hrss loop Hdb row. rewrite (processPodcastFeed_final sv podcast w Hrss).
  cbv zeta. fold loop. rewrite Hdb. cbn.
  intros Hin Hid. apply in_map_iff in Hin as (p & <- & _).
  unfold set_last_checked in *.
  destruct (Podcast.id p =? Podcast.id podcast)%Z eqn:E; [reflexivity|].
  apply Z.eqb_neq in E. contradiction.
Qed.

Lemma data_of_published podcast item d :
  publishDate item = Some d -> EpisodeData.published_at (data_of podcast item) = d.
Proof. unfold data_of. now intros ->. Qed.

Lemma data_of_same_id podcast row item :
  Podcast.id row = Podcast.id podcast -> data_of row item = data_of podcast item.
Proof. unfold data_of, episodeData. now intros ->. Qed.

(** X15.  Once a check of a podcast has ended with an accepted update of
    [last_checked] to the time [t] of that moment, any later check that
    starts from the stored row of the podcast requests the insertion only of
    items published strictly after [t].  Nothing else is consulted: an item
    dated [t] or earlier is not inserted again, and is not retried either
    when its insertion or its processing failed during the first check. *)
Theorem later_checks_insert_only_later_items sv podcast w items :
  rss sv (tick w) (Podcast.rss_url podcast) = Ok items ->
  let loop := items_loop sv podcast items 0 (tock w) in
  let t := clock sv (tick (final loop)) in
  db_fault sv (tick (final loop)) = None ->
  forall row,
    In row (podcasts (final (processPodcastFeed sv podcast w))) ->
    Podcast.id row = Podcast.id podcast ->
    forall sv' w',
      Forall (fun d => (t < EpisodeData.published_at d)%Z)
             (inserts (emitted (processPodcastFeed sv' row w'))).
Proof.
  intros Hrss loop t Hdb row Hin Hid sv' w'.
  pose proof (processPodcastFeed_stamps sv podcast w Hrss Hdb row Hin Hid) as St.
  fold loop t in St.
  rewrite processPodcastFeed_inserts.
  destruct (rss sv' (tick w') (Podcast.rss_url row)) as [items'|]; [|constructor].
  apply Forall_forall. intros d Hd.
  apply in_map_iff in Hd as (item & <- & Hitem).
  apply filter_In in Hitem as [_ New].
  unfold is_new, lastChecked, date_gt in New. rewrite St in New.
  destruct (publishDate item) as [p|] eqn:P; [|discriminate].
  rewrite (data_of_published row item P). now apply Z.ltb_lt.
Qed.

(** X16.  An item whose publish date lies after the time [t] a check
    wrote to [last_checked] is not remembered: a later check that starts
    from the stored row and finds the item in the feed requests the
    insertion of the same episode data again, whatever the first check did
    with it.  (The episodes table is not consulted; only the dates are
    compared.) *)
Theorem future_items_are_inserted_again sv podcast w items item d :
  rss sv (tick w) (Podcast.rss_url podcast) = Ok items ->
  let loop := items_loop sv podcast items 0 (tock w) in
  db_fault sv (tick (final loop)) = None ->
  publishDate item = Some d ->
  (clock sv (tick (final loop)) < d)%Z ->
  forall row,
    In row (podcasts (final (processPodcastFeed sv podcast w))) ->
    Podcast.id row = Podcast.id podcast ->
    forall sv' w' items',
      rss sv' (tick w') (Podcast.rss_url row) = Ok items' -> In item items' ->
      In (data_of podcast item) (inserts (emitted (processPodcastFeed sv' row w'))).
Proof.
  intros Hrss loop Hdb Hd Hlater row Hin Hid sv' w' items' Hrss' Hitem.
  pose proof (processPodcastFeed_stamps sv podcast w Hrss Hdb row Hin Hid) as St.
  fold loop in St.
  rewrite processPodcastFeed_inserts, Hrss'.
  rewrite <- data_of_same_id with (row := row) by assumption.
  apply in_map, filter_In. split; [assumption|].
  unfold is_new, lastChecked, date_gt. rewrite St, Hd. now apply Z.ltb_lt.
Qed.

(** X17.  When a feed is fetched and holds new items, the last line of
    [processPodcastFeed] reports their number: the count of the items that
    pass the date test, whether or not their insertion and processing
    succeeded, and whether or not the update of [last_checked] was
    accepted. *)
Theorem found_counts_attempts sv podcast w items :
  rss sv (tick w) (Podcast.rss_url podcast) = Ok items ->
  let found := List.length (filter (is_new podcast) items) in
  (0 < found)%nat ->
  exists before,
    emitted (processPodcastFeed sv podcast w)
    = before ++ [Console (MFound found (Podcast.name podcast))].
Proof.
  intros Hrss found Hpos. rewrite processPodcastFeed_emitted, Hrss. cbv zeta.
  fold found. apply Nat.ltb_lt in Hpos. rewrite Hpos.
  eexists (_ :: _ :: _ ++ [_]). cbn. rewrite <- app_assoc. reflexivity.
Qed.

End Rechecks.

Section Stamp.
Context {RT : Runtime} {TP : Templates}.
Variable sv : Services.

Lemma processNewEpisode_podcasts podcast item w :
  podcasts (final (processNewEpisode sv podcast item w)) = podcasts w.
Proof.
  rewrite processNewEpisode_final.
  destruct (publishDate item) as [t|]; [|reflexivity]. cbv zeta.
  destruct (db_fault sv (tick w)); [reflexivity|].
  destruct (processEpisodeAI_frame sv
              (new_row (next_id w) (episodeData podcast item t))
              (inserted (episodeData podcast item t) w)) as (_ & -> & _).
  reflexivity.
Qed.

Lemma items_loop_podcasts podcast items n w :
  podcasts (final (items_loop sv podcast items n w)) = podcasts w.
Proof.
  revert n w. induction items as [|item items IH]; intros n w; simpl;
    [reflexivity|].
  destruct (is_new podcast item); [|apply IH].
  rewrite final_bind, processNewEpisode_resolves, IH.
  apply processNewEpisode_podcasts.
Qed.

(** X18.  The only change [processPodcastFeed] makes to the podcasts table
    is the stamp at its end.  When the feed cannot be fetched the database
    is as it was, so [last_checked] does not advance; when it is fetched,
    the table afterwards is the old one with [last_checked] set, in the
    rows of this podcast, to the time read after the items were handled,
    or the old one unchanged when the database refuses that update. *)
Theorem podcasts_after_check podcast w :
  let r := processPodcastFeed sv podcast w in
  match rss sv (tick w) (Podcast.rss_url podcast) with
  | Throw _ => same_tables w (final r)
  | Ok items =>
      let loop := items_loop sv podcast items 0 (tock w) in
      podcasts (final r) =
      match db_fault sv (tick (final loop)) with
      | Some _ => podcasts w
      | None =>
          map (set_last_checked (Podcast.id podcast) (clock sv (tick (final loop))))
              (podcasts w)
      end
  end.
Proof.
  cbv zeta.
  destruct (rss sv (tick w) (Podcast.rss_url podcast)) as [items|e] eqn:Hrss.
  - rewrite (processPodcastFeed_final sv podcast w Hrss). cbv zeta.
    pose proof (items_loop_podcasts podcast items 0 (tock w)) as Hloop.
    destruct (db_fault sv (tick (final (items_loop sv podcast items 0 (tock w)))));
      simpl; now rewrite Hloop.
  - unfold processPodcastFeed, try_catch, bind, console, parseURL, same_tables.
    cbn. rewrite Hrss. cbn. tauto.
Qed.

End Stamp.

(** ** The digest page

    *** A page that cannot be rendered *)

Section DigestFailure.
Context {RT : Runtime} {TP : Templates}.
Variable sv : Services.

Lemma html_of_throws fragments ep isPriority e :
  In (Block ep isPriority) fragments ->
  generateEpisodeHTML (val ep) isPriority = Throw e ->
  exists e', html_of fragments = Throw e'.
Proof.
  intros Hin Hbad. revert Hin.
  induction fragments as [|f fragments IH]; simpl; [tauto|].
  intros [->|Hin].
  - simpl. rewrite Hbad. eauto.
  - destruct (fragment_html f); [|eauto].
    destruct (IH Hin) as [e' ->]. eauto.
Qed.

Lemma nonempty_In {A} (x : A) l : In x l -> (0 <? List.length l)%nat = true.
Proof. destruct l; simpl; [tauto|reflexivity]. Qed.

(** Every element of a well-addressed array has its block on the page. *)
Lemma digest_fragments_block today (episodes : list (obj Digest.t)) ep :
  well_addressed episodes -> In ep episodes ->
  In (Block ep (is_priority (val ep))) (digest_fragments today episodes).
Proof.
  intros WA Hin. unfold digest_fragments.
  rewrite (regularEpisodes_filter WA). unfold priorityEpisodes.
  destruct (is_priority (val ep)) eqn:P.
  - assert (I : In ep (filter (fun ep => is_priority (val ep)) episodes))
      by (apply filter_In; auto).
    rewrite (nonempty_In _ _ I). apply in_or_app. right. apply in_or_app. left.
    right. apply in_map_iff. eauto.
  - assert (I : In ep (filter (fun ep => negb (is_priority (val ep))) episodes))
      by (apply filter_In; rewrite P; auto).
    rewrite (nonempty_In _ _ I). apply in_or_app. right. apply in_or_app. right.
    apply in_or_app. left. right. apply in_map_iff. eauto.
Qed.

Lemma allocate_val {A} (rows : list A) : map (@val A) (allocate rows) = rows.
Proof.
  transitivity (filter (fun _ : A => true) rows).
  - rewrite <- (allocate_filter (fun _ => true) rows).
    f_equal. symmetry. apply forallb_filter_id. apply forallb_forall. auto.
  - apply forallb_filter_id. apply forallb_forall. auto.
Qed.

Lemma generateDigestHTML_throws today rows row e :
  In row rows -> generateEpisodeHTML row (is_priority row) = Throw e ->
  exists e', generateDigestHTML today (allocate rows) = Throw e'.
Proof.
  intros Hin Hbad. rewrite <- (allocate_val rows) in Hin.
  apply in_map_iff in Hin as (ep & <- & Hep).
  eapply html_of_throws; [|exact Hbad].
  apply digest_fragments_block; [apply allocate_well_addressed|assumption].
Qed.

(** X20.  The digest is all or nothing: when there is a recipient and the
    rendering of the block of one selected episode throws, no mail is
    handed to the relay, however many other episodes were selected.  The
    run consists of the two queries and the line that logs the error, and
    the database is as it was. *)
Theorem one_bad_block_cancels_digest w email row e :
  digest_recipient sv w = Some email ->
  In row (digest_selection sv w) ->
  generateEpisodeHTML row (is_priority row) = Throw e ->
  same_tables w (final (sendDailyDigest sv w)) /\
  mails (emitted (sendDailyDigest sv w)) = [] /\
  exists e',
    emitted (sendDailyDigest sv w)
    = [Call SelectUserEmail;
       Call (SelectDigestEpisodes (clock sv (S (tick w)) - 24 * 60 * 60 * 1000));
       Console (EDigest e')].
Proof.
  intros Hto Hin Hbad. split; [apply sendDailyDigest_tables|].
  rewrite sendDailyDigest_emitted, Hto.
  destruct (digest_selection sv w) as [|r rows] eqn:Sel; [destruct Hin|].
  destruct (generateDigestHTML_throws (clock sv (S (S (tick w)))) (r :: rows)
              row Hin Hbad) as [e' ->].
  split; [reflexivity|eauto].
Qed.

(** X21.  [POST /send-digest] answers 200 with [success: true] and the
    message [Digest sent] in every world and for every behaviour of the
    collaborators: also when no recipient is configured, no episode was
    selected, the page could not be rendered or the relay refused the mail.
    Its [catch] branch with status 500 is never taken. *)
Theorem post_send_digest_always_200 w :
  result (post_send_digest sv w) = Ok (mkResponse 200 true "Digest sent").
Proof.
  unfold post_send_digest.
  rewrite result_try_catch, result_bind, sendDailyDigest_resolves. reflexivity.
Qed.

End DigestFailure.

(** *** The text of the page *)

Lemma string_app_nil_r (s : string) : (s ++ "")%string = s.
Proof. induction s as [|c s IH]; simpl; congruence. Qed.

Lemma string_app_assoc (a b c : string) :
  ((a ++ b) ++ c)%string = (a ++ b ++ c)%string.
Proof. induction a as [|x a IH]; simpl; congruence. Qed.

Lemma concat_cons (x : string) (l : list string) :
  String.concat "" (x :: l) = (x ++ String.concat "" l)%string.
Proof. destruct l; simpl; [now rewrite string_app_nil_r|reflexivity]. Qed.

Section Rendered.
Context {RT : Runtime} {TP : Templates}.

Lemma html_of_app a b :
  html_of (a ++ b)
  = match html_of a with
    | Throw e => Throw e
    | Ok s =>
        match html_of b with
        | Throw e => Throw e
        | Ok s' => Ok (s ++ s')%string
        end
    end.
Proof.
  induction a as [|f a IH]; simpl.
  - destruct (html_of b); reflexivity.
  - destruct (fragment_html f); [|reflexivity].
    rewrite IH. destruct (html_of a); [|reflexivity].
    destruct (html_of b); [|reflexivity].
    now rewrite string_app_assoc.
Qed.

(** The blocks of a group are rendered in order, and their texts appended. *)
Lemma html_of_blocks b (eps : list (obj Digest.t)) s :
  html_of (map (fun ep => Block ep b) eps) = Ok s <->
  exists texts,
    Forall2 (fun ep text => generateEpisodeHTML (val ep) b = Ok text) eps texts /\
    s = String.concat "" texts.
Proof.
  revert s. induction eps as [|ep eps IH]; intros s.
  - simpl. split.
    + intros [= <-]. exists []. split; [constructor|reflexivity].
    + intros (texts & F & ->). inversion F. reflexivity.
  - cbn [map html_of fragment_html]. split.
    + destruct (generateEpisodeHTML (val ep) b) as [t|] eqn:E; [|discriminate].
      destruct (html_of (map (fun ep => Block ep b) eps)) as [s'|] eqn:R;
        [|discriminate].
      intros [= <-]. destruct (proj1 (IH s') eq_refl) as (texts & F & ->).
      exists (t :: texts). split; [now constructor|].
      now rewrite concat_cons.
    + intros (texts & F & ->). inversion F as [|? t ? texts' E F']; subst.
      rewrite E, concat_cons.
      rewrite (proj2 (IH (String.concat "" texts'))) by eauto.
      reflexivity.
Qed.


(** A group of the page: nothing when the group is empty, and its heading
    followed by its blocks otherwise. *)
Lemma html_of_group b (eps : list (obj Digest.t)) heading s :
  fragment_html (Heading b) = Ok heading ->
  html_of (if (0 <? List.length eps)%nat
           then Heading b :: map (fun ep => Block ep b) eps else []) = Ok s <->
  exists texts,
    Forall2 (fun ep text => generateEpisodeHTML (val ep) b = Ok text) eps texts /\
    s = match texts with
        | [] => ""%string
        | _ :: _ => (heading ++ String.concat "" texts)%string
        end.
Proof.
  intros Hh. destruct eps as [|ep eps].
  - simpl. split.
    + intros [= <-]. exists []. split; [constructor|reflexivity].
    + intros (texts & F & ->). inversion F. reflexivity.
  - change (0 <? List.length (ep :: eps))%nat with true. cbv iota.
    change (html_of (Heading b :: ?l))
      with (match fragment_html (Heading b) with
            | Throw e => Throw e
            | Ok s =>
                match html_of l with
                | Throw e => Throw e
                | Ok s' => Ok (s ++ s')%string
                end
            end).
    rewrite Hh. split.
    + destruct (html_of (map (fun ep => Block ep b) (ep :: eps))) as [s'|] eqn:R;
        [|discriminate].
      intros [= <-]. apply html_of_blocks in R as (texts & F & ->).
      exists texts. split; [assumption|].
      inversion F; subst. reflexivity.
    + intros (texts & F & ->).
      rewrite (proj2 (html_of_blocks b (ep :: eps) (String.concat "" texts)))
        by eauto.
      inversion F; subst. reflexivity.
Qed.


(** The page is the header, the two groups and the footer. *)
Lemma generateDigestHTML_groups today (episodes : list (obj Digest.t)) :
  well_addressed episodes ->
  generateDigestHTML today episodes
  = match html_of (let priority := filter (fun ep => is_priority (val ep)) episodes in
                   if (0 <? List.length priority)%nat
                   then Heading true :: map (fun ep => Block ep true) priority
                   else []) with
    | Throw e => Throw e
    | Ok p =>
        match html_of (let regular :=
                         filter (fun ep => negb (is_priority (val ep))) episodes in
                       if (0 <? List.length regular)%nat
                       then Heading false :: map (fun ep => Block ep false) regular
                       else []) with
        | Throw e => Throw e
        | Ok r => Ok (digest_header today ++ p ++ r ++ "</body></html>")%string
        end
    end.
Proof.
  intros WA. cbv zeta. unfold generateDigestHTML, digest_fragments.
  rewrite (regularEpisodes_filter WA). unfold priorityEpisodes.
  set (priority := filter (fun ep => is_priority (val ep)) episodes).
  set (regular := filter (fun ep => negb (is_priority (val ep))) episodes).
  change ([Header today] ++ ?l) with (Header today :: l).
  cbn [html_of fragment_html]. rewrite !html_of_app.
  destruct (html_of (if (0 <? List.length priority)%nat then _ else _));
    [|reflexivity].
  destruct (html_of (if (0 <? List.length regular)%nat then _ else _));
    reflexivity.
Qed.

Lemma existsb_filter {A} (f : A -> bool) (l : list A) :
  existsb f l = (0 <? List.length (filter f l))%nat.
Proof.
  induction l as [|a l IH]; simpl; [reflexivity|].
  destruct (f a); simpl; [reflexivity|assumption].
Qed.

Lemma Forall2_Ok_map {A} (f : A -> outcome string) l texts :
  Forall2 (fun a text => f a = Ok text) l texts ->
  texts = map (fun a => match f a with Ok text => text | Throw _ => ""%string end) l.
Proof.
  induction 1 as [|a text l texts E _ IH]; simpl; [reflexivity|].
  now rewrite E, IH.
Qed.


(** X19.  The page of the empty array is the header followed by the footer.
    A page that [generateDigestHTML] returns for an array of episode
    objects is the header, the heading of the priority episodes when and
    only when some episode of the array is a priority episode, the blocks
    of the priority episodes, the heading of the recent episodes when and
    only when some episode of the array is not a priority episode, the
    blocks of those episodes, and the footer. *)
Theorem headings_only_for_nonempty_groups today (episodes : list (obj Digest.t)) :
  well_addressed episodes ->
  let blocks := fun (b : bool) (eps : list (obj Digest.t)) =>
    String.concat ""
      (map (fun ep => match generateEpisodeHTML (val ep) b with
                      | Ok text => text
                      | Throw _ => ""%string
                      end) eps) in
  generateDigestHTML today [] = Ok (digest_header today ++ "</body></html>")%string /\
  forall html,
    generateDigestHTML today episodes = Ok html ->
    html
    = (digest_header today
       ++ (if existsb (fun ep => is_priority (val ep)) episodes
           then "<h2>🚨 Priority Episodes (Extensive Coverage of Your Interests)</h2>"
           else "")
       ++ blocks true (filter (fun ep => is_priority (val ep)) episodes)
       ++ (if existsb (fun ep => negb (is_priority (val ep))) episodes
           then "<h2>📰 Recent Episodes</h2>"
           else "")
       ++ blocks false (filter (fun ep => negb (is_priority (val ep))) episodes)
       ++ "</body></html>")%string.
Proof.
  intros WA blocks. split; [reflexivity|].
  intros html. rewrite (generateDigestHTML_groups today WA). cbv zeta.
  rewrite !existsb_filter.
  set (priority := filter (fun ep => is_priority (val ep)) episodes).
  set (regular := filter (fun ep => negb (is_priority (val ep))) episodes).
  destruct (html_of (if (0 <? List.length priority)%nat then _ else _))
    as [p|] eqn:P; [|discriminate].
  destruct (html_of (if (0 <? List.length regular)%nat then _ else _))
    as [r|] eqn:R; [|discriminate].
  intros [= <-].
  apply (html_of_group true priority p eq_refl) in P as (tp & Fp & ->).
  apply (html_of_group false regular r eq_refl) in R as (tr & Fr & ->).
  unfold blocks.
  rewrite <- (Forall2_Ok_map _ Fp), <- (Forall2_Ok_map _ Fr).
  apply Forall2_length in Fp. apply Forall2_length in Fr.
  destruct tp as [|t1 tp]; destruct tr as [|t2 tr];
    rewrite Fp, Fr; cbn [List.length Nat.ltb Nat.leb];
    rewrite ?string_app_assoc; reflexivity.
Qed.

End Rendered.

(** ** The block of an episode *)

Section Blocks.
Context {RT : Runtime} {FM : Page.Formatting}.

Lemma each_throws {A B} (f : A -> outcome B) l a :
  In a l -> (exists e, f a = Throw e) -> exists e, Page.each f l = Throw e.
Proof.
  intros Hin [e Hbad]. induction l as [|x l IH]; simpl in *; [tauto|].
  destruct Hin as [->|Hin].
  - rewrite Hbad. simpl. eauto.
  - destruct (f x); simpl; [|eauto].
    destruct (IH Hin) as [e' ->]. simpl. eauto.
Qed.

Lemma flag_block_throws url flag :
  snd flag = None -> exists e, Page.flag_block url flag = Throw e.
Proof.
  intros Hnone. unfold Page.flag_block.
  destruct (Page.value_text (Flag.timestamp_start (fst flag))); simpl; [|eauto].
  rewrite Hnone. simpl. eauto.
Qed.

Lemma paragraphs_throws summary :
  summary = JNull \/ Page.not_a_list summary -> exists e, Page.paragraphs summary = Throw e.
Proof.
  unfold Page.paragraphs. intros [->|(v & -> & T & N)]; simpl; [eauto|].
  rewrite T. destruct v; eauto. now destruct (N l).
Qed.

(** What makes the block of an episode throw. *)
Lemma block_throws episode isPriority :
  Digest.podcasts episode = None \/
  Page.summary_of episode = JNull \/
  Page.not_a_list (Page.summary_of episode) \/
  (exists flag, In (flag, None) (Digest.topic_flags episode)) ->
  exists e, Page.generateEpisodeHTML episode isPriority = Throw e.
Proof.
  intros Bad. unfold Page.generateEpisodeHTML.
  destruct (Digest.podcasts episode) as [name|]; simpl; [|eauto].
  destruct (Page.generateApplePodcastsUrl name _) as [url|]; simpl; [|eauto].
  destruct (get_prop (Page.summary_of episode) "guest") as [guest|]; simpl; [|eauto].
  destruct (if value_truthy guest then Page.value_text guest else Ok "Unknown");
    simpl; [|eauto].
  destruct Bad as [Bad|[Bad|[Bad|(flag & Hin)]]]; [discriminate| | |].
  - destruct (paragraphs_throws (or_introl Bad)) as [e ->]. simpl. eauto.
  - destruct (paragraphs_throws (or_intror Bad)) as [e ->]. simpl. eauto.
  - destruct (Page.paragraphs (Page.summary_of episode)); simpl; [|eauto].
    destruct (Digest.topic_flags episode) as [|f fs] eqn:F; [destruct Hin|].
    change (0 <? List.length (f :: fs))%nat with true. cbv iota.
    destruct (@each_throws _ _ (Page.flag_block url) (f :: fs) (flag, None) Hin
                (flag_block_throws url (flag, None) eq_refl)) as [e ->].
    simpl. eauto.
Qed.

Lemma each_map {A B C} (f : A -> outcome B) (g : B -> C) l cs :
  Page.each (fun a => Page.and_then (f a) (fun b => Ok (g b))) l = Ok cs ->
  exists bs, Page.each f l = Ok bs /\ cs = map g bs.
Proof.
  revert cs. induction l as [|a l IH]; simpl; intros cs.
  - intros [= <-]. now exists [].
  - destruct (f a) as [b|]; simpl; [|discriminate].
    destruct (Page.each (fun a => Page.and_then (f a) (fun b => Ok (g b))) l) as [cs'|]; simpl;
      [|discriminate].
    intros [= <-]. destruct (IH cs' eq_refl) as (bs & -> & ->). simpl.
    now exists (b :: bs).
Qed.

Lemma each_Forall2 {A B} (f : A -> outcome B) l bs :
  Page.each f l = Ok bs -> Forall2 (fun a b => f a = Ok b) l bs.
Proof.
  revert bs. induction l as [|a l IH]; simpl; intros bs.
  - intros [= <-]. constructor.
  - destruct (f a) as [b|] eqn:E; simpl; [|discriminate].
    destruct (Page.each f l) as [bs'|]; simpl; [|discriminate].
    intros [= <-]. constructor; auto.
Qed.

Lemma flag_block_Ok url flag block :
  Page.flag_block url flag = Ok block ->
  exists topic start time analysis,
    snd flag = Some topic /\
    Page.value_text (Flag.timestamp_start (fst flag)) = Ok start /\
    Page.formatTime (Flag.timestamp_start (fst flag)) = Ok time /\
    Page.value_text (Flag.analysis (fst flag)) = Ok analysis /\
    block = Page.FlagBlock topic (url ++ "&t=" ++ start)%string time analysis.
Proof.
  unfold Page.flag_block.
  destruct (Page.value_text (Flag.timestamp_start (fst flag))) as [start|]; simpl;
    [|discriminate].
  destruct (snd flag) as [topic|]; simpl; [|discriminate].
  destruct (Page.formatTime _) as [time|]; simpl; [|discriminate].
  destruct (Page.value_text (Flag.analysis (fst flag))) as [analysis|]; simpl;
    [|discriminate].
  intros [= <-]. exists topic, start, time, analysis. repeat split.
Qed.

(** X22.  A block that [generateEpisodeHTML] returns was rendered for an
    episode that has its podcast, and consists of the opening, one paragraph
    for each element of [summary.summary_paragraphs] in order (none when
    that property is falsy), the end of the summary, then, when the episode
    has flags, the heading of the flags and one block for each flag in
    order, and the closing.  The opening holds the title, the podcast's
    name, the guest (the text of [summary.guest] when that is truthy and
    [Unknown] otherwise), the duration as [formatDuration] prints it, the
    date, and the Apple Podcasts search URL of the podcast name and the
    title.  The block of a flag holds the name of its topic, the URL
    followed by [&t=] and the text of the flag's [timestamp_start], that
    [timestamp_start] as [formatTime] prints it, and the text of the flag's
    [analysis]. *)
Theorem rendered_block episode isPriority pieces :
  Page.generateEpisodeHTML episode isPriority = Ok pieces ->
  exists name url guest paras blocks,
    Digest.podcasts episode = Some name /\
    Page.generateApplePodcastsUrl name (Episode.title (Digest.episode episode)) = Ok url /\
    (exists g, get_prop (Page.summary_of episode) "guest" = Ok g /\
               (if value_truthy g then Page.value_text g else Ok "Unknown")
               = Ok guest) /\
    pieces
    = Page.Opening isPriority
              (Page.string_text (Episode.title (Digest.episode episode)))
              name guest
              (Page.formatDuration (Episode.duration_seconds (Digest.episode episode)))
              (Page.toLocaleString (Episode.published_at (Digest.episode episode)))
              url
      :: map Page.Paragraph paras ++ [Page.SummaryEnd]
      ++ (if (0 <? List.length (Digest.topic_flags episode))%nat
          then Page.FlagsHeading :: blocks else [])
      ++ [Page.Closing] /\
    ((exists l, get_prop (Page.summary_of episode) "summary_paragraphs"
                = Ok (Some (JArr l)) /\ Page.each Page.to_text l = Ok paras) \/
     (exists listed, get_prop (Page.summary_of episode) "summary_paragraphs"
                     = Ok listed /\ value_truthy listed = false /\ paras = [])) /\
    Forall2 (fun flag block =>
               exists topic start time analysis,
                 snd flag = Some topic /\
                 Page.value_text (Flag.timestamp_start (fst flag)) = Ok start /\
                 Page.formatTime (Flag.timestamp_start (fst flag)) = Ok time /\
                 Page.value_text (Flag.analysis (fst flag)) = Ok analysis /\
                 block = Page.FlagBlock topic (url ++ "&t=" ++ start)%string
                                   time analysis)
            (Digest.topic_flags episode) blocks.
Proof.
  unfold Page.generateEpisodeHTML.
  destruct (Digest.podcasts episode) as [name|]; simpl; [|discriminate].
  destruct (Page.generateApplePodcastsUrl name _) as [url|] eqn:U; simpl;
    [|discriminate].
  destruct (get_prop (Page.summary_of episode) "guest") as [guest|] eqn:G; simpl;
    [|discriminate].
  destruct (if value_truthy guest then Page.value_text guest else Ok "Unknown")
    as [guest_text|] eqn:GT; simpl; [|discriminate].
  destruct (Page.paragraphs (Page.summary_of episode)) as [paras|] eqn:P; simpl;
    [|discriminate].
  assert (Hguest : exists g, Ok guest = Ok g /\
            (if value_truthy g then Page.value_text g else Ok "Unknown")
            = Ok guest_text) by (exists guest; split; [reflexivity|exact GT]).
  assert (Hparas : exists texts, paras = map Page.Paragraph texts /\
            ((exists l, get_prop (Page.summary_of episode) "summary_paragraphs"
                        = Ok (Some (JArr l)) /\ Page.each Page.to_text l = Ok texts) \/
             (exists listed, get_prop (Page.summary_of episode) "summary_paragraphs"
                             = Ok listed /\ value_truthy listed = false /\
                             texts = []))).
  { unfold Page.paragraphs in P.
    destruct (get_prop (Page.summary_of episode) "summary_paragraphs") as [listed|];
      simpl in P; [|discriminate].
    destruct (value_truthy listed) eqn:T.
    - destruct listed as [[| | | |l|]|]; try discriminate.
      apply each_map in P as (texts & E & ->). eauto 8.
    - injection P as <-. exists []. split; [reflexivity|]. right. eauto. }
  destruct Hparas as (texts & -> & Htexts).
  destruct (Digest.topic_flags episode) as [|f fs] eqn:F.
  - simpl. intros [= <-]. exists name, url, guest_text, texts, [].
    repeat split; auto.
  - change (0 <? List.length (f :: fs))%nat with true. cbv iota.
    destruct (Page.each (Page.flag_block url) (f :: fs)) as [bs|] eqn:B; simpl;
      [|discriminate].
    intros [= <-]. exists name, url, guest_text, texts, bs.
    split; [reflexivity|]. split; [exact U|]. split; [exact Hguest|].
    split; [reflexivity|]. split; [assumption|].
    apply each_Forall2 in B. eapply Forall2_impl; [|exact B].
    intros flag block. apply flag_block_Ok.
Qed.


End Blocks.

Section Orphans.
Context {RT : Runtime} {FM : Page.Formatting}.
Variable sv : Services.

Lemma html_throws episode isPriority e :
  Page.generateEpisodeHTML episode isPriority = Throw e ->
  Page.html episode isPriority = Throw e.
Proof. unfold Page.html. now intros ->. Qed.

Lemma joined_flag w e f :
  In f (topic_flags w) -> Flag.episode_id f = Episode.id e ->
  In (f, topic_name w f) (Digest.topic_flags (joined w e)).
Proof.
  intros Hin Hid. unfold joined. simpl.
  apply (in_map (fun f => (f, topic_name w f))). apply filter_In.
  split; [assumption|]. now apply Z.eqb_eq.
Qed.

(** X23.  With the page of [generateEpisodeHTML], one episode is enough to
    suppress the whole digest.  When there is a recipient and the digest
    query succeeds, and a processed episode of the last 24 hours has no
    podcast row, or has a flag whose topic row is gone, or has an
    [ai_summary] that parses to [null] or whose [summary_paragraphs] is a
    truthy value that is not an array, then no mail is sent: the run
    consists of the two queries and the line that logs the error. *)
Theorem unrenderable_episode_cancels_digest w email e :
  digest_recipient sv w = Some email ->
  db_fault sv (S (tick w)) = None ->
  In e (episodes w) -> Episode.processed e = true ->
  (clock sv (S (tick w)) - 24 * 60 * 60 * 1000 <= Episode.published_at e)%Z ->
  podcast_name w e = None \/
  (exists f, In f (topic_flags w) /\ Flag.episode_id f = Episode.id e /\
             topic_name w f = None) \/
  Page.summary_of (joined w e) = JNull \/
  Page.not_a_list (Page.summary_of (joined w e)) ->
  mails (emitted (sendDailyDigest (TP := Page.templates) sv w)) = [] /\
  exists e',
    emitted (sendDailyDigest (TP := Page.templates) sv w)
    = [Call SelectUserEmail;
       Call (SelectDigestEpisodes (clock sv (S (tick w)) - 24 * 60 * 60 * 1000));
       Console (EDigest e')].
Proof.
  intros Hto Hdb Hin Hproc Hrecent Bad.
  assert (Hrow : In (joined w e) (digest_selection sv w)).
  { unfold digest_selection, digest_rows. rewrite Hdb. apply in_map.
    apply (Permutation_in _ (Permutation_sym (order_desc_Permutation _))).
    apply filter_In. split; [assumption|]. unfold digest_filter.
    rewrite Hproc, andb_true_r. now apply Z.leb_le. }
  assert (Hbad : exists e', generateEpisodeHTML (Templates := Page.templates)
                              (joined w e) (is_priority (joined w e)) = Throw e').
  { destruct (@block_throws _ _ (joined w e) (is_priority (joined w e)))
      as [e' He'].
    - destruct Bad as [B|[(f & If & Idf & Tf)|[B|B]]]; auto.
      right. right. right. exists f. rewrite <- Tf. now apply joined_flag.
    - exists e'. now apply html_throws. }
  destruct Hbad as [e0 Hbad].
  assert (G : exists e',
    emitted (sendDailyDigest (TP := Page.templates) sv w)
    = [Call SelectUserEmail;
       Call (SelectDigestEpisodes (clock sv (S (tick w)) - 24 * 60 * 60 * 1000));
       Console (EDigest e')]).
  { rewrite sendDailyDigest_emitted, Hto.
    destruct (digest_selection sv w) as [|r rows] eqn:Sel; [destruct Hrow|].
    destruct (@generateDigestHTML_throws _ Page.templates
                (clock sv (S (S (tick w)))) (r :: rows) _ _ Hrow Hbad) as [e' ->].
    eauto. }
  destruct G as [e' G]. split; [now rewrite G|eauto].
Qed.

End Orphans.


(** ** Concrete runs *)

Module Runs.
Import Sample Scenario.

#[local] Existing Instance Sample.runtime.
#[local] Existing Instance Sample.templates.

(** C1 fails as stated: the podcast has no [last_checked], its feed holds
    an item without a publish date, and that item is not processed; only
    the dated item is inserted. *)
Lemma undated_item_is_skipped :
  Podcast.last_checked show = None /\
  rss reader (tick start) (Podcast.rss_url show) = Ok [undated; dated] /\
  map EpisodeData.title
      (inserts (emitted (processPodcastFeed reader show start)))
  = [Some "Dated"].
Proof. vm_compute. repeat split. Qed.

(** The feed of [show] is fetched: its fresh items, and only they, are
    inserted. *)
Lemma new_items_are_processed_witness :
  rss reader (tick start) (Podcast.rss_url show) = Ok feed /\
  inserts (emitted (processPodcastFeed reader show start))
  = map (data_of show) (filter (is_new show) feed).
Proof.
  split; [reflexivity|].
  exact (proj1 (new_items_are_processed reader show start eq_refl)).
Defined.

(** C2 fails as stated: the database refuses the topics query of the
    flagging stage, and [flagInterestTopics] returns no flags without
    writing a line; the pipeline of the episode goes on and reports that
    it completed. *)
Lemma topics_query_failure_is_silent :
  db_fault offline (tick listening) = Some "connection refused" /\
  emitted (flagInterestTopics offline fresh "Welcome to the show." listening)
  = [Call SelectActiveTopics] /\
  result (flagInterestTopics offline fresh "Welcome to the show." listening)
  = Ok [] /\
  filter (fun ev => match ev with Console _ => true | Call _ => false end)
         (emitted (processEpisodeAI offline fresh listening))
  = [Console (MStartAI (Some "Dated")); Console MTranscribing;
     Console (MAIDone (Some "Dated"))].
Proof. vm_compute. repeat split. Qed.

(** Each stage fails once: a thrown failure is logged by the function it
    occurred in, and that function resolves. *)
Lemma catch_log_continue_witness :
  emitted (processPodcastFeed failing show start)
  = [Console (MProcessing "The Show");
     Call (ParseURL "https://example.org/feed.xml");
     Console (EProcessing "The Show" "ENOTFOUND")] /\
  emitted (processNewEpisode failing show dated start)
  = [Call (InsertEpisode (episodeData show dated (morning - 2 * hour)));
     Console (ENewEpisode "connection refused")] /\
  emitted (transcribeAudio failing (Some "https://example.org/1.mp3") start)
  = [Console MTranscribing; Call (DownloadAudio "https://example.org/1.mp3");
     Console (ETranscription "timeout of 300000ms exceeded")] /\
  emitted (transcribeAudio mute (Some "https://example.org/1.mp3") start)
  = [Console MTranscribing; Call (DownloadAudio "https://example.org/1.mp3");
     Call Transcription;
     Console (ETranscription "Request failed with status code 401")] /\
  result (generateEnhancedSummary failing fresh "Welcome to the show." start)
  = Ok (JSON_stringify fallback_summary) /\
  emitted (flagInterestTopics speechless fresh "Welcome to the show." listening)
  = [Call SelectActiveTopics; Call (FlagCompletion 1);
     Console (ETopic "Request failed with status code 529")] /\
  emitted (flagInterestTopics chatty fresh "Welcome to the show." listening)
  = [Call SelectActiveTopics; Call (FlagCompletion 1);
     Console (ETopic "SyntaxError: Unexpected token in JSON")] /\
  emitted (flagInterestTopics offline fresh "Welcome to the show." listening)
  = [Call SelectActiveTopics].
Proof.
  destruct (catch_log_continue failing start)
    as (_ & _ & Hfeed & Hinsert & Hdownload & _ & Hsummary & _).
  destruct (catch_log_continue mute start)
    as (_ & _ & _ & _ & _ & Htranscription & _).
  destruct (catch_log_continue speechless listening)
    as (_ & _ & _ & _ & _ & _ & _ & Hflags & _).
  destruct (catch_log_continue chatty listening)
    as (_ & _ & _ & _ & _ & _ & _ & _ & Hjson & _).
  destruct (catch_log_continue offline listening)
    as (_ & _ & _ & _ & _ & _ & _ & _ & _ & Hquery).
  split; [exact (Hfeed show "ENOTFOUND" eq_refl)|].
  split; [exact (Hinsert show dated _ "connection refused" eq_refl eq_refl)|].
  split; [exact (proj1 (Hdownload "https://example.org/1.mp3" _ eq_refl eq_refl))|].
  split; [exact (proj1 (Htranscription "https://example.org/1.mp3" _
                          eq_refl eq_refl eq_refl))|].
  split; [exact (proj2 (Hsummary fresh "Welcome to the show." _ eq_refl))|].
  split.
  { refine (proj1 (Hflags fresh "Welcome to the show." _ eq_refl _ eq_refl)).
    discriminate. }
  split.
  { refine (proj1 (Hjson fresh "Welcome to the show." _ eq_refl _ eq_refl eq_refl)).
    discriminate. }
  exact (proj1 (Hquery fresh "Welcome to the show." _ eq_refl)).
Defined.

(** C3, on a run.  The episode [fresh] is transcribed, summarised and
    flagged as a priority episode; every request succeeds.
    [flagInterestTopics] writes the priority marking to the episode's
    [ai_summary], and the update that ends [processEpisodeAI] then sets
    [ai_summary] to the summary text: the stored record carries no
    priority marking and the digest takes the episode for a regular one,
    while the marking that was written would have made it a priority
    episode. *)
Theorem priority_marking_is_overwritten :
  let r := processEpisodeAI analyst fresh listening in
  (exists flags,
      calls (emitted r)
      = [DownloadAudio "https://example.org/1.mp3"; Transcription; UnlinkTemp;
         SummaryCompletion 1; SelectActiveTopics; FlagCompletion 1;
         UpdateAiSummary 1 marking_text;
         UpdateEpisodeAI 1 "Welcome to the show." summary_text;
         InsertTopicFlags flags]) /\
  map Episode.transcript (episodes (final r)) = [Some "Welcome to the show."] /\
  map Episode.processed (episodes (final r)) = [true] /\
  map Episode.ai_summary (episodes (final r)) = [Some summary_text] /\
  map (fun e => is_priority (joined (final r) e)) (episodes (final r)) = [false] /\
  is_priority (joined listening (set_ai_summary 1 marking_text fresh)) = true.
Proof.
  cbv zeta. split; [eexists; vm_compute; reflexivity|].
  vm_compute. repeat split.
Qed.

(** C4 fails as stated: on this run the topic-flagging stage makes three
    calls (the topics query, the completion request and the priority
    update) and the persist stage two (the episode update and the flag
    insert). *)
Lemma stages_make_several_calls :
  let trace := calls (emitted (processEpisodeAI analyst fresh listening)) in
  map step trace = [1; 2; 3; 4; 5; 6; 7; 8; 9]%nat /\
  map stage_of trace
  = [Some FetchAudio; Some Transcribe; Some Transcribe; Some Summarize;
     Some FlagTopics; Some FlagTopics; Some FlagTopics;
     Some Persist; Some Persist].
Proof. vm_compute. split; reflexivity. Qed.

(** C6 fails as stated: the two episodes of [workday] are processed and
    were published within the 24 hours before the run; the mail lists the
    older one before the newer one, because the older one is a priority
    episode. *)
Lemma digest_lists_priority_first :
  let now := clock steady 1 in
  let since := (now - 24 * 60 * 60 * 1000)%Z in
  let page := digest_fragments (clock steady 2)
                               (allocate (digest_rows since workday)) in
  mails (emitted (sendDailyDigest steady workday)) = [(listener, workday_text)] /\
  html_of page = Ok workday_text /\
  map (fun b => Episode.title (Digest.episode (val (snd (fst b)))))
      (placed None page)
  = [Some "Older"; Some "Newer"] /\
  (Episode.published_at older < Episode.published_at newer)%Z /\
  episodes workday = [older; newer] /\
  forallb (fun e => Episode.processed e
                    && (since <=? Episode.published_at e)%Z
                    && (Episode.published_at e <=? now)%Z)
          (episodes workday) = true.
Proof. vm_compute. repeat split. Qed.

(** The three cases of the digest: no recipient, nothing to report, and a
    mail to the listener. *)
Lemma digest_contents_witness :
  emitted (sendDailyDigest steady unconfigured)
  = [Call SelectUserEmail; Console MNoEmail] /\
  emitted (sendDailyDigest steady quiet)
  = [Call SelectUserEmail;
     Call (SelectDigestEpisodes (clock steady 1 - 24 * 60 * 60 * 1000));
     Console MNoEpisodes] /\
  In (listener, workday_text) (mails (emitted (sendDailyDigest steady workday))) /\
  mails (emitted (sendDailyDigest steady workday)) = [(listener, workday_text)] /\
  digest_recipient steady workday = Some listener.
Proof.
  pose proof (digest_contents steady unconfigured) as U.
  pose proof (digest_contents steady quiet) as Q.
  pose proof (digest_contents steady workday) as E.
  cbv zeta in U, Q, E.
  destruct U as (_ & Hnone & _). destruct Q as (_ & _ & Hempty & _).
  destruct E as (_ & _ & _ & _ & Hmail).
  split; [exact (Hnone eq_refl)|].
  split.
  { refine (Hempty listener eq_refl (or_intror _)). intros e []. }
  assert (Sent : In (listener, workday_text)
                    (mails (emitted (sendDailyDigest steady workday))))
    by (vm_compute; left; reflexivity).
  split; [exact Sent|].
  destruct (Hmail listener workday_text Sent) as (Once & To & _).
  split; assumption.
Defined.


End Runs.

(** ** More concrete runs *)

Module Prints.
Import Sample Scenario Cases.

#[local] Existing Instance Sample.runtime.
#[local] Existing Instance Sample.templates.
#[local] Existing Instance Press.formatting.

(** The transcription of [fresh] fails: the pipeline stops and the database
    is as it was. *)
Lemma no_transcript_no_change_witness :
  result (transcribeAudio mute (Episode.audio_url fresh) listening) = Ok None /\
  same_tables listening (final (processEpisodeAI mute fresh listening)) /\
  emitted (processEpisodeAI mute fresh listening)
  = Console (MStartAI (Episode.title fresh))
    :: emitted (transcribeAudio mute (Episode.audio_url fresh) listening)
    ++ [Console MNoTranscript].
Proof.
  split; [reflexivity|].
  exact (@no_transcript_no_change _ mute fresh listening None eq_refl eq_refl).
Defined.

(** [fresh] is transcribed and summarised, and the row is updated. *)
Lemma analysis_is_stored_witness :
  let stored := set_analysis 1 "Welcome to the show." summary_text fresh in
  result (transcribeAudio analyst (Episode.audio_url fresh) listening)
  = Ok (Some "Welcome to the show.") /\
  In stored (episodes (final (processEpisodeAI analyst fresh listening))) /\
  Episode.transcript stored = Some "Welcome to the show." /\
  Episode.processed stored = true /\
  Episode.ai_summary stored = Some summary_text.
Proof.
  cbv zeta.
  assert (Hin : In (set_analysis 1 "Welcome to the show." summary_text fresh)
                   (episodes (final (processEpisodeAI analyst fresh listening))))
    by (vm_compute; left; reflexivity).
  split; [reflexivity|]. split; [exact Hin|].
  exact (@analysis_is_stored _ analyst fresh listening
           (Some "Welcome to the show.") "Welcome to the show."
           eq_refl eq_refl eq_refl _ Hin eq_refl).
Defined.

(** The database is down while [fresh] is processed. *)
Lemma completion_is_logged_when_nothing_is_stored_witness :
  (forall n, db_fault offline n <> None) /\
  result (transcribeAudio offline (Episode.audio_url fresh) listening)
  = Ok (Some "Welcome to the show.") /\
  (exists before,
      emitted (processEpisodeAI offline fresh listening)
      = before ++ [Console (MAIDone (Episode.title fresh))]) /\
  same_tables listening (final (processEpisodeAI offline fresh listening)).
Proof.
  assert (Hdown : forall n, db_fault offline n <> None) by (intros n; discriminate).
  split; [exact Hdown|]. split; [reflexivity|].
  destruct (@completion_is_logged_when_nothing_is_stored _ offline fresh
              listening (Some "Welcome to the show.") "Welcome to the show."
              eq_refl eq_refl) as [Hline Hsame].
  split; [exact Hline|exact (Hsame Hdown)].
Defined.

(** The dated item of the feed of [show] is stored as episode 1. *)
Lemma inserted_episode_is_stored_witness :
  publishDate dated = Some (morning - 2 * hour)%Z /\
  db_fault reader (tick start) = None /\
  next_id (final (processNewEpisode reader show dated start)) = 2%Z.
Proof.
  assert (Hdate : publishDate dated = Some (morning - 2 * hour)%Z)
    by reflexivity.
  split; [exact Hdate|]. split; [reflexivity|].
  exact (proj1 (@inserted_episode_is_stored _ reader show dated start
                  (morning - 2 * hour)%Z Hdate eq_refl)).
Defined.

(** The show notes have no audio: they are stored and left unprocessed. *)
Lemma episode_without_audio_stays_unprocessed_witness :
  publishDate notes = Some (morning - 2 * hour)%Z /\
  getAudioUrl notes = None /\
  emitted (processNewEpisode reader show notes start)
  = [Call (InsertEpisode (episodeData show notes (morning - 2 * hour)));
     Console (MSaved (Item.title notes));
     Console (MStartAI (Item.title notes)); Console MNoTranscript].
Proof.
  assert (Hdate : publishDate notes = Some (morning - 2 * hour)%Z)
    by reflexivity.
  split; [exact Hdate|]. split; [reflexivity|].
  destruct (@episode_without_audio_stays_unprocessed _ reader show notes start
              (morning - 2 * hour)%Z Hdate eq_refl eq_refl)
    as (_ & _ & _ & _ & _ & Htrace & _).
  exact Htrace.
Defined.

(** No topic is active in [start]. *)
Lemma no_topics_no_request_witness :
  filter Topic.is_active (interest_topics start) = [] /\
  emitted (flagInterestTopics steady fresh "Welcome to the show." start)
  = [Call SelectActiveTopics].
Proof.
  split; [reflexivity|].
  exact (proj1 (@no_topics_no_request _ steady fresh "Welcome to the show." start
                  eq_refl eq_refl)).
Defined.

(** The second flag of the answer has the topic [5]: the first flag, which
    names the topic of [listening], is lost with it. *)
Lemma one_bad_flag_discards_all_witness :
  let good := JObj [("topic", JStr "ai")] in
  let bad := JObj [("topic", JNum 5%float)] in
  JSON_parse garbled_text = Some (JObj [("topic_flags", JArr [good; bad])]) /\
  flag_topic good = Ok "ai" /\
  flag_topic bad = Throw "TypeError: flag.topic.toLowerCase is not a function" /\
  result (flagInterestTopics garbler fresh "Welcome to the show." listening)
  = Ok [].
Proof.
  cbv zeta.
  assert (Hparse : JSON_parse garbled_text
                   = Some (JObj [("topic_flags",
                                  JArr [JObj [("topic", JStr "ai")];
                                        JObj [("topic", JNum 5%float)]])]))
    by (vm_compute; reflexivity).
  split; [exact Hparse|]. split; [reflexivity|]. split; [reflexivity|].
  refine (proj1 (@one_bad_flag_discards_all _ garbler fresh
                   "Welcome to the show." listening garbled_text _ _ _
                   (JObj [("topic", JNum 5%float)]) _
                   eq_refl _ eq_refl Hparse eq_refl eq_refl _ eq_refl)).
  - discriminate.
  - right. left. reflexivity.
Defined.

(** The answer [flags_text] names the topic of [listening] in lower case. *)
Lemma flags_follow_the_answer_witness :
  JSON_parse flags_text = Some flags_answer /\
  flag_topic flag_answer = Ok "ai" /\
  result (flagInterestTopics analyst fresh "Welcome to the show." listening)
  = Ok [flag_row fresh (Topic.mk 1 "AI" true) flag_answer].
Proof.
  assert (Hparse : JSON_parse flags_text = Some flags_answer)
    by (vm_compute; reflexivity).
  assert (Hsummary : JSON_parse (or_empty_object (Episode.ai_summary fresh)) <> None)
    by (vm_compute; discriminate).
  assert (Hwell : Forall (fun item => exists s, flag_topic item = Ok s)
                         [flag_answer])
    by (constructor; [exists "ai"; reflexivity|constructor]).
  split; [exact Hparse|]. split; [reflexivity|].
  refine (@flags_follow_the_answer _ analyst fresh "Welcome to the show."
            listening flags_text flags_answer (Some (JArr [flag_answer]))
            [flag_answer] eq_refl _ eq_refl Hparse eq_refl eq_refl Hwell Hsummary).
  discriminate.
Defined.

(** [show] is checked, and checked again from the stored row: the second
    check inserts nothing dated before the first. *)
Lemma later_checks_insert_only_later_items_witness :
  let first := processPodcastFeed reader show start in
  let t := clock reader (tick (final (items_loop reader show feed 0 (tock start)))) in
  rss reader (tick start) (Podcast.rss_url show) = Ok feed /\
  In (checked t) (podcasts (final first)) /\
  Forall (fun d => (t < EpisodeData.published_at d)%Z)
         (inserts (emitted (processPodcastFeed reader (checked t) (final first)))).
Proof.
  cbv zeta.
  assert (Hin : In (checked (clock reader
                               (tick (final (items_loop reader show feed 0
                                                        (tock start))))))
                   (podcasts (final (processPodcastFeed reader show start))))
    by (vm_compute; left; reflexivity).
  split; [reflexivity|]. split; [exact Hin|].
  exact (@later_checks_insert_only_later_items _ reader show start feed
           eq_refl eq_refl _ Hin eq_refl reader
           (final (processPodcastFeed reader show start))).
Defined.

(** The feed announces an episode for the next day: it is inserted by the
    first check and again by the second. *)
Lemma future_items_are_inserted_again_witness :
  let first := processPodcastFeed planner show start in
  let t := clock planner
             (tick (final (items_loop planner show [dated; scheduled] 0
                                      (tock start)))) in
  publishDate scheduled = Some (morning + 22 * hour)%Z /\
  (t < morning + 22 * hour)%Z /\
  In (data_of show scheduled) (inserts (emitted first)) /\
  In (data_of show scheduled)
     (inserts (emitted (processPodcastFeed planner (checked t) (final first)))).
Proof.
  cbv zeta.
  assert (Hdate : publishDate scheduled = Some (morning + 22 * hour)%Z)
    by reflexivity.
  assert (Hlater : (clock planner
                      (tick (final (items_loop planner show [dated; scheduled] 0
                                               (tock start))))
                    < morning + 22 * hour)%Z)
    by (vm_compute; reflexivity).
  assert (Hin : In (checked (clock planner
                               (tick (final (items_loop planner show
                                               [dated; scheduled] 0 (tock start))))))
                   (podcasts (final (processPodcastFeed planner show start))))
    by (vm_compute; left; reflexivity).
  split; [exact Hdate|]. split; [exact Hlater|].
  split; [vm_compute; right; left; reflexivity|].
  exact (@future_items_are_inserted_again _ planner show start
           [dated; scheduled] scheduled (morning + 22 * hour)%Z
           eq_refl eq_refl Hdate Hlater _ Hin eq_refl planner
           (final (processPodcastFeed planner show start)) [dated; scheduled]
           eq_refl (or_intror (or_introl eq_refl))).
Defined.

(** One item of the feed of [show] is new. *)
Lemma found_counts_attempts_witness :
  rss reader (tick start) (Podcast.rss_url show) = Ok feed /\
  exists before,
    emitted (processPodcastFeed reader show start)
    = before ++ [Console (MFound 1 "The Show")].
Proof.
  split; [reflexivity|].
  assert (Hfound : (0 < List.length (filter (is_new show) feed))%nat)
    by (vm_compute; lia).
  destruct (@found_counts_attempts _ reader show start feed eq_refl Hfound)
    as [before Htrace].
  exists before. rewrite Htrace. reflexivity.
Defined.

(** The page of [workday] has both headings. *)
Lemma headings_only_for_nonempty_groups_witness :
  let episodes := allocate (digest_rows 0 workday) in
  well_addressed episodes /\
  generateDigestHTML morning episodes = Ok workday_text /\
  existsb (fun ep => is_priority (val ep)) episodes = true /\
  existsb (fun ep => negb (is_priority (val ep))) episodes = true /\
  workday_text
  = ("<html><body>"
     ++ "<h2>🚨 Priority Episodes (Extensive Coverage of Your Interests)</h2>"
     ++ "<div class=priority>Older</div>"
     ++ "<h2>📰 Recent Episodes</h2>"
     ++ "<div>Newer</div>"
     ++ "</body></html>")%string.
Proof.
  cbv zeta.
  assert (Hpage : generateDigestHTML morning (allocate (digest_rows 0 workday))
                  = Ok workday_text) by (vm_compute; reflexivity).
  split; [apply allocate_well_addressed|].
  split; [exact Hpage|]. split; [reflexivity|]. split; [reflexivity|].
  rewrite (proj2 (@headings_only_for_nonempty_groups _ _ morning
                    (allocate (digest_rows 0 workday))
                    (allocate_well_addressed _)) workday_text Hpage).
  reflexivity.
Defined.

(** [stray] belongs to no podcast, and its block cannot be rendered: the
    digest of [orphaned] is not sent, although [annotated] could be. *)
Lemma one_bad_block_cancels_digest_witness :
  digest_recipient steady orphaned = Some listener /\
  In (joined orphaned stray) (digest_selection steady orphaned) /\
  In (joined orphaned annotated) (digest_selection steady orphaned) /\
  generateEpisodeHTML (joined orphaned stray) (is_priority (joined orphaned stray))
  = Throw "TypeError: Cannot read properties of null" /\
  mails (emitted (sendDailyDigest steady orphaned)) = [].
Proof.
  assert (Hin : In (joined orphaned stray) (digest_selection steady orphaned))
    by (vm_compute; right; left; reflexivity).
  assert (Hbad : generateEpisodeHTML (joined orphaned stray)
                                     (is_priority (joined orphaned stray))
                 = Throw "TypeError: Cannot read properties of null")
    by reflexivity.
  split; [reflexivity|]. split; [exact Hin|].
  split; [vm_compute; left; reflexivity|]. split; [exact Hbad|].
  destruct (@one_bad_block_cancels_digest _ _ steady orphaned listener
              (joined orphaned stray) _ eq_refl Hin Hbad) as (_ & Hmails & _).
  exact Hmails.
Defined.

(** The block of [annotated]: its guest is Ada, its 3723 seconds are printed
    as [1h 2m], and its flag at second 60 links to [&t=60] and is printed
    as [1:00]. *)
Lemma rendered_block_witness :
  Page.generateEpisodeHTML (joined library annotated) false = Ok annotated_block /\
  Page.formatDuration (Some 3723%float) = "1h 2m" /\
  Page.formatTime (Some (JNum 60%float)) = Ok "1:00" /\
  exists name url guest paras blocks,
    Digest.podcasts (joined library annotated) = Some name /\
    Page.generateApplePodcastsUrl name (Some "Annotated") = Ok url /\
    get_prop (Page.summary_of (joined library annotated)) "guest"
    = Ok (Some (JStr guest)) /\
    annotated_block
    = Page.Opening false "Annotated" name guest "1h 2m" "1767603600000" url
      :: map Page.Paragraph paras ++ [Page.SummaryEnd]
      ++ (Page.FlagsHeading :: blocks) ++ [Page.Closing] /\
    List.length paras = 2%nat /\ List.length blocks = 1%nat.
Proof.
  assert (Hblock : Page.generateEpisodeHTML (joined library annotated) false
                   = Ok annotated_block) by (vm_compute; reflexivity).
  split; [exact Hblock|].
  split; [vm_compute; reflexivity|]. split; [vm_compute; reflexivity|].
  destruct (@rendered_block _ _ (joined library annotated) false annotated_block
              Hblock)
    as (name & url & guest & paras & blocks & Hname & Hurl & Hguest & Hpieces
        & _ & Hflags).
  exists name, url, guest, paras, blocks.
  split; [exact Hname|]. split; [exact Hurl|].
  split.
  { destruct Hguest as (g & Hg & Htext).
    assert (Hada : get_prop (Page.summary_of (joined library annotated)) "guest"
                   = Ok (Some (JStr "Ada"))) by (vm_compute; reflexivity).
    rewrite Hada in Hg. injection Hg as <-.
    simpl in Htext. injection Htext as <-. exact Hada. }
  split; [exact Hpieces|].
  apply Forall2_length in Hflags.
  split; [|now rewrite <- Hflags].
  apply (f_equal (@List.length Page.piece)) in Hpieces.
  simpl in Hpieces. rewrite length_app, length_map in Hpieces.
  simpl in Hpieces. rewrite length_app in Hpieces. simpl in Hpieces.
  rewrite <- Hflags in Hpieces. simpl in Hpieces. lia.
Defined.


(** With the page of the service, [stray] suppresses the digest of
    [orphaned]. *)
Lemma unrenderable_episode_cancels_digest_witness :
  digest_recipient steady orphaned = Some listener /\
  In stray (episodes orphaned) /\
  Episode.processed stray = true /\
  podcast_name orphaned stray = None /\
  mails (emitted (sendDailyDigest (TP := Page.templates) steady orphaned)) = [].
Proof.
  assert (Hin : In stray (episodes orphaned)) by (right; left; reflexivity).
  assert (Hrecent : (clock steady (S (tick orphaned)) - 24 * 60 * 60 * 1000
                     <= Episode.published_at stray)%Z)
    by (vm_compute; discriminate).
  split; [reflexivity|]. split; [exact Hin|]. split; [reflexivity|].
  split; [reflexivity|].
  exact (proj1 (@unrenderable_episode_cancels_digest _ _ steady orphaned listener
                  stray eq_refl eq_refl Hin eq_refl Hrecent
                  (or_introl eq_refl))).
Defined.

End Prints.
